(** * Prime-Vector-Analyzer: the factoring core of [matrixService]

    A shallow embedding of the integer-factorization engine of the
    repository (class [QuantumFactoringArchitect] and the worker script
    [QUANTUM_WORKER_BLOB]) together with the properties its specification
    states about it, followed by the verdict of [analyzeNumber], its
    display in [ReportSummary] and the input check [validateInput] of the
    form, with further properties that the code has.

    The repository carries two revisions of the service file.  They share
    the class almost verbatim and differ in
    - the Miller-Rabin witness list ([bases]: 12 or 15 primes),
    - the trial-division basis ([smallBasis]: primes up to 23 or up to 37),
    - the worker kernel (hand-unrolled Brent with one retry, or Brent run
      over a column of the matrix [A1]),
    - the minimum number of lanes (4 or 6) and the length of the timer.
    The class is therefore embedded once, in a section abstracted over these
    four parts ([Architect]), and instantiated twice: [RawBrent] (the
    revision whose kernel is [solveRawBrent], [RawKernel]) and
    [MatrixBrent] (the revision whose kernel walks [columnData],
    [MatrixKernel]).

    Conventions.
    - A JavaScript [bigint] is a [Z]; [/] on bigints is [Z.quot] and [%] is
      [Z.rem] (both truncate towards zero); [>>], [<<], [&], [|] are
      [Z.shiftr], [Z.shiftl], [Z.land], [Z.lor].
    - An array is a [list]; [push] appends at the end and [pop] removes the
      last element.
    - A loop whose termination is not syntactically evident is run with a
      step budget ([fuel]) and yields [None] when the budget is exhausted;
      loops that halve a positive number recurse on its binary digits.
    - The non-determinism of a coordinator round (which lanes answer before
      the timer fires, in which order, and how long each of them ran) is an
      explicit input: the list of the round's arrivals.
    - A string is the list of its UTF-16 code units.
    - The floating-point part of the service (vectors, spectra, scores) is
      not embedded; the single test through which it reaches the verdict
      is a boolean input. *)

From Stdlib Require Import ZArith List Lia Bool Znumtheory Sorted Permutation.
From Stdlib Require ZmodInv.
Import ListNotations.
Local Open Scope Z_scope.

(** ** Partial computations *)

Definition bind {A B : Type} (m : option A) (k : A -> option B) : option B :=
  match m with
  | Some a => k a
  | None => None
  end.

Notation "x <- m ;; k" := (bind m (fun x => k))
  (at level 61, m at next level, right associativity).
Notation "' p <- m ;; k" := (bind m (fun p => k))
  (at level 61, p pattern, m at next level, right associativity).

(** [while fuel cond body s] runs [while (cond) { body }] from state [s]:
    [None] when [fuel] iterations were not enough or the body itself did
    not finish. *)
Fixpoint while {S : Type} (fuel : nat) (cond : S -> bool)
    (body : S -> option S) (s : S) : option S :=
  if cond s then
    match fuel with
    | O => None
    | Datatypes.S fuel' =>
        match body s with
        | Some s' => while fuel' cond body s'
        | None => None
        end
    end
  else Some s.

(** [do_while] is [while (true) { body; if (stop) break; }]. *)
Definition do_while {S : Type} (fuel : nat) (stop : S -> bool)
    (body : S -> option S) (s : S) : option S :=
  s1 <- body s ;;
  while fuel (fun s => negb (stop s)) body s1.

(** The state of a [while] loop after [k] iterations, or at its end when
    it ends earlier. *)
Fixpoint after_iterations {S : Type} (k : nat) (cond : S -> bool)
    (body : S -> option S) (s : S) : option S :=
  match k with
  | O => Some s
  | Datatypes.S k' =>
      if cond s then
        match body s with
        | Some s' => after_iterations k' cond body s'
        | None => None
        end
      else Some s
  end.

(** [for_count n step s] runs a counted [for] loop of [n] iterations
    (none when [n <= 0]). *)
Definition for_count {S : Type} (n : Z) (step : S -> S) (s : S) : S :=
  Z.iter n step s.

(** ** Arrays *)

Definition push {A : Type} (l : list A) (x : A) : list A := l ++ [x].

Definition pop {A : Type} (l : list A) : option (A * list A) :=
  match rev l with
  | [] => None
  | x :: r => Some (x, rev r)
  end.

Definition product (l : list Z) : Z := fold_right Z.mul 1 l.

(** The variant of the deep loop: every cofactor [q >= 2] in the queue
    weighs [q - 1]. *)
Definition weight (queue : list Z) : nat :=
  fold_right (fun q acc => (Z.to_nat (q - 1) + acc)%nat) 0%nat queue.

(** [Array.prototype.sort] with the comparator
    [(a, b) => (a < b ? -1 : a > b ? 1 : 0)].  The comparator is a total
    order on bigints, so every conforming sort returns the same array;
    insertion sort stands for it. *)
Fixpoint insert_sorted (a : Z) (l : list Z) : list Z :=
  match l with
  | [] => [a]
  | b :: l' => if a <=? b then a :: l else b :: insert_sorted a l'
  end.

Definition sort (l : list Z) : list Z := fold_right insert_sorted [] l.

(** ** The primality oracle ([power], [isPrime]) *)

(** The loop of [power]:
    [while (exp > 0n) { if (exp % 2n === 1n) res = (res * base) % mod;
                        base = (base * base) % mod; exp /= 2n; }]
    by recursion on the binary digits of [exp]: [exp % 2n === 1n] holds on
    [xI] and [xH], and [exp /= 2n] drops the last digit. On [xH] the
    squaring of [base] that the source still performs is dead. *)
Fixpoint power_loop (res base : Z) (exp : positive) (modulus : Z) : Z :=
  match exp with
  | xH => Z.rem (res * base) modulus
  | xO e => power_loop res (Z.rem (base * base) modulus) e modulus
  | xI e => power_loop (Z.rem (res * base) modulus) (Z.rem (base * base) modulus) e modulus
  end.

Definition power (base exp modulus : Z) : Z :=
  match exp with
  | Zpos e => power_loop 1 (Z.rem base modulus) e modulus
  | _ => 1
  end.

(** [while (d % 2n === 0n) { d /= 2n; s++; }] on a positive [d]. *)
Fixpoint decompose (d : positive) (s : Z) : Z * Z :=
  match d with
  | xO d' => decompose d' (s + 1)
  | _ => (Zpos d, s)
  end.

(** The inner loop [for (let r = 1n; r < s; r++)] of [isPrime]; [count] is
    the number of iterations left and the result is the flag [composite]. *)
Fixpoint squarings (count : nat) (x n : Z) : bool :=
  match count with
  | O => true
  | S count' =>
      let x := power x 2 n in
      if x =? n - 1 then false else squarings count' x n
  end.

(** The loop [for (const a of bases)]: [true] is [return true] (reached by
    [break] or by running out of witnesses), [false] is [return false]. *)
Fixpoint witnesses (bases : list Z) (n d s : Z) : bool :=
  match bases with
  | [] => true
  | a :: rest =>
      if n <=? a then true
      else
        let x := power a d n in
        if (x =? 1) || (x =? n - 1) then witnesses rest n d s
        else if squarings (Z.to_nat (s - 1)) x n then false
        else witnesses rest n d s
  end.

Definition isPrimeWith (bases : list Z) (n : Z) : bool :=
  if n <? 2 then false
  else if (n =? 2) || (n =? 3) then true
  else if Z.rem n 2 =? 0 then false
  else
    let '(d, s) :=
      match n - 1 with
      | Zpos p => decompose p 0
      | _ => (n - 1, 0)
      end in
    witnesses bases n d s.

(** ** The worker script

    [gcd] is the binary gcd that both revisions of the worker define (they
    differ only in the name of the shift counter). *)
Definition gcd (fuel : nat) (a b : Z) : option Z :=
  if a =? 0 then Some b
  else if b =? 0 then Some a
  else
    '(a, b, shift) <-
      while fuel
        (fun '(a, b, _) => Z.land (Z.lor a b) 1 =? 0)
        (fun '(a, b, shift) => Some (Z.shiftr a 1, Z.shiftr b 1, shift + 1))
        (a, b, 0) ;;
    a <- while fuel (fun a => Z.land a 1 =? 0)
           (fun a => Some (Z.shiftr a 1)) a ;;
    '(a, b) <-
      while fuel
        (fun '(_, b) => negb (b =? 0))
        (fun '(a, b) =>
           b <- while fuel (fun b => Z.land b 1 =? 0)
                  (fun b => Some (Z.shiftr b 1)) b ;;
           let '(a, b) := if a >? b then (b, a) else (a, b) in
           Some (a, b - a))
        (a, b) ;;
    Some (Z.shiftl a shift).

(** The polynomial step [(v * v + c) % n]. *)
Definition f (c n v : Z) : Z := Z.rem (v * v + c) n.

(** One step of a batch:
    [y = (y * y + c) % n; diff = x > y ? x - y : y - x; q = (q * diff) % n]. *)
Definition batch_step (c n x : Z) (yq : Z * Z) : Z * Z :=
  let '(y, q) := yq in
  let y := f c n y in
  let diff := if x >? y then x - y else y - x in
  (y, Z.rem (q * diff) n).

(** The variables of one Brent search. *)
Record brent : Type := mkBrent {
  v_x : Z; v_y : Z; v_g : Z; v_r : Z; v_q : Z;
  v_xs : Z; v_ys : Z; v_steps : Z
}.

(** The backtracking loop
    [while (true) { ys = f(ys); diff = |xs - ys|; g = gcd(diff, n);
                    if (g > 1n) break; }]
    on the pair [(ys, g)]. *)
Definition backtrack_step (fuel : nat) (c n xs : Z) (st : Z * Z)
    : option (Z * Z) :=
  let '(ys, _) := st in
  let ys := f c n ys in
  let diff := if xs >? ys then xs - ys else ys - xs in
  g <- gcd fuel diff n ;;
  Some (ys, g).

Definition backtrack (fuel : nat) (c n xs : Z) (st : Z * Z) : option (Z * Z) :=
  do_while fuel (fun '(_, g) => g >? 1) (backtrack_step fuel c n xs) st.

(** The values of a search stay within [M]. *)
Definition bounded (M : Z) (b : brent) : Prop :=
  Z.abs (v_x b) <= M /\ Z.abs (v_y b) <= M /\
  Z.abs (v_xs b) <= M /\ Z.abs (v_ys b) <= M.

(** *** The kernel with [solveRawBrent] *)
Module RawKernel.

Definition m : Z := 1000.
Definition STEPS_LIMIT : Z := 50000000.

(** The body of [while (k < r && g === 1n)]: one batch of at most [m]
    steps, unrolled four times, followed by one gcd.  The unrolled loop
    advances [j] by 4 up to [limitSteps], a multiple of 4, hence runs
    [limitSteps / 4] times; the loop after it runs [limit - limitSteps]
    times. *)
Definition batch (fuel : nat) (c n : Z) (st : Z * brent) : option (Z * brent) :=
  let '(k, b) := st in
  let ys := v_y b in
  let xs := v_x b in
  let condition := if v_r b - k <? m then v_r b - k else m in
  let limit := condition in
  let q := 1 in
  let limitMod4 := Z.land limit 3 in
  let limitSteps := limit - limitMod4 in
  let step := batch_step c n (v_x b) in
  let yq := for_count (limitSteps / 4)
              (fun yq => step (step (step (step yq)))) (v_y b, q) in
  let '(y, q) := for_count (limit - limitSteps) step yq in
  g <- gcd fuel q n ;;
  Some (k + limit, mkBrent (v_x b) y g (v_r b) q xs ys (v_steps b)).

(** The body of [while (g === 1n && steps < STEPS_LIMIT)].  [rNum] is
    [Number(r)], exact because [r] stays below 2^26 while the loop runs. *)
Definition round (fuel : nat) (c n : Z) (b : brent) : option brent :=
  let x := v_y b in
  let rNum := v_r b in
  let rMod4 := Z.land rNum 3 in
  let rSteps := rNum - rMod4 in
  let y := for_count (rSteps / 4)
             (fun y => f c n (f c n (f c n (f c n y)))) (v_y b) in
  let y := for_count rMod4 (f c n) y in
  let steps := v_steps b + rNum in
  '(_, b) <-
    while fuel
      (fun '(k, b) => (k <? v_r b) && (v_g b =? 1))
      (batch fuel c n)
      (0, mkBrent x y (v_g b) (v_r b) (v_q b) (v_xs b) (v_ys b) steps) ;;
  Some (mkBrent (v_x b) (v_y b) (v_g b) (Z.shiftl (v_r b) 1) (v_q b)
          (v_xs b) (v_ys b) (v_steps b)).

Definition solveRawBrent (fuel : nat) (n constantC startY : Z) : option Z :=
  let c := constantC in
  let y := startY in
  b <- while fuel
         (fun b => (v_g b =? 1) && (v_steps b <? STEPS_LIMIT))
         (round fuel c n)
         (mkBrent y y 1 1 1 y y 0) ;;
  if v_g b =? n then
    '(_, g) <- backtrack fuel c n (v_xs b) (v_ys b, v_g b) ;;
    Some g
  else Some (v_g b).

(** Invariants of the search, used to show that it finishes.  A [g]
    other than 1 is the gcd of [n] with the product of a batch of at most
    [m] differences, taken from the check point [(xs, ys)]. *)
Definition certified (c n : Z) (b : brent) : Prop :=
  v_g b = 1 \/
  exists L, (L <= Z.to_nat m)%nat /\
    v_g b = Z.gcd (snd (Nat.iter L (batch_step c n (v_xs b)) (v_ys b, 1))) n.

Definition search_inv (c n M : Z) (b : brent) : Prop :=
  1 <= v_r b /\ v_steps b = v_r b - 1 /\ bounded M b /\ certified c n b.

Definition batch_inv (c n M r0 x0 steps0 : Z) (st : Z * brent) : Prop :=
  let '(k, b) := st in
  0 <= k <= r0 /\ v_r b = r0 /\ v_x b = x0 /\ v_steps b = steps0 /\
  bounded M b /\ certified c n b.

(** [self.onmessage]: the posted [factor], [None] for [null].  With
    [n = 0] the first [% n] throws and the [catch] posts [null]. *)
Definition onmessage (fuel : nat) (n startC seedVal : Z) : option (option Z) :=
  if n =? 0 then Some None
  else
    factor <- solveRawBrent fuel n startC seedVal ;;
    factor <- (if (factor =? 1) || (factor =? n)
               then solveRawBrent fuel n (startC + 3) seedVal
               else Some factor) ;;
    Some (if (factor >? 1) && (factor <? n) then Some factor else None).

End RawKernel.

(** *** The kernel that walks a column of [A1] *)
Module MatrixKernel.

Definition m : Z := 128.
Definition stepLimit : Z := 20000000.

(** The body of [while (k < r && g === 1n)]; [q] is carried over from one
    batch to the next. *)
Definition batch (fuel : nat) (c n : Z) (st : Z * brent) : option (Z * brent) :=
  let '(k, b) := st in
  let ys := v_y b in
  let conditionLimit := if v_r b - k <? m then v_r b - k else m in
  let limit := conditionLimit in
  let '(y, q) := for_count limit (batch_step c n (v_x b)) (v_y b, v_q b) in
  g <- gcd fuel q n ;;
  Some (k + limit,
        mkBrent (v_x b) y g (v_r b) q (v_xs b) ys (v_steps b + limit)).

(** The body of [while (g === 1n && steps < stepLimit)]. *)
Definition round (fuel : nat) (c n : Z) (b : brent) : option brent :=
  let x := v_y b in
  let y := for_count (v_r b) (f c n) (v_y b) in
  '(_, b) <-
    while fuel
      (fun '(k, b) => (k <? v_r b) && (v_g b =? 1))
      (batch fuel c n)
      (0, mkBrent x y (v_g b) (v_r b) (v_q b) (v_xs b) (v_ys b) (v_steps b)) ;;
  Some (mkBrent (v_x b) (v_y b) (v_g b) (v_r b * 2) (v_q b)
          (v_xs b) (v_ys b) (v_steps b)).

(** One pass of the [for] loop over [columnData]: Brent with constant [c]
    from the start point [y]; the result is the final [g].  This revision
    has no variable [xs]: the backtracking loop reads [x]. *)
Definition attempt (fuel : nat) (n c y : Z) : option Z :=
  b <- while fuel
         (fun b => (v_g b =? 1) && (v_steps b <? stepLimit))
         (round fuel c n)
         (mkBrent y y 1 1 1 y y 0) ;;
  if v_g b =? n then
    '(_, g) <- backtrack fuel c n (v_x b) (v_ys b, v_g b) ;;
    Some g
  else Some (v_g b).

(** Invariants of the search, used to show that it finishes.  [g] is the
    gcd of [n] and [q]; a [g] other than 1 comes from a batch of at most
    [m] differences, taken from the check point [(x, ys)] with an
    accumulator coprime to [n]. *)
Definition certified (c n : Z) (b : brent) : Prop :=
  0 <= v_q b <= n /\ v_g b = Z.gcd (v_q b) n /\
  (v_g b <> 1 ->
   exists L q0, (L <= Z.to_nat m)%nat /\ 0 <= q0 /\ Z.gcd q0 n = 1 /\
     v_q b = snd (Nat.iter L (batch_step c n (v_x b)) (v_ys b, q0))).

Definition search_inv (c n M : Z) (b : brent) : Prop :=
  1 <= v_r b /\ 0 <= v_steps b /\ (v_g b = 1 -> v_steps b = v_r b - 1) /\
  bounded M b /\ certified c n b.

Definition batch_inv (c n M r0 x0 steps0 : Z) (st : Z * brent) : Prop :=
  let '(k, b) := st in
  0 <= k <= r0 /\ v_r b = r0 /\ v_x b = x0 /\ v_steps b = steps0 + k /\
  (k = 0 -> v_g b = 1) /\ bounded M b /\ certified c n b.

(** [for (let i = 0; i < columnData.length; i++)], entered at index [i]
    with the remaining entries of [columnData]. *)
Fixpoint column (fuel : nat) (n : Z) (columnData : list Z) (seedVal i : Z)
    : option (option Z) :=
  match columnData with
  | [] => Some None
  | c :: rest =>
      g <- attempt fuel n c (seedVal + i) ;;
      if (g >? 1) && (g <? n) then Some (Some g)
      else column fuel n rest seedVal (i + 1)
  end.

(** [self.onmessage]; with [n = 0] either [columnData] is empty or the
    first [% n] throws: [null] is posted in both cases. *)
Definition onmessage (fuel : nat) (n : Z) (columnData : list Z) (seedVal : Z)
    : option (option Z) :=
  if n =? 0 then Some None
  else column fuel n columnData seedVal 0.

End MatrixKernel.

(** ** The class [QuantumFactoringArchitect] *)
Module Architect.

(** The state one call of [findFactorParallel] shares between its
    callbacks: the counters [activeWorkers] and [resolved], and the value
    the promise has been settled with, if any. *)
Record promise : Type := mkPromise {
  activeWorkers : Z;
  resolved : bool;
  settled : option Z
}.

(** [resolve(v)]: only the first call settles a promise. *)
Definition resolve (v : Z) (p : promise) : promise :=
  match settled p with
  | Some _ => p
  | None => mkPromise (activeWorkers p) (resolved p) (Some v)
  end.

(** The callback [worker.onmessage] for target [n], on a posted [factor]
    ([None] for [null]; a posted string is never empty, hence truthy). *)
Definition onmessage (n : Z) (factor : option Z) (p : promise) : promise :=
  if resolved p then p
  else
    match factor with
    | Some f =>
        if negb (f =? n) && negb (f =? 1)
        then resolve f (mkPromise (activeWorkers p) true (settled p))
        else
          let p := mkPromise (activeWorkers p - 1) (resolved p) (settled p) in
          if (activeWorkers p =? 0) && negb (resolved p) then resolve 0 p
          else p
    | None =>
        let p := mkPromise (activeWorkers p - 1) (resolved p) (settled p) in
        if (activeWorkers p =? 0) && negb (resolved p) then resolve 0 p
        else p
    end.

(** The callback of [setTimeout]. *)
Definition ontimeout (p : promise) : promise :=
  if resolved p then p
  else resolve 0 (mkPromise (activeWorkers p) true (settled p)).

(** Where the factors of the ghost run come from: the base case
    [nVal === 1n], the sieve, the prime branch of the deep loop, or its
    failure branch, which records what the coordinator returned. *)
Inductive origin : Type :=
  | Unit
  | Sieved
  | Prime
  | Unresolved (returned : Z).

(** An unsettled promise has [resolved] unset; a settled one holds [0] or
    a proper divisor of [n], and holds [0] as long as [resolved] is unset. *)
Definition promise_ok (n : Z) (p : promise) : Prop :=
  match settled p with
  | None => resolved p = false
  | Some v =>
      (v = 0 \/ (1 < v < n /\ (v | n))) /\ (resolved p = false -> v = 0)
  end.

Section Architect.

(** The constant [bases] of [isPrime] and [smallBasis] of
    [factorizeAsync]. *)
Variable bases : list Z.
Variable smallBasis : list Z.

(** A lane whose message reaches the coordinator before the timer fires is
    an [Arrival]; [answer n a] is the [factor] its message carries, or
    [None] when the lane does not finish within the step budget that the
    arrival grants it (such a lane is still running when the round ends,
    and is terminated by [cleanup]). *)
Variable Arrival : Type.
Variable answer : Z -> Arrival -> option (option Z).

(** [Math.max(4, logicalCores)], respectively [Math.max(6, logicalCores)]. *)
Variable workerCount : Z.

Definition isPrime (n : Z) : bool := isPrimeWith bases n.

Definition deliver (n : Z) (p : promise) (a : Arrival) : promise :=
  match answer n a with
  | Some factor => onmessage n factor p
  | None => p
  end.

(** The state of the promise when the timer fires, in a round where the
    messages of [arrivals] are delivered in this order before it. *)
Definition race (n : Z) (arrivals : list Arrival) : promise :=
  fold_left (deliver n) arrivals (mkPromise workerCount false None).

(** [findFactorParallel(n)] in such a round.  The result is what the
    promise is settled with once the timer has fired. *)
Definition findFactorParallel (n : Z) (arrivals : list Arrival) : option Z :=
  if Z.rem n 2 =? 0 then Some 2
  else if isPrime n then Some n
  else settled (ontimeout (race n arrivals)).

(** [while (temp % p === 0n) { factors.push(p); temp /= p; }] *)
Definition strip_prime (fuel : nat) (p : Z) (st : list Z * Z)
    : option (list Z * Z) :=
  while fuel
    (fun '(_, temp) => Z.rem temp p =? 0)
    (fun '(factors, temp) => Some (push factors p, Z.quot temp p))
    st.

(** [for (const p of smallBasis)] on the pair [(factors, temp)]. *)
Fixpoint strip_basis (fuel : nat) (basis : list Z) (st : list Z * Z)
    : option (list Z * Z) :=
  match basis with
  | [] => Some st
  | p :: rest =>
      st' <- strip_prime fuel p st ;;
      strip_basis fuel rest st'
  end.

(** [for (let num of queue)] on the pair [(factors, nextQueue)]. *)
Fixpoint sieve (fuel : nat) (queue : list Z) (st : list Z * list Z)
    : option (list Z * list Z) :=
  match queue with
  | [] => Some st
  | num :: rest =>
      let '(factors, nextQueue) := st in
      '(factors, temp) <- strip_basis fuel smallBasis (factors, num) ;;
      sieve fuel rest
        (factors, if temp >? 1 then push nextQueue temp else nextQueue)
  end.

(** The rounds still to come: each call of [findFactorParallel] takes the
    next one; when none is left, no message arrives before the timer. *)
Definition next_round (rounds : list (list Arrival))
    : list Arrival * list (list Arrival) :=
  match rounds with
  | [] => ([], [])
  | r :: rs => (r, rs)
  end.

(** The body of [while (queue.length > 0)] on
    [(factors, queue, rounds)]. *)
Definition deep_step (st : list Z * list Z * list (list Arrival))
    : option (list Z * list Z * list (list Arrival)) :=
  let '(factors, queue, rounds) := st in
  '(current, queue) <- pop queue ;;
  if isPrime current then Some (push factors current, queue, rounds)
  else
    let '(arrivals, rounds) := next_round rounds in
    factor <- findFactorParallel current arrivals ;;
    if (factor =? 0) || (factor =? current)
    then Some (push factors current, queue, rounds)
    else Some (factors, push (push queue factor) (Z.quot current factor),
               rounds).

Definition queue_nonempty {A B : Type} (st : A * list Z * B) : bool :=
  negb (Nat.eqb (length (snd (fst st))) 0).

Definition factorizeAsync (fuel : nat) (nVal : Z)
    (rounds : list (list Arrival)) : option (list Z) :=
  if nVal <? 1 then Some []
  else if nVal =? 1 then Some [1]
  else
    '(factors, queue) <- sieve fuel [nVal] ([], []) ;;
    '(factors, _, _) <- while fuel queue_nonempty deep_step
                          (factors, queue, rounds) ;;
    Some (sort factors).

(** *** Ghost run

    The same sieve and the same deep loop, with every pushed factor paired
    with the statement that pushed it.  The source keeps no such mark: its
    failure branch pushes into the same array
    ([factors.push(current); // Unresolved]). *)
Definition deep_step_ghost
    (st : list (Z * origin) * list Z * list (list Arrival))
    : option (list (Z * origin) * list Z * list (list Arrival)) :=
  let '(factors, queue, rounds) := st in
  '(current, queue) <- pop queue ;;
  if isPrime current then Some (push factors (current, Prime), queue, rounds)
  else
    let '(arrivals, rounds) := next_round rounds in
    factor <- findFactorParallel current arrivals ;;
    if (factor =? 0) || (factor =? current)
    then Some (push factors (current, Unresolved factor), queue, rounds)
    else Some (factors, push (push queue factor) (Z.quot current factor),
               rounds).

(** The array [factors] before the final sort, with origins. *)
Definition factorizeGhost (fuel : nat) (nVal : Z)
    (rounds : list (list Arrival)) : option (list (Z * origin)) :=
  if nVal <? 1 then Some []
  else if nVal =? 1 then Some [(1, Unit)]
  else
    '(factors, queue) <- sieve fuel [nVal] ([], []) ;;
    '(factors, _, _) <- while fuel queue_nonempty deep_step_ghost
                          (map (fun p => (p, Sieved)) factors, queue, rounds) ;;
    Some factors.

(** *** Invariants and variants used in the proofs *)

(** The invariant of the deep loop, for the input [N] and the factors
    [sieved] that the sieve has pushed. *)
Definition deep_inv (N : Z) (sieved : list Z)
    (st : list Z * list Z * list (list Arrival)) : Prop :=
  let '(factors, queue, _) := st in
  Forall (fun q => 2 <= q) queue /\
  product factors * product queue = N /\
  exists added, factors = sieved ++ added /\ Forall (fun q => 2 <= q) added.

(** What an origin says about the factor it is attached to. *)
Definition origin_ok (fo : Z * origin) : Prop :=
  let '(factor, o) := fo in
  match o with
  | Unit => factor = 1
  | Sieved => In factor smallBasis
  | Prime => isPrime factor = true
  | Unresolved returned =>
      isPrime factor = false /\
      (returned = 0 \/ returned = factor) /\
      exists arrivals, findFactorParallel factor arrivals = Some returned
  end.

Definition erase (g : list (Z * origin) * list Z * list (list Arrival))
    : list Z * list Z * list (list Arrival) :=
  let '(factors, queue, rounds) := g in (map fst factors, queue, rounds).

(** The invariant of the ghost run: origins are accurate, and the base
    case is not among them. *)
Definition deep_origin_ok (fo : Z * origin) : Prop :=
  origin_ok fo /\ snd fo <> Unit.

End Architect.

End Architect.

(** ** The two revisions *)

(** [l[i]] for an index inside the array.  The matrix [A1] is imported from
    the module [constants], which is not part of the sources at hand; it is
    taken as a parameter, a non-empty matrix of integers ([19 x 6] by the
    comments of the source).  Outside the array [l[i]] is [undefined] in
    the source and [0] here. *)
Definition at_index (l : list Z) (i : Z) : Z := nth (Z.to_nat i) l 0.

(** *** The revision with [solveRawBrent] *)
Module RawBrent.

Definition bases : list Z := [2; 3; 5; 7; 11; 13; 17; 19; 23; 29; 31; 37].
Definition smallBasis : list Z := [2; 3; 5; 7; 11; 13; 17; 19; 23].

(** The message of worker number [lane], granted [budget] steps. *)
Record Arrival : Type := mkArrival { lane : Z; budget : nat }.

Definition sieve : nat -> list Z -> list Z * list Z -> option (list Z * list Z) :=
  Architect.sieve smallBasis.

Section Coordinator.

Variable A1 : list (list Z).
(** [navigator.hardwareConcurrency], [0] when it is undefined. *)
Variable hardwareConcurrency : Z.

Definition logicalCores : Z :=
  if hardwareConcurrency =? 0 then 4 else hardwareConcurrency.
Definition workerCount : Z := Z.max 4 logicalCores.
Definition flatA1 : list Z := concat A1.

(** [startC] and [seedVal] of worker [i]. *)
Definition laneParams (i : Z) : Z * Z :=
  if i =? 0 then (1, 2)
  else if i =? 1 then (3, 5)
  else if i =? 2 then (5, 7)
  else
    (at_index flatA1 (Z.rem i (Z.of_nat (length flatA1))),
     at_index flatA1 (Z.rem (i * 3) (Z.of_nat (length flatA1))) + i).

Definition answer (n : Z) (a : Arrival) : option (option Z) :=
  let '(startC, seedVal) := laneParams (lane a) in
  RawKernel.onmessage (budget a) n startC seedVal.

Definition isPrime : Z -> bool := Architect.isPrime bases.
Definition race : Z -> list Arrival -> Architect.promise :=
  Architect.race Arrival answer workerCount.
Definition findFactorParallel : Z -> list Arrival -> option Z :=
  Architect.findFactorParallel bases Arrival answer workerCount.
Definition deep_step
    : list Z * list Z * list (list Arrival) ->
      option (list Z * list Z * list (list Arrival)) :=
  Architect.deep_step bases Arrival answer workerCount.
Definition factorizeAsync : nat -> Z -> list (list Arrival) -> option (list Z) :=
  Architect.factorizeAsync bases smallBasis Arrival answer workerCount.
Definition factorizeGhost
    : nat -> Z -> list (list Arrival) -> option (list (Z * Architect.origin)) :=
  Architect.factorizeGhost bases smallBasis Arrival answer workerCount.

End Coordinator.
End RawBrent.

(** *** The revision that walks the columns of [A1] *)
Module MatrixBrent.

Definition bases : list Z :=
  [2; 3; 5; 7; 11; 13; 17; 19; 23; 29; 31; 37; 41; 43; 47].
Definition smallBasis : list Z := [2; 3; 5; 7; 11; 13; 17; 19; 23; 29; 31; 37].

(** The message of worker number [lane], whose seed was drawn as
    [Math.floor(Math.random() * 1000) = random], granted [budget] steps. *)
Record Arrival : Type := mkArrival { lane : Z; random : Z; budget : nat }.

Definition sieve : nat -> list Z -> list Z * list Z -> option (list Z * list Z) :=
  Architect.sieve smallBasis.

Section Coordinator.

Variable A1 : list (list Z).
Variable hardwareConcurrency : Z.

Definition logicalCores : Z :=
  if hardwareConcurrency =? 0 then 6 else hardwareConcurrency.
Definition workerCount : Z := Z.max 6 logicalCores.

(** [Array.from({ length: 6 }, (_, colIndex) => A1.map(row => row[colIndex]))] *)
Definition A1_columns : list (list Z) :=
  map (fun colIndex => map (fun row => at_index row colIndex) A1)
    [0; 1; 2; 3; 4; 5].

Definition answer (n : Z) (a : Arrival) : option (option Z) :=
  let i := lane a in
  let columnIndex := Z.rem i 6 in
  let columnData := nth (Z.to_nat columnIndex) A1_columns [] in
  let seedVal := random a + 2 + i * 100 in
  MatrixKernel.onmessage (budget a) n columnData seedVal.

Definition isPrime : Z -> bool := Architect.isPrime bases.
Definition race : Z -> list Arrival -> Architect.promise :=
  Architect.race Arrival answer workerCount.
Definition findFactorParallel : Z -> list Arrival -> option Z :=
  Architect.findFactorParallel bases Arrival answer workerCount.
Definition deep_step
    : list Z * list Z * list (list Arrival) ->
      option (list Z * list Z * list (list Arrival)) :=
  Architect.deep_step bases Arrival answer workerCount.
Definition factorizeAsync : nat -> Z -> list (list Arrival) -> option (list Z) :=
  Architect.factorizeAsync bases smallBasis Arrival answer workerCount.
Definition factorizeGhost
    : nat -> Z -> list (list Arrival) -> option (list (Z * Architect.origin)) :=
  Architect.factorizeGhost bases smallBasis Arrival answer workerCount.

End Coordinator.
End MatrixBrent.

(** [run] returns [out]: every budget from some point on is enough, and
    the result is [out]. *)
Definition returns {A : Type} (run : nat -> option A) (out : A) : Prop :=
  exists fuel0, forall fuel, (fuel0 <= fuel)%nat -> run fuel = Some out.

(** ** The oracle in the words of the specification

    The second reading of [isPrime], used only to compare the code with
    it: powers are mathematical powers, loops are quantifiers. *)
Module OracleSpec.

(** A witness [a] passes: [x = a^d mod n] is [1] or [n - 1], or one of
    the at most [s - 1] successive squarings of [x] equals [n - 1]. *)
Definition passes (n d s a : Z) : Prop :=
  a ^ d mod n = 1 \/ a ^ d mod n = n - 1 \/
  exists r, 1 <= r <= s - 1 /\ a ^ (d * 2 ^ r) mod n = n - 1.

(** Going through the ordered witness list: stop and accept at the first
    witness with [n <= a]; otherwise the witness has to pass. *)
Inductive accepts (n d s : Z) : list Z -> Prop :=
  | accepts_done : accepts n d s []
  | accepts_stop a rest : n <= a -> accepts n d s (a :: rest)
  | accepts_next a rest :
      a < n -> passes n d s a -> accepts n d s rest ->
      accepts n d s (a :: rest).

(** [n] is reported prime: it is 2 or 3, or it is odd, larger than 3, and
    with [n - 1 = d * 2^s], [d] odd, no witness fails. *)
Definition isPrime (bases : list Z) (n : Z) : Prop :=
  n = 2 \/ n = 3 \/
  (3 < n /\ Z.odd n = true /\
   exists d s, 0 <= s /\ n - 1 = d * 2 ^ s /\ Z.odd d = true /\
               accepts n d s bases).

End OracleSpec.

(** The contract of the oracle for a witness list [bases]. *)
Definition oracle_contract (bases : list Z) : Prop :=
  Forall prime bases /\
  firstn 12 bases = [2; 3; 5; 7; 11; 13; 17; 19; 23; 29; 31; 37] /\
  forall n,
    (n < 2 -> isPrimeWith bases n = false) /\
    (n = 2 \/ n = 3 -> isPrimeWith bases n = true) /\
    (3 < n -> Z.even n = true -> isPrimeWith bases n = false) /\
    (isPrimeWith bases n = true <-> OracleSpec.isPrime bases n).

(** ** The properties, stated for either revision *)

Definition composite (n : Z) : Prop :=
  exists a b, 1 < a /\ 1 < b /\ n = a * b.

Section Statements.

Import Architect.

Variable Arrival : Type.
Variable isPrime : Z -> bool.
Variable answer : Z -> Arrival -> option (option Z).
Variable workerCount : Z.
Variable race : Z -> list Arrival -> promise.
Variable findFactorParallel : Z -> list Arrival -> option Z.
Variable sieve : nat -> list Z -> list Z * list Z -> option (list Z * list Z).
Variable deep_step :
  list Z * list Z * list (list Arrival) ->
  option (list Z * list Z * list (list Arrival)).
Variable factorizeAsync : nat -> Z -> list (list Arrival) -> option (list Z).

(** The product of the returned factors is the input. *)
Definition reconstructs (n : Z) : Prop :=
  forall rounds, exists out,
    returns (fun fuel => factorizeAsync fuel n rounds) out /\
    product out = n.

(** [product(factors) * product(queue) = n] after the sieve and after
    every iteration of the deep loop. *)
Definition loop_invariant (n : Z) : Prop :=
  forall rounds, exists factors0 queue0,
    returns (fun fuel => sieve fuel [n] ([], [])) (factors0, queue0) /\
    forall k, exists factors queue rounds',
      after_iterations k queue_nonempty deep_step (factors0, queue0, rounds)
        = Some (factors, queue, rounds') /\
      product factors * product queue = n.


(** Every returned factor passes the oracle, except the cofactors that the
    coordinator could not split: a returned factor that does not pass the
    oracle is the cofactor [current] of an iteration of the deep loop in
    which [findFactorParallel], on the round that this iteration takes,
    returned [0] or the cofactor itself.  The iterations are those of the
    run itself, from the state that the sieve leaves. *)
Definition primality_agreement (n : Z) : Prop :=
  forall rounds, exists factors0 queue0 out,
    returns (fun fuel => sieve fuel [n] ([], [])) (factors0, queue0) /\
    returns (fun fuel => factorizeAsync fuel n rounds) out /\
    forall factor, In factor out ->
      isPrime factor = true \/
      exists k factors queue rounds' returned,
        after_iterations k queue_nonempty deep_step (factors0, queue0, rounds)
          = Some (factors, push queue factor, rounds') /\
        isPrime factor = false /\
        findFactorParallel factor (fst (next_round Arrival rounds'))
          = Some returned /\
        (returned = 0 \/ returned = factor).

(** The failure branch of the deep loop: a cofactor that the oracle
    rejects and on which the coordinator returns [0] or the cofactor
    itself is appended to [factors], and nothing is queued for it. *)
Definition failure_appends : Prop :=
  forall factors queue rounds current returned,
    isPrime current = false ->
    findFactorParallel current (fst (next_round Arrival rounds))
      = Some returned ->
    returned = 0 \/ returned = current ->
    deep_step (factors, push queue current, rounds)
      = Some (push factors current, queue, snd (next_round Arrival rounds)).

(** The coordinator ends a round without a factor by returning [0]:
    when no message carries a factor before the timer fires, and already
    before the timer when all [workerCount] lanes have posted [null]. *)
Definition failure_is_zero (n : Z) : Prop :=
  (forall arrivals,
     Forall (fun a => answer n a = Some None \/ answer n a = None) arrivals ->
     findFactorParallel n arrivals = Some 0) /\
  (forall arrivals,
     Z.of_nat (length arrivals) = workerCount ->
     Forall (fun a => answer n a = Some None) arrivals ->
     settled (race n arrivals) = Some 0 /\
     findFactorParallel n arrivals = Some 0).

(** The returned array is in ascending order. *)
Definition sorted_output (n : Z) : Prop :=
  forall rounds, exists out,
    returns (fun fuel => factorizeAsync fuel n rounds) out /\
    Sorted Z.le out.

(** No returned factor is below 2. *)
Definition factors_at_least_two (n : Z) : Prop :=
  forall rounds, exists out,
    returns (fun fuel => factorizeAsync fuel n rounds) out /\
    Forall (fun factor => 2 <= factor) out.

End Statements.

(** The contract of the sieve for a basis [smallBasis] on input [n]. *)
Definition sieve_contract (smallBasis : list Z) (n : Z) : Prop :=
  exists smallFactors residual,
    returns (fun fuel => Architect.strip_basis fuel smallBasis ([], n))
      (smallFactors, residual) /\
    returns (fun fuel => Architect.sieve smallBasis fuel [n] ([], []))
      (smallFactors, if residual >? 1 then [residual] else []) /\
    Forall (fun p => In p smallBasis) smallFactors /\
    (residual = 1 \/ 1 < residual) /\
    Forall (fun p => Z.rem residual p <> 0) smallBasis /\
    product smallFactors * residual = n.

(** The primes up to 37; both bases are an initial segment of them. *)
Definition primes_to_37 : list Z := [2; 3; 5; 7; 11; 13; 17; 19; 23; 29; 31; 37].

(** ** Sample inputs

    A matrix to run the revisions on (the properties below hold for every
    matrix), and an odd composite number that passes Miller-Rabin for every
    base among the first 15 primes:
    [172157429516701 * 344314859033401]. *)
Definition sample_A1 : list (list Z) :=
  [[2; 3; 5; 7; 11; 13]; [17; 19; 23; 29; 31; 37]; [41; 43; 47; 53; 59; 61]].


(** ** The report ([analyzeNumber]) and its display ([ReportSummary])

    The enumerations of [types.ts], and the fields of
    [MatrixAnalysisReport] that do not hold floating-point numbers.  The
    source reports the factors as the decimal strings
    [realFactorsBig.map(String)]; the record keeps the numbers. *)
Inductive ClassificationType : Type :=
  | PRIME
  | SEMIPRIME
  | COMPOSITE
  | NON_PRIME_UNSTABLE
  | UNIT.

Inductive StabilityState : Type :=
  | STABLE
  | UNSTABLE
  | CRITICAL.

Record MatrixAnalysisReport : Type := mkReport {
  classification : ClassificationType;
  factors : list Z;
  stability : StabilityState
}.

(** [analyzeNumber] from step 7 on, for an input string that [BigInt] has
    parsed to [nBig].  Steps 1 to 6 compute [resonanceScore] in floating
    point from the input string alone; the only place where it meets the
    verdict is the test [resonanceScore > 0.72], whose outcome is the
    argument [resonant].  [verdict] is steps 8 and 9 on the array that
    [factorizeAsync] has returned. *)
Module RawAnalysis.

Definition verdict (resonant : bool) (nBig : Z) (realFactorsBig : list Z)
    : MatrixAnalysisReport :=
  let '(classification, stability) :=
    if nBig =? 1 then (UNIT, CRITICAL)
    else if Nat.eqb (length realFactorsBig) 1
            && (at_index realFactorsBig 0 =? nBig)
    then
      if RawBrent.isPrime nBig then (PRIME, STABLE)
      else (NON_PRIME_UNSTABLE, UNSTABLE)
    else
      (if Nat.eqb (length realFactorsBig) 2 then SEMIPRIME else COMPOSITE,
       if resonant then STABLE else UNSTABLE) in
  mkReport classification realFactorsBig stability.

Section Analysis.

Variable A1 : list (list Z).
Variable hardwareConcurrency : Z.

Definition analyzeNumber (resonant : bool) (fuel : nat) (nBig : Z)
    (rounds : list (list RawBrent.Arrival)) : option MatrixAnalysisReport :=
  realFactorsBig <-
    RawBrent.factorizeAsync A1 hardwareConcurrency fuel nBig rounds ;;
  Some (verdict resonant nBig realFactorsBig).

End Analysis.
End RawAnalysis.

Module MatrixAnalysis.

Definition verdict (resonant : bool) (nBig : Z) (realFactorsBig : list Z)
    : MatrixAnalysisReport :=
  let classification :=
    if nBig =? 1 then UNIT
    else if Nat.eqb (length realFactorsBig) 1
            && (at_index realFactorsBig 0 =? nBig)
    then
      if MatrixBrent.isPrime nBig then PRIME else NON_PRIME_UNSTABLE
    else if Nat.eqb (length realFactorsBig) 2 then SEMIPRIME
    else COMPOSITE in
  let stability := UNSTABLE in
  let stability :=
    if resonant || (match classification with PRIME => true | _ => false end)
    then STABLE else stability in
  let stability :=
    match classification with UNIT => CRITICAL | _ => stability end in
  mkReport classification realFactorsBig stability.

Section Analysis.

Variable A1 : list (list Z).
Variable hardwareConcurrency : Z.

Definition analyzeNumber (resonant : bool) (fuel : nat) (nBig : Z)
    (rounds : list (list MatrixBrent.Arrival)) : option MatrixAnalysisReport :=
  realFactorsBig <-
    MatrixBrent.factorizeAsync A1 hardwareConcurrency fuel nBig rounds ;;
  Some (verdict resonant nBig realFactorsBig).

End Analysis.
End MatrixAnalysis.

(** The text under [Primality Status] in [ReportSummary]. *)
Inductive PrimalityStatus : Type :=
  | PASSED_PRIME
  | UNRESOLVED_COMPOSITE
  | STATUS_UNIT
  | FAILED_COMPOSITE.

Definition primalityStatus (report : MatrixAnalysisReport) : PrimalityStatus :=
  let isPrime :=
    match classification report with PRIME => true | _ => false end in
  let isUnstable :=
    match classification report with
    | NON_PRIME_UNSTABLE => true
    | _ => false
    end in
  if isPrime then PASSED_PRIME
  else if isUnstable then UNRESOLVED_COMPOSITE
  else match classification report with
       | UNIT => STATUS_UNIT
       | _ => FAILED_COMPOSITE
       end.

(** What [ReportSummary] shows under [Prime Factors Decomposed]: the
    factors, the notice [Analysis inconclusive. Number is composite but
    factors are large/hidden.], or [None]. *)
Inductive FactorDisplay : Type :=
  | ShowFactors (shown : list Z)
  | Inconclusive
  | ShowNone.

Definition factorDisplay (report : MatrixAnalysisReport) : FactorDisplay :=
  let isUnstable :=
    match classification report with
    | NON_PRIME_UNSTABLE => true
    | _ => false
    end in
  if negb (Nat.eqb (length (factors report)) 0) && negb isUnstable
  then ShowFactors (factors report)
  else if isUnstable then Inconclusive
  else ShowNone.

(** The agreement of the factors with the oracle as the specification
    states it.  The array that [factorizeAsync] returns carries no mark;
    the one mark that the program has for an unresolved number is the
    classification [NON_PRIME_UNSTABLE] of the report.  So: every factor
    of a report that is not marked in this way passes the oracle. *)
Definition agreement_unless_flagged {Arrival : Type} (isPrime : Z -> bool)
    (analyzeNumber : bool -> nat -> Z -> list (list Arrival) ->
                     option MatrixAnalysisReport)
    (n : Z) : Prop :=
  forall resonant rounds report,
    returns (fun fuel => analyzeNumber resonant fuel n rounds) report ->
    classification report <> NON_PRIME_UNSTABLE ->
    Forall (fun factor => isPrime factor = true) (factors report).

(** What a report says about the number [n] it is for: the factors
    multiply to [n]; [UNIT] is for 1 alone; a [PRIME] report lists [n]
    alone; a status or a notice that calls the number composite is right;
    and there is always something to show. *)
Definition verdict_sound (n : Z) (report : MatrixAnalysisReport) : Prop :=
  product (factors report) = n /\
  (classification report = UNIT <-> n = 1) /\
  (classification report = PRIME -> factors report = [n]) /\
  (primalityStatus report = FAILED_COMPOSITE \/
   primalityStatus report = UNRESOLVED_COMPOSITE -> composite n) /\
  (factorDisplay report = Inconclusive ->
   composite n /\ factors report = [n]) /\
  factorDisplay report <> ShowNone.

(** ** The input form ([validateInput])

    A string is the list of its UTF-16 code units.  [\d] matches the code
    units of [0] to [9], and [BigInt] reads a string of decimal digits as
    the number it writes, leading zeros included. *)
Definition is_digit (u : Z) : bool := (48 <=? u) && (u <=? 57).

(** [val.match(/^\d+$/)] finds a match. *)
Definition all_digits (val : list Z) : bool :=
  match val with
  | [] => false
  | _ => forallb is_digit val
  end.

(** [BigInt(val)] on a string of decimal digits. *)
Definition BigInt (val : list Z) : Z :=
  fold_left (fun n u => 10 * n + (u - 48)) val 0.

Definition validateInput (val : list Z) : bool :=
  if negb (all_digits val) then false
  else
    let n := BigInt val in
    n >=? 1.

(** ** The residual of the sieve

    A further invariant of the deep loop, for the number [R] that the
    sieve leaves: every cofactor in the queue divides [R], and every
    factor is a member of the basis or divides [R]. *)
Definition residual_inv {Arrival : Type} (smallBasis : list Z) (R : Z)
    (st : list Z * list Z * list (list Arrival)) : Prop :=
  let '(factors, queue, _) := st in
  Forall (fun q => (q | R)) queue /\
  Forall (fun factor => In factor smallBasis \/ (factor | R)) factors.

(** A factor that the sieve cannot have left behind: a member of the
    basis, or a number that no member of the basis divides. *)
Definition sieved_clean (smallBasis : list Z) (factor : Z) : Prop :=
  In factor smallBasis \/ Forall (fun p => ~ (p | factor)) smallBasis.

(** ** Trial division

    Every number from 2 up to, and without, [bound] has a divisor in
    [basis] that is larger than 1. *)
Definition covers (basis : list Z) (bound : Z) : bool :=
  forallb
    (fun a =>
       existsb (fun p => (1 <? p) && (Z.rem (Z.of_nat a) p =? 0)) basis)
    (seq 2 (Z.to_nat bound - 2)).

(** * Lemmas *)

(** ** Sample runs *)

Example factorize_small_raw :
  map (fun n => RawBrent.factorizeAsync sample_A1 8 100 n [])
    [0; 1; 2; 17; 91; 100]
  = [Some []; Some [1]; Some [2]; Some [17]; Some [7; 13];
     Some [2; 2; 5; 5]].
Proof. vm_compute. reflexivity. Qed.

Example factorize_small_matrix :
  map (fun n => MatrixBrent.factorizeAsync sample_A1 8 100 n [])
    [0; 1; 2; 17; 91; 100]
  = [Some []; Some [1]; Some [2]; Some [17]; Some [7; 13];
     Some [2; 2; 5; 5]].
Proof. vm_compute. reflexivity. Qed.

(** [899 = 29 * 31] survives the sieve of the revision with
    [solveRawBrent]; lane 0 splits it when its message arrives, and it is
    returned whole when the timer fires first. *)
Example factorize_899_split :
  RawBrent.factorizeAsync sample_A1 8 100 899 [[RawBrent.mkArrival 0 100]]
  = Some [29; 31].
Proof. vm_compute. reflexivity. Qed.

Example factorize_899_timeout :
  RawBrent.factorizeAsync sample_A1 8 100 899 [[]] = Some [899] /\
  RawBrent.factorizeGhost sample_A1 8 100 899 [[]]
  = Some [(899, Architect.Unresolved 0)].
Proof. split; vm_compute; reflexivity. Qed.

(** [1763 = 41 * 43] survives the sieve of the other revision as well. *)
Example factorize_1763_split :
  MatrixBrent.factorizeAsync sample_A1 8 100 1763
    [[MatrixBrent.mkArrival 4 17 100; MatrixBrent.mkArrival 0 5 100]]
  = Some [41; 43].
Proof. vm_compute. reflexivity. Qed.

Example gcd_runs :
  gcd 20 48 180 = Some 12 /\ gcd 20 0 7 = Some 7 /\ gcd 20 35 64 = Some 1.
Proof. repeat split; vm_compute; reflexivity. Qed.

Example isPrime_runs :
  map RawBrent.isPrime [0; 1; 2; 3; 4; 9; 561; 7919; 104729]
  = [false; false; true; true; false; false; false; true; true].
Proof. vm_compute. reflexivity. Qed.

(** ** Loops *)

Lemma bind_some {A B : Type} (m : option A) (k : A -> option B) (r : B) :
  bind m k = Some r -> exists a, m = Some a /\ k a = Some r.
Proof.
  destruct m as [a|]; simpl; intros H; [exists a; auto | discriminate].
Qed.

Ltac bind_inv H :=
  let a := fresh "a" in
  let Ha := fresh "Hrun" in
  apply bind_some in H; destruct H as [a [Ha H]].

Section WhileFacts.

Context {S : Type}.
Variable cond : S -> bool.

(** A run that finishes within a budget finishes with the same result
    within any larger budget, also when the body itself is run with a
    larger budget. *)
Lemma while_mono (body1 body2 : S -> option S) :
  (forall s r, body1 s = Some r -> body2 s = Some r) ->
  forall f1 f2 s r, (f1 <= f2)%nat ->
    while f1 cond body1 s = Some r -> while f2 cond body2 s = Some r.
Proof.
  intros Hbody f1.
  induction f1 as [|f1 IH]; intros f2 s r Hle; simpl.
  - destruct f2; simpl; destruct (cond s); intros H; congruence.
  - destruct f2 as [|f2]; [lia|]. simpl.
    destruct (cond s); [|auto].
    destruct (body1 s) as [s'|] eqn:Hb; [|discriminate].
    rewrite (Hbody _ _ Hb). apply IH. lia.
Qed.

(** The invariant rule. *)
Lemma while_inv (Inv : S -> Prop) (body : S -> option S) :
  (forall s s', Inv s -> cond s = true -> body s = Some s' -> Inv s') ->
  forall fuel s r, Inv s -> while fuel cond body s = Some r ->
    Inv r /\ cond r = false.
Proof.
  intros Hbody fuel.
  induction fuel as [|fuel IH]; intros s r Hs; simpl.
  - destruct (cond s) eqn:Hc; intros H; inversion H; subst; auto.
  - destruct (cond s) eqn:Hc.
    + destruct (body s) as [s'|] eqn:Hb; [|discriminate].
      apply IH. eapply Hbody; eauto.
    + intros H; inversion H; subst; auto.
Qed.

(** The variant rule: a loop whose body finishes and decreases a measure
    finishes within any budget that covers the measure. *)
Lemma while_total (Inv : S -> Prop) (measure : S -> nat)
    (body : S -> option S) :
  (forall s, Inv s -> cond s = true ->
     exists s', body s = Some s' /\ Inv s' /\ (measure s' < measure s)%nat) ->
  forall fuel s, Inv s -> (measure s <= fuel)%nat ->
    exists r, while fuel cond body s = Some r /\ Inv r /\ cond r = false.
Proof.
  intros Hbody fuel.
  induction fuel as [|fuel IH]; intros s Hs Hm; simpl.
  - destruct (cond s) eqn:Hc.
    + destruct (Hbody s Hs Hc) as [s' [_ [_ Hlt]]]. lia.
    + exists s; auto.
  - destruct (cond s) eqn:Hc.
    + destruct (Hbody s Hs Hc) as [s' [Hb [Hs' Hlt]]].
      rewrite Hb. apply IH; [assumption | lia].
    + exists s; auto.
Qed.

End WhileFacts.

Lemma for_count_inv {S : Type} (Inv : S -> Prop) (step : S -> S) :
  (forall s, Inv s -> Inv (step s)) ->
  forall n s, Inv s -> Inv (for_count n step s).
Proof.
  intros Hstep n s Hs. unfold for_count.
  destruct n; simpl; auto.
  apply Pos.iter_invariant; auto.
Qed.

(** ** The binary gcd of the worker *)

Lemma land_1 a : Z.land a 1 = a mod 2.
Proof. change 1 with (Z.ones 1). rewrite Z.land_ones by lia. reflexivity. Qed.

Lemma lor_land_1 a b :
  Z.land (Z.lor a b) 1 = 0 <-> a mod 2 = 0 /\ b mod 2 = 0.
Proof.
  rewrite Z.land_lor_distr_l, !land_1.
  pose proof (Z.mod_pos_bound a 2 ltac:(lia)).
  pose proof (Z.mod_pos_bound b 2 ltac:(lia)).
  assert (Ha : a mod 2 = 0 \/ a mod 2 = 1) by lia.
  assert (Hb : b mod 2 = 0 \/ b mod 2 = 1) by lia.
  destruct Ha as [-> | ->], Hb as [-> | ->]; simpl; split; intros; lia.
Qed.

Lemma shiftr_1 a : Z.shiftr a 1 = a / 2.
Proof. rewrite Z.shiftr_div_pow2 by lia. reflexivity. Qed.

Lemma gcd_odd_double a b : a mod 2 = 1 -> Z.gcd a (2 * b) = Z.gcd a b.
Proof.
  intros Ha. apply Z.gcd_unique.
  - apply Z.gcd_nonneg.
  - apply Z.gcd_divide_l.
  - apply Z.divide_mul_r, Z.gcd_divide_r.
  - intros q Hqa Hqb. apply Z.gcd_greatest; [assumption|].
    apply Z.gauss with (m := 2); [assumption|].
    pose proof (Z.gcd_divide_r q 2) as H2.
    pose proof (Z.gcd_nonneg q 2) as Hn.
    apply Z.divide_pos_le in H2 as Hle; [|lia].
    assert (Hcases : Z.gcd q 2 = 0 \/ Z.gcd q 2 = 1 \/ Z.gcd q 2 = 2) by lia.
    destruct Hcases as [H0 | [H1 | H22]]; [| assumption |].
    + apply Z.gcd_eq_0 in H0. lia.
    + exfalso.
      assert (Hd : (2 | a)).
      { apply Z.divide_trans with q; [|assumption].
        rewrite <- H22. apply Z.gcd_divide_l. }
      apply Z.mod_divide in Hd; lia.
Qed.

Lemma gcd_halve_r a b :
  a mod 2 = 1 -> b mod 2 = 0 -> Z.gcd a (b / 2) = Z.gcd a b.
Proof.
  intros Ha Hb. rewrite <- (gcd_odd_double a (b / 2)) by assumption.
  f_equal. pose proof (Z.div_mod b 2 ltac:(lia)). lia.
Qed.

Lemma gcd_halve_both a b :
  a mod 2 = 0 -> b mod 2 = 0 -> Z.gcd a b = 2 * Z.gcd (a / 2) (b / 2).
Proof.
  intros Ha Hb. rewrite <- Z.gcd_mul_mono_l_nonneg by lia.
  f_equal.
  - pose proof (Z.div_mod a 2 ltac:(lia)). lia.
  - pose proof (Z.div_mod b 2 ltac:(lia)). lia.
Qed.

(** The loop [while ((v & 1n) === 0n) v >>= 1n] on a positive [v] keeps
    the gcd with an odd number and ends on an odd number. *)
Lemma strip_twos_spec fuel (o v r : Z) :
  o mod 2 = 1 -> 0 < v ->
  while fuel (fun b => Z.land b 1 =? 0) (fun b => Some (Z.shiftr b 1)) v
    = Some r ->
  0 < r /\ r mod 2 = 1 /\ Z.gcd o r = Z.gcd o v.
Proof.
  intros Ho Hv Hrun.
  apply (while_inv _ (fun b => 0 < b /\ Z.gcd o b = Z.gcd o v)) in Hrun.
  - destruct Hrun as [[Hr Hg] Hc]. rewrite land_1 in Hc.
    apply Z.eqb_neq in Hc.
    pose proof (Z.mod_pos_bound r 2 ltac:(lia)). repeat split; auto; lia.
  - intros s s' [Hs Hg] Hc Hb. inversion Hb; subst; clear Hb.
    rewrite land_1 in Hc. apply Z.eqb_eq in Hc. rewrite shiftr_1.
    split.
    + pose proof (Z.div_mod s 2 ltac:(lia)). lia.
    + rewrite gcd_halve_r; auto.
  - split; [assumption | reflexivity].
Qed.

Lemma gcd_correct fuel a b g :
  0 <= a -> 0 <= b -> gcd fuel a b = Some g -> g = Z.gcd a b.
Proof.
  intros Ha Hb. unfold gcd.
  destruct (Z.eqb_spec a 0) as [-> | Ha0].
  { intros H; inversion H; subst. rewrite Z.gcd_0_l, Z.abs_eq; auto. }
  destruct (Z.eqb_spec b 0) as [-> | Hb0].
  { intros H; inversion H; subst. rewrite Z.gcd_0_r, Z.abs_eq; auto. }
  intros H.
  bind_inv H. destruct a0 as [[a1 b1] shift].
  apply (while_inv _ (fun '(x, y, k) =>
           0 < x /\ 0 < y /\ 0 <= k /\ Z.gcd a b = 2 ^ k * Z.gcd x y)) in Hrun.
  2:{ intros [[x y] k] s' (Hx & Hy & Hk & Hg) Hc Hs.
      inversion Hs; subst; clear Hs.
      apply Z.eqb_eq, lor_land_1 in Hc. destruct Hc as [Hx2 Hy2].
      rewrite !shiftr_1.
      pose proof (Z.div_mod x 2 ltac:(lia)).
      pose proof (Z.div_mod y 2 ltac:(lia)).
      repeat split; try lia.
      rewrite Hg, (gcd_halve_both x y) by assumption.
      rewrite Z.pow_add_r by lia. change (2 ^ 1) with 2. ring. }
  2:{ repeat split; lia. }
  destruct Hrun as [(Ha1 & Hb1 & Hk & Hg) Hc].
  apply Z.eqb_neq in Hc. rewrite lor_land_1 in Hc.
  bind_inv H. rename a0 into a2.
  apply (while_inv _ (fun x =>
           0 < x /\ Z.gcd x b1 = Z.gcd a1 b1 /\
           (x mod 2 = 1 \/ b1 mod 2 = 1))) in Hrun.
  2:{ intros x s' (Hx & Hgx & Hodd) Hcx Hs. inversion Hs; subst; clear Hs.
      rewrite land_1 in Hcx. apply Z.eqb_eq in Hcx. rewrite shiftr_1.
      assert (Hb2 : b1 mod 2 = 1) by lia.
      split; [pose proof (Z.div_mod x 2 ltac:(lia)); lia |].
      split; [| auto].
      rewrite <- Hgx, (Z.gcd_comm (x / 2)), (Z.gcd_comm x).
      apply gcd_halve_r; assumption. }
  2:{ repeat split; [assumption|].
      pose proof (Z.mod_pos_bound b1 2 ltac:(lia)).
      pose proof (Z.mod_pos_bound a1 2 ltac:(lia)). lia. }
  destruct Hrun as [(Ha2 & Hg2 & _) Hc2].
  rewrite land_1 in Hc2. apply Z.eqb_neq in Hc2.
  assert (Ha2odd : a2 mod 2 = 1)
    by (pose proof (Z.mod_pos_bound a2 2 ltac:(lia)); lia).
  bind_inv H. destruct a0 as [a3 b3]. inversion H; subst g; clear H.
  apply (while_inv _ (fun '(x, y) =>
           0 < x /\ x mod 2 = 1 /\ 0 <= y /\
           Z.gcd x y = Z.gcd a2 b1)) in Hrun.
  2:{ intros [x y] s' (Hx & Hxo & Hy & Hgxy) Hcy Hs.
      apply negb_true_iff, Z.eqb_neq in Hcy.
      bind_inv Hs. rename a0 into y'.
      apply (strip_twos_spec _ x) in Hrun0; [|assumption|lia].
      destruct Hrun0 as (Hy' & Hy'o & Hgy').
      destruct (Z.gtb_spec x y') as [Hgt | Hle];
        inversion Hs; subst; clear Hs.
      - repeat split; try lia.
        rewrite Z.gcd_sub_diag_r, Z.gcd_comm. congruence.
      - repeat split; try lia.
        rewrite Z.gcd_sub_diag_r. congruence. }
  2:{ repeat split; auto; lia. }
  destruct Hrun as [(Ha3 & _ & _ & Hg3) Hc3].
  apply negb_false_iff, Z.eqb_eq in Hc3. subst b3.
  rewrite Z.gcd_0_r, Z.abs_eq in Hg3 by lia.
  rewrite Z.shiftl_mul_pow2 by lia. rewrite Hg, <- Hg2, <- Hg3. ring.
Qed.

(** The binary gcd finishes on non-negative arguments, within a budget
    that covers their sum. *)
Lemma strip_twos_total fuel v :
  0 < v -> (Z.to_nat v <= fuel)%nat ->
  exists r,
    while fuel (fun b => Z.land b 1 =? 0) (fun b => Some (Z.shiftr b 1)) v
      = Some r /\ 0 < r <= v.
Proof.
  intros Hv Hfuel.
  destruct (while_total (fun b => Z.land b 1 =? 0)
              (fun x => 0 < x <= v) (fun x => Z.to_nat x)
              (fun b => Some (Z.shiftr b 1)))
    with (fuel := fuel) (s := v) as [r (Hrun & Hr & _)].
  - intros x Hx Hc. rewrite land_1 in Hc. apply Z.eqb_eq in Hc.
    exists (Z.shiftr x 1). rewrite shiftr_1.
    pose proof (Z.div_mod x 2 ltac:(lia)).
    split; [reflexivity|]. split; lia.
  - lia.
  - exact Hfuel.
  - exists r. auto.
Qed.

Lemma gcd_total fuel a b :
  0 <= a -> 0 <= b -> (Z.to_nat (a + b) <= fuel)%nat ->
  gcd fuel a b = Some (Z.gcd a b).
Proof.
  intros Ha Hb Hfuel.
  assert (Hex : exists g, gcd fuel a b = Some g).
  { unfold gcd.
    destruct (Z.eqb_spec a 0) as [-> | Ha0]; [eauto|].
    destruct (Z.eqb_spec b 0) as [-> | Hb0]; [eauto|].
    match goal with
    | |- context [while fuel ?c ?bd (a, b, 0)] =>
        destruct (while_total c
                    (fun '(x, y, _) => 0 < x <= a /\ 0 < y <= b)
                    (fun '(x, _, _) => Z.to_nat x) bd)
          with (fuel := fuel) (s := (a, b, 0))
          as [[[a1 b1] shift] (Hrun1 & (Ha1 & Hb1) & _)]
    end.
    - intros [[x y] k] [Hx Hy] Hc.
      apply Z.eqb_eq, lor_land_1 in Hc. destruct Hc as [Hx2 Hy2].
      eexists. split; [reflexivity|]. rewrite !shiftr_1.
      pose proof (Z.div_mod x 2 ltac:(lia)).
      pose proof (Z.div_mod y 2 ltac:(lia)).
      split; [split|]; lia.
    - lia.
    - lia.
    - rewrite Hrun1. cbn [bind].
      destruct (strip_twos_total fuel a1 ltac:(lia) ltac:(lia))
        as [a2 [Hrun2 Ha2]].
      rewrite Hrun2. cbn [bind].
      match goal with
      | |- context [while fuel ?c ?bd (a2, b1)] =>
          destruct (while_total c
                      (fun '(x, y) => 0 < x /\ 0 <= y /\ x + y <= a + b)
                      (fun '(x, y) => Z.to_nat (x + y)) bd)
            with (fuel := fuel) (s := (a2, b1))
            as [[a3 b3] (Hrun3 & _ & _)]
      end.
      + intros [x y] (Hx & Hy & Hsum) Hc.
        apply negb_true_iff, Z.eqb_neq in Hc.
        destruct (strip_twos_total fuel y ltac:(lia) ltac:(lia))
          as [y' [Hruny Hy']].
        rewrite Hruny. cbn [bind].
        destruct (Z.gtb_spec x y');
          (eexists; split; [reflexivity|]); split; lia.
      + lia.
      + lia.
      + rewrite Hrun3. cbn [bind]. eauto. }
  destruct Hex as [g Hg]. rewrite Hg. f_equal.
  eapply gcd_correct; eauto.
Qed.

(** ** What a lane can post *)

Lemma gcd_divides fuel a n g :
  0 <= a -> 0 < n -> gcd fuel a n = Some g -> (g | n).
Proof.
  intros Ha Hn H. apply gcd_correct in H; [|lia|lia].
  subst g. apply Z.gcd_divide_r.
Qed.

Lemma batch_step_nonneg c n x yq :
  n <> 0 -> 0 <= snd yq -> 0 <= snd (batch_step c n x yq).
Proof.
  intros Hn Hq. destruct yq as [y q]. unfold batch_step. simpl in *.
  apply Z.rem_nonneg; [assumption|].
  destruct (Z.gtb_spec x (f c n y)); apply Z.mul_nonneg_nonneg; lia.
Qed.

Lemma batch_steps_nonneg c n x count yq :
  n <> 0 -> 0 <= snd yq ->
  0 <= snd (for_count count (batch_step c n x) yq).
Proof.
  intros Hn Hq.
  apply (for_count_inv (fun yq => 0 <= snd yq)); [|assumption].
  intros s Hs. apply batch_step_nonneg; assumption.
Qed.

Lemma backtrack_divides fuel c n xs st ys g :
  0 < n -> backtrack fuel c n xs st = Some (ys, g) -> (g | n).
Proof.
  intros Hn H. unfold backtrack, do_while in H.
  assert (Hbody : forall s s',
    backtrack_step fuel c n xs s = Some s' -> (snd s' | n)).
  { intros [ys0 g0] s' Hs. unfold backtrack_step in Hs.
    bind_inv Hs. inversion Hs; subst; simpl.
    apply gcd_divides in Hrun; [assumption | | assumption].
    destruct (Z.gtb_spec xs (f c n ys0)); lia. }
  bind_inv H.
  apply (while_inv _ (fun s => (snd s | n))) in H.
  - destruct H as [H _]. exact H.
  - intros s s' _ _ Hs. apply Hbody with s. exact Hs.
  - apply Hbody with st. exact Hrun.
Qed.

Lemma RawKernel_batch_divides fuel c n k b k' b' :
  0 < n -> RawKernel.batch fuel c n (k, b) = Some (k', b') -> (v_g b' | n).
Proof.
  intros Hn H. unfold RawKernel.batch in H.
  match type of H with
  | context [for_count ?cnt2 ?st (for_count ?cnt1 ?st4 ?init)] =>
      assert (Hq : 0 <= snd (for_count cnt2 st (for_count cnt1 st4 init)))
  end.
  { apply batch_steps_nonneg; [lia|].
    apply (for_count_inv (fun yq => 0 <= snd yq)); [|simpl; lia].
    intros s Hs. repeat apply batch_step_nonneg; try lia. }
  destruct (for_count _ _ (for_count _ _ _)) as [y q]. simpl in Hq.
  bind_inv H. inversion H; subst; simpl.
  eapply gcd_divides; eauto.
Qed.

Lemma RawKernel_round_divides fuel c n b b' :
  0 < n -> (v_g b | n) -> RawKernel.round fuel c n b = Some b' ->
  (v_g b' | n).
Proof.
  intros Hn Hg H. unfold RawKernel.round in H.
  bind_inv H. destruct a as [k1 b1]. inversion H; subst; simpl.
  apply (while_inv _ (fun '(_, b) => (v_g b | n))) in Hrun.
  - destruct Hrun as [Hr _]. exact Hr.
  - intros [k0 b0] [k2 b2] _ _ Hs.
    eapply RawKernel_batch_divides; eauto.
  - simpl. exact Hg.
Qed.

Lemma solveRawBrent_divides fuel n c y g :
  0 < n -> RawKernel.solveRawBrent fuel n c y = Some g -> (g | n).
Proof.
  intros Hn H. unfold RawKernel.solveRawBrent in H.
  bind_inv H. rename a into b.
  apply (while_inv _ (fun b => (v_g b | n))) in Hrun.
  - destruct Hrun as [Hb _].
    destruct (v_g b =? n).
    + bind_inv H. destruct a as [ys g']. inversion H; subst.
      eapply backtrack_divides; eauto.
    + inversion H; subst. exact Hb.
  - intros s s' Hs _ Hr. eapply RawKernel_round_divides; eauto.
  - simpl. apply Z.divide_1_l.
Qed.

(** A posted factor is a proper divisor of [n], for whatever parameters
    the lane was started with and however long it ran. *)
Lemma RawKernel_onmessage_sound fuel n startC seedVal g :
  RawKernel.onmessage fuel n startC seedVal = Some (Some g) ->
  1 < g < n /\ (g | n).
Proof.
  unfold RawKernel.onmessage. intros H.
  destruct (n =? 0); [discriminate|].
  bind_inv H. rename a into g1. bind_inv H. rename a into g2.
  destruct (Z.gtb_spec g2 1) as [Hgt|]; simpl in H; [|discriminate].
  destruct (Z.ltb_spec g2 n) as [Hlt|]; simpl in H; [|discriminate].
  inversion H; subst g2; clear H.
  split; [lia|].
  destruct ((g1 =? 1) || (g1 =? n)).
  - eapply solveRawBrent_divides; [|eassumption]. lia.
  - inversion Hrun0; subst. eapply solveRawBrent_divides; [|eassumption]. lia.
Qed.

Lemma MatrixKernel_batch_inv fuel c n k b k' b' :
  0 < n -> 0 <= v_q b ->
  MatrixKernel.batch fuel c n (k, b) = Some (k', b') ->
  0 <= v_q b' /\ (v_g b' | n).
Proof.
  intros Hn Hq0 H. unfold MatrixKernel.batch in H.
  match type of H with
  | context [for_count ?cnt ?st ?init] =>
      assert (Hq : 0 <= snd (for_count cnt st init))
        by (apply batch_steps_nonneg; [lia | exact Hq0])
  end.
  destruct (for_count _ _ _) as [y q]. simpl in Hq.
  bind_inv H. inversion H; subst; simpl.
  split; [assumption|]. eapply gcd_divides; eauto.
Qed.

Lemma MatrixKernel_round_inv fuel c n b b' :
  0 < n -> 0 <= v_q b -> (v_g b | n) ->
  MatrixKernel.round fuel c n b = Some b' ->
  0 <= v_q b' /\ (v_g b' | n).
Proof.
  intros Hn Hq Hg H. unfold MatrixKernel.round in H.
  bind_inv H. destruct a as [k1 b1]. inversion H; subst; simpl.
  apply (while_inv _ (fun '(_, b) => 0 <= v_q b /\ (v_g b | n))) in Hrun.
  - destruct Hrun as [Hr _]. exact Hr.
  - intros [k0 b0] [k2 b2] [Hq0 _] _ Hs.
    eapply MatrixKernel_batch_inv; eauto.
  - simpl. auto.
Qed.

Lemma attempt_divides fuel n c y g :
  0 < n -> MatrixKernel.attempt fuel n c y = Some g -> (g | n).
Proof.
  intros Hn H. unfold MatrixKernel.attempt in H.
  bind_inv H. rename a into b.
  apply (while_inv _ (fun b => 0 <= v_q b /\ (v_g b | n))) in Hrun.
  - destruct Hrun as [[_ Hb] _].
    destruct (v_g b =? n).
    + bind_inv H. destruct a as [ys g']. inversion H; subst.
      eapply backtrack_divides; eauto.
    + inversion H; subst. exact Hb.
  - intros s s' [Hq Hs] _ Hr. eapply MatrixKernel_round_inv; eauto.
  - simpl. split; [lia | apply Z.divide_1_l].
Qed.

Lemma column_sound fuel n columnData seedVal i g :
  MatrixKernel.column fuel n columnData seedVal i = Some (Some g) ->
  1 < g < n /\ (g | n).
Proof.
  revert i. induction columnData as [|c rest IH]; intros i H; simpl in H.
  - discriminate.
  - bind_inv H. rename a into g1.
    destruct (Z.gtb_spec g1 1) as [Hgt|]; simpl in H; [|eauto].
    destruct (Z.ltb_spec g1 n) as [Hlt|]; simpl in H; [|eauto].
    inversion H; subst g1; clear H.
    split; [lia|]. eapply attempt_divides; [|eassumption]. lia.
Qed.

Lemma MatrixKernel_onmessage_sound fuel n columnData seedVal g :
  MatrixKernel.onmessage fuel n columnData seedVal = Some (Some g) ->
  1 < g < n /\ (g | n).
Proof.
  unfold MatrixKernel.onmessage. intros H.
  destruct (n =? 0); [discriminate|].
  eapply column_sound; eassumption.
Qed.

(** ** A lane's outcome does not depend on the time it is given *)

Lemma bind_mono {A B : Type} (m1 m2 : option A) (k1 k2 : A -> option B) r :
  (forall a, m1 = Some a -> m2 = Some a) ->
  (forall a r, k1 a = Some r -> k2 a = Some r) ->
  bind m1 k1 = Some r -> bind m2 k2 = Some r.
Proof.
  intros Hm Hk H. bind_inv H. rewrite (Hm _ Hrun). simpl. auto.
Qed.

Section FuelMonotone.

Variables f1 f2 : nat.
Hypothesis Hle : (f1 <= f2)%nat.

Lemma gcd_mono a b g : gcd f1 a b = Some g -> gcd f2 a b = Some g.
Proof.
  unfold gcd. destruct (a =? 0); [auto|]. destruct (b =? 0); [auto|].
  apply bind_mono; [intros s; apply while_mono; auto|].
  intros [[a1 b1] shift] r1.
  apply bind_mono; [intros s; apply while_mono; auto|].
  intros a2 r2.
  apply bind_mono; [|auto].
  intros s. apply while_mono; [|assumption].
  intros [a3 b3] r3.
  apply bind_mono; [intros s'; apply while_mono; auto | auto].
Qed.

Lemma backtrack_mono c n xs st r :
  backtrack f1 c n xs st = Some r -> backtrack f2 c n xs st = Some r.
Proof.
  assert (Hstep : forall s s', backtrack_step f1 c n xs s = Some s' ->
                               backtrack_step f2 c n xs s = Some s').
  { intros [ys g] s'. unfold backtrack_step.
    apply bind_mono; [intros g'; apply gcd_mono | auto]. }
  unfold backtrack, do_while.
  apply bind_mono; [intros s; apply Hstep|].
  intros s r'. apply while_mono; assumption.
Qed.

Lemma RawKernel_batch_mono c n st r :
  RawKernel.batch f1 c n st = Some r -> RawKernel.batch f2 c n st = Some r.
Proof.
  destruct st as [k b]. unfold RawKernel.batch.
  destruct (for_count _ _ (for_count _ _ _)) as [y q].
  apply bind_mono; [intros g; apply gcd_mono | auto].
Qed.

Lemma RawKernel_round_mono c n b r :
  RawKernel.round f1 c n b = Some r -> RawKernel.round f2 c n b = Some r.
Proof.
  unfold RawKernel.round.
  apply bind_mono; [|auto].
  intros s. apply while_mono; [|assumption].
  intros s0 r0. apply RawKernel_batch_mono.
Qed.

Lemma solveRawBrent_mono n c y g :
  RawKernel.solveRawBrent f1 n c y = Some g ->
  RawKernel.solveRawBrent f2 n c y = Some g.
Proof.
  unfold RawKernel.solveRawBrent.
  apply bind_mono.
  - intros s. apply while_mono; [|assumption].
    intros s0 r0. apply RawKernel_round_mono.
  - intros b r. destruct (v_g b =? n); [|auto].
    apply bind_mono; [intros s; apply backtrack_mono | auto].
Qed.

Lemma RawKernel_onmessage_mono n startC seedVal msg :
  RawKernel.onmessage f1 n startC seedVal = Some msg ->
  RawKernel.onmessage f2 n startC seedVal = Some msg.
Proof.
  unfold RawKernel.onmessage. destruct (n =? 0); [auto|].
  apply bind_mono; [intros g; apply solveRawBrent_mono|].
  intros g r. apply bind_mono; [|auto].
  intros g'. destruct ((g =? 1) || (g =? n)); [apply solveRawBrent_mono | auto].
Qed.

Lemma MatrixKernel_batch_mono c n st r :
  MatrixKernel.batch f1 c n st = Some r ->
  MatrixKernel.batch f2 c n st = Some r.
Proof.
  destruct st as [k b]. unfold MatrixKernel.batch.
  destruct (for_count _ _ _) as [y q].
  apply bind_mono; [intros g; apply gcd_mono | auto].
Qed.

Lemma MatrixKernel_round_mono c n b r :
  MatrixKernel.round f1 c n b = Some r ->
  MatrixKernel.round f2 c n b = Some r.
Proof.
  unfold MatrixKernel.round.
  apply bind_mono; [|auto].
  intros s. apply while_mono; [|assumption].
  intros s0 r0. apply MatrixKernel_batch_mono.
Qed.

Lemma attempt_mono n c y g :
  MatrixKernel.attempt f1 n c y = Some g ->
  MatrixKernel.attempt f2 n c y = Some g.
Proof.
  unfold MatrixKernel.attempt.
  apply bind_mono.
  - intros s. apply while_mono; [|assumption].
    intros s0 r0. apply MatrixKernel_round_mono.
  - intros b r. destruct (v_g b =? n); [|auto].
    apply bind_mono; [intros s; apply backtrack_mono | auto].
Qed.

Lemma column_mono n columnData seedVal i msg :
  MatrixKernel.column f1 n columnData seedVal i = Some msg ->
  MatrixKernel.column f2 n columnData seedVal i = Some msg.
Proof.
  revert i msg.
  induction columnData as [|c rest IH]; intros i msg; simpl; [auto|].
  apply bind_mono; [intros g; apply attempt_mono|].
  intros g r. destruct ((g >? 1) && (g <? n)); auto.
Qed.

Lemma MatrixKernel_onmessage_mono n columnData seedVal msg :
  MatrixKernel.onmessage f1 n columnData seedVal = Some msg ->
  MatrixKernel.onmessage f2 n columnData seedVal = Some msg.
Proof.
  unfold MatrixKernel.onmessage. destruct (n =? 0); [auto|].
  apply column_mono.
Qed.

End FuelMonotone.

Lemma returns_from {A : Type} (run : nat -> option A) (fuel0 : nat) (out : A) :
  (forall f1 f2 r, (f1 <= f2)%nat -> run f1 = Some r -> run f2 = Some r) ->
  run fuel0 = Some out -> returns run out.
Proof.
  intros Hmono Hrun. exists fuel0. intros fuel Hle.
  apply (Hmono fuel0 fuel out Hle Hrun).
Qed.

Lemma returns_unique {A : Type} (run : nat -> option A) (out1 out2 : A) :
  returns run out1 -> returns run out2 -> out1 = out2.
Proof.
  intros [a Ha] [b Hb].
  specialize (Ha (Nat.max a b) ltac:(lia)).
  specialize (Hb (Nat.max a b) ltac:(lia)). congruence.
Qed.

Lemma returns_map {A B : Type} (run : nat -> option A) (k : A -> B) (out : A) :
  returns run out ->
  returns (fun fuel => x <- run fuel ;; Some (k x)) (k out).
Proof.
  intros [fuel0 Hrun]. exists fuel0. intros fuel Hle.
  rewrite (Hrun fuel Hle). reflexivity.
Qed.

(** One factor of one unmarked report that the oracle rejects refutes the
    agreement as the specification states it. *)
Lemma agreement_refuted {Arrival : Type} (isPrime : Z -> bool)
    (analyzeNumber : bool -> nat -> Z -> list (list Arrival) ->
                     option MatrixAnalysisReport)
    (n : Z) (resonant : bool) (rounds : list (list Arrival))
    (report : MatrixAnalysisReport) (factor : Z) :
  returns (fun fuel => analyzeNumber resonant fuel n rounds) report ->
  classification report <> NON_PRIME_UNSTABLE ->
  In factor (factors report) -> isPrime factor = false ->
  ~ agreement_unless_flagged isPrime analyzeNumber n.
Proof.
  intros Hret Hflag Hin Hrej Hagree.
  specialize (Hagree resonant rounds report Hret Hflag).
  rewrite Forall_forall in Hagree. specialize (Hagree factor Hin).
  congruence.
Qed.

(** ** Every lane finishes *)

Lemma for_count_iter {S : Type} (n : Z) (step : S -> S) (s : S) :
  for_count n step s = Nat.iter (Z.to_nat n) step s.
Proof.
  unfold for_count. destruct n as [|p|p]; simpl; try reflexivity.
  apply Pos2Nat.inj_iter.
Qed.

Lemma iter_unrolled {St : Type} (k : nat) (step : St -> St) (s : St) :
  Nat.iter k (fun s => step (step (step (step s)))) s
  = Nat.iter (4 * k) step s.
Proof.
  induction k as [|k IH]; [reflexivity|].
  replace (4 * S k)%nat with (S (S (S (S (4 * k)))))%nat by lia.
  rewrite !Nat.iter_succ, IH. reflexivity.
Qed.

(** The unrolled loop and the loop for the remaining iterations make
    [limit] iterations together. *)
Lemma unrolled_count {S : Type} (limit : Z) (step : S -> S) (s : S) :
  0 <= limit ->
  for_count (limit - (limit - Z.land limit 3)) step
    (for_count ((limit - Z.land limit 3) / 4)
       (fun s => step (step (step (step s)))) s)
  = Nat.iter (Z.to_nat limit) step s.
Proof.
  intros Hlimit.
  assert (Hland : Z.land limit 3 = limit mod 4).
  { change 3 with (Z.ones 2). rewrite Z.land_ones by lia. reflexivity. }
  rewrite Hland, !for_count_iter, iter_unrolled, <- Nat.iter_add.
  f_equal.
  pose proof (Z.div_mod limit 4 ltac:(lia)).
  pose proof (Z.mod_pos_bound limit 4 ltac:(lia)).
  assert (Hdiv : (limit - limit mod 4) / 4 = limit / 4).
  { replace (limit - limit mod 4) with (limit / 4 * 4) by lia.
    apply Z.div_mul. lia. }
  rewrite Hdiv.
  assert (0 <= limit / 4) by (apply Z.div_pos; lia).
  lia.
Qed.

Lemma gcd_mul_coprime a b n :
  Z.gcd a n = 1 -> Z.gcd b n = 1 -> Z.gcd (a * b) n = 1.
Proof.
  intros Ha Hb.
  pose proof (Z.gcd_nonneg (a * b) n) as Hnonneg.
  pose proof (Z.gcd_divide_l (a * b) n) as Hab.
  pose proof (Z.gcd_divide_r (a * b) n) as Hn.
  set (g := Z.gcd (a * b) n) in *.
  assert (Hga : Z.gcd g a = 1).
  { pose proof (Z.gcd_nonneg g a).
    assert (Hd : (Z.gcd g a | 1)).
    { rewrite <- Ha. apply Z.gcd_greatest; [apply Z.gcd_divide_r|].
      apply Z.divide_trans with g; [apply Z.gcd_divide_l | exact Hn]. }
    apply Z.divide_1_r_nonneg in Hd; lia. }
  assert (Hgb : (g | b)) by (apply Z.gauss with a; assumption).
  assert (Hd : (g | 1)).
  { rewrite <- Hb. apply Z.gcd_greatest; assumption. }
  apply Z.divide_1_r_nonneg in Hd; lia.
Qed.

Lemma f_bound c n v : 0 < n -> Z.abs (f c n v) < n.
Proof.
  intros Hn. unfold f.
  pose proof (Z.rem_bound_abs (v * v + c) n ltac:(lia)). lia.
Qed.

Lemma abs_diff_nonneg x y : 0 <= (if x >? y then x - y else y - x).
Proof. destruct (Z.gtb_spec x y); lia. Qed.

(** The values a batch leaves in [y] and [q]. *)
Lemma batch_steps_bounds c n x M L y q :
  0 < n -> n <= M -> Z.abs y <= M -> 0 <= q <= n ->
  let yq := Nat.iter L (batch_step c n x) (y, q) in
  Z.abs (fst yq) <= M /\ 0 <= snd yq <= n.
Proof.
  intros Hn HM Hy Hq. cbn zeta.
  apply (Nat.iter_invariant L _ (batch_step c n x)
           (fun yq => Z.abs (fst yq) <= M /\ 0 <= snd yq <= n));
    [|cbn [fst snd]; auto].
  intros [y' q'] [Hy' Hq']. unfold batch_step. cbn [fst snd] in *.
  pose proof (f_bound c n y' Hn).
  pose proof (abs_diff_nonneg x (f c n y')).
  pose proof (Z.rem_bound_pos
                (q' * (if x >? f c n y' then x - f c n y' else f c n y' - x))
                n ltac:(nia) Hn).
  split; lia.
Qed.

Lemma iter_f_bound c n M L y :
  0 < n -> n <= M -> Z.abs y <= M -> Z.abs (Nat.iter L (f c n) y) <= M.
Proof.
  intros Hn HM Hy.
  apply (Nat.iter_invariant L _ (f c n) (fun y => Z.abs y <= M));
    [|assumption].
  intros y' _. pose proof (f_bound c n y' Hn). lia.
Qed.

(** Backtracking finds a factor: when the product accumulated over [L]
    steps from [(ys, q0)] is a multiple of [n] although [q0] is coprime to
    [n], one of the differences met on the way has a common factor with
    [n], and the loop stops there. *)
Lemma backtrack_total c n xs fuel :
  1 < n -> (Z.to_nat (Z.abs xs + 2 * n) <= fuel)%nat ->
  forall L ys q0 g0 budget,
    (L <= S budget)%nat ->
    0 <= q0 -> Z.gcd q0 n = 1 ->
    (n | snd (Nat.iter L (batch_step c n xs) (ys, q0))) ->
    exists r,
      (s1 <- backtrack_step fuel c n xs (ys, g0) ;;
       while budget (fun s => negb (let '(_, g) := s in g >? 1))
         (backtrack_step fuel c n xs) s1) = Some r.
Proof.
  intros Hn Hfuel L.
  induction L as [|L IH]; intros ys q0 g0 budget HL Hq0 Hco Hdiv.
  - cbn [Nat.iter nat_rect snd] in Hdiv.
    assert (Hd : (n | 1)).
    { rewrite <- Hco. apply Z.gcd_greatest; [assumption | apply Z.divide_refl]. }
    apply Z.divide_1_r_nonneg in Hd; lia.
  - rewrite Nat.iter_succ_r in Hdiv.
    unfold batch_step at 2 in Hdiv.
    unfold backtrack_step at 1.
    set (y1 := f c n ys) in *.
    set (diff := if xs >? y1 then xs - y1 else y1 - xs) in *.
    assert (Hdiff : 0 <= diff) by apply abs_diff_nonneg.
    assert (Hy1 : Z.abs y1 < n) by (apply f_bound; lia).
    assert (Hdiffle : diff <= Z.abs xs + n).
    { unfold diff. destruct (Z.gtb_spec xs y1); lia. }
    rewrite gcd_total by lia. cbn [bind].
    destruct (Z.gtb_spec (Z.gcd diff n) 1) as [Hfound | Hnot].
    + exists (y1, Z.gcd diff n).
      destruct budget; cbn [while];
        destruct (Z.gtb_spec (Z.gcd diff n) 1); try lia; reflexivity.
    + assert (Hg1 : Z.gcd diff n = 1).
      { pose proof (Z.gcd_nonneg diff n).
        destruct (Z.eq_dec (Z.gcd diff n) 0) as [H0 |]; [|lia].
        apply Z.gcd_eq_0 in H0. lia. }
      assert (Hco1 : Z.gcd (Z.rem (q0 * diff) n) n = 1).
      { rewrite Z.rem_mod_nonneg by nia.
        rewrite Z.gcd_mod_l. apply gcd_mul_coprime; assumption. }
      assert (Hq1 : 0 <= Z.rem (q0 * diff) n)
        by (apply Z.rem_nonneg; nia).
      destruct budget as [|budget].
      * assert (L = 0%nat) by lia. subst L.
        destruct (IH y1 (Z.rem (q0 * diff) n) 0 0%nat) as [r _]; auto.
        exfalso.
        cbn [Nat.iter nat_rect snd] in Hdiv.
        assert (Hd : (n | 1)).
        { rewrite <- Hco1.
          apply Z.gcd_greatest; [assumption | apply Z.divide_refl]. }
        apply Z.divide_1_r_nonneg in Hd; lia.
      * cbn [while]. rewrite Hg1. cbn [Z.gtb Z.compare negb].
        apply (IH y1 (Z.rem (q0 * diff) n) 1 budget); auto. lia.
Qed.

(** *** The search of [RawKernel] *)

Section RawKernelFinishes.

Variables c n M : Z.
Variable fuel : nat.
Hypothesis Hn : 1 < n.
Hypothesis HM : n <= M.
Hypothesis Hfuel : (Z.to_nat (RawKernel.STEPS_LIMIT + 3 * M) <= fuel)%nat.

Lemma RawKernel_batch_total r0 x0 steps0 st :
  RawKernel.batch_inv c n M r0 x0 steps0 st -> fst st < r0 ->
  exists st', RawKernel.batch fuel c n st = Some st' /\
    RawKernel.batch_inv c n M r0 x0 steps0 st' /\
    (Z.to_nat (r0 - fst st') < Z.to_nat (r0 - fst st))%nat.
Proof.
  destruct st as [k b]. cbn [fst].
  intros (Hk & Hr & Hx & Hsteps & (Hbx & Hby & Hbxs & Hbys) & _) Hlt.
  unfold RawKernel.batch. cbn zeta.
  set (limit := if v_r b - k <? RawKernel.m then v_r b - k else RawKernel.m).
  assert (Hlimit : 1 <= limit <= RawKernel.m /\ limit <= r0 - k).
  { unfold limit, RawKernel.m.
    destruct (Z.ltb_spec (v_r b - k) 1000); lia. }
  rewrite unrolled_count by lia.
  pose proof (batch_steps_bounds c n (v_x b) M (Z.to_nat limit) (v_y b) 1
                ltac:(lia) HM Hby ltac:(lia)) as Hbounds.
  cbn zeta in Hbounds.
  remember (Nat.iter (Z.to_nat limit) (batch_step c n (v_x b)) (v_y b, 1))
    as yq eqn:Hyq.
  destruct yq as [y q]. cbn [fst snd] in Hbounds.
  unfold RawKernel.STEPS_LIMIT in Hfuel.
  rewrite gcd_total by lia. cbn [bind].
  eexists. split; [reflexivity|]. split.
  - unfold RawKernel.batch_inv, bounded, RawKernel.certified.
    cbn [v_x v_y v_g v_r v_q v_xs v_ys v_steps].
    repeat split; try lia.
    right. exists (Z.to_nat limit). split.
    + unfold RawKernel.m in *. lia.
    + rewrite <- Hyq. reflexivity.
  - cbn [fst]. lia.
Qed.

Lemma RawKernel_round_total b :
  RawKernel.search_inv c n M b ->
  (v_g b =? 1) && (v_steps b <? RawKernel.STEPS_LIMIT) = true ->
  exists b', RawKernel.round fuel c n b = Some b' /\
    RawKernel.search_inv c n M b' /\
    (Z.to_nat (RawKernel.STEPS_LIMIT - v_steps b')
     < Z.to_nat (RawKernel.STEPS_LIMIT - v_steps b))%nat.
Proof.
  intros (Hr & Hsteps & (Hbx & Hby & Hbxs & Hbys) & Hcert) Hcond.
  apply andb_true_iff in Hcond. destruct Hcond as [Hg Hlimit].
  apply Z.eqb_eq in Hg. apply Z.ltb_lt in Hlimit.
  unfold RawKernel.round. cbn zeta.
  set (y' := for_count (Z.land (v_r b) 3) (f c n)
               (for_count ((v_r b - Z.land (v_r b) 3) / 4)
                  (fun y => f c n (f c n (f c n (f c n y)))) (v_y b))).
  assert (Hy' : Z.abs y' <= M).
  { unfold y'.
    replace (for_count (Z.land (v_r b) 3) (f c n))
      with (for_count (v_r b - (v_r b - Z.land (v_r b) 3)) (f c n))
      by (f_equal; lia).
    rewrite unrolled_count by lia. apply iter_f_bound; lia. }
  match goal with
  | |- context [while fuel ?cd ?bd ?s0] =>
      destruct (while_total cd
                  (RawKernel.batch_inv c n M (v_r b) (v_y b)
                     (v_steps b + v_r b))
                  (fun st => Z.to_nat (v_r b - fst st)) bd)
        with (fuel := fuel) (s := s0)
        as [[k1 b1] (Hrun & Hinv & _)]
  end.
  - intros [k0 b0] Hinv Hc.
    apply andb_true_iff in Hc. destruct Hc as [Hk0 _].
    apply Z.ltb_lt in Hk0.
    assert (Hr0 : v_r b0 = v_r b) by apply Hinv.
    rewrite Hr0 in Hk0.
    apply RawKernel_batch_total; [exact Hinv | exact Hk0].
  - unfold RawKernel.batch_inv, bounded.
    cbn [v_x v_y v_g v_r v_q v_xs v_ys v_steps].
    repeat split; try lia. exact Hcert.
  - cbn [fst]. unfold RawKernel.STEPS_LIMIT in *. lia.
  - rewrite Hrun. cbn [bind].
    destruct Hinv as (Hk1 & Hr1 & Hx1 & Hs1 & (Hb1x & Hb1y & Hb1xs & Hb1ys)
                      & Hcert1).
    eexists. split; [reflexivity|]. split.
    + unfold RawKernel.search_inv, bounded, RawKernel.certified in *.
      cbn [v_x v_y v_g v_r v_q v_xs v_ys v_steps].
      rewrite Z.shiftl_mul_pow2 by lia. change (2 ^ 1) with 2.
      repeat split; try lia. exact Hcert1.
    + cbn [v_steps]. lia.
Qed.

Lemma solveRawBrent_total startY :
  Z.abs startY <= M ->
  exists g, RawKernel.solveRawBrent fuel n c startY = Some g.
Proof.
  intros Hy. unfold RawKernel.solveRawBrent. cbn zeta.
  match goal with
  | |- context [while fuel ?cd ?bd ?s0] =>
      destruct (while_total cd (RawKernel.search_inv c n M)
                  (fun b => Z.to_nat (RawKernel.STEPS_LIMIT - v_steps b)) bd)
        with (fuel := fuel) (s := s0)
        as [b (Hrun & Hinv & _)]
  end.
  - intros b Hinv Hc. apply RawKernel_round_total; assumption.
  - unfold RawKernel.search_inv, bounded, RawKernel.certified.
    cbn [v_x v_y v_g v_r v_q v_xs v_ys v_steps].
    repeat split; lia.
  - cbn [v_steps]. lia.
  - rewrite Hrun. cbn [bind].
    destruct (Z.eqb_spec (v_g b) n) as [Hgn | Hne]; [|eauto].
    destruct Hinv as (_ & _ & (_ & _ & Hbxs & _) & [Hg1 | (L & HL & HgL)]);
      [lia|].
    assert (Hdiv : (n | snd (Nat.iter L (batch_step c n (v_xs b))
                               (v_ys b, 1)))).
    { rewrite <- Hgn at 1. rewrite HgL. apply Z.gcd_divide_l. }
    unfold RawKernel.STEPS_LIMIT, RawKernel.m in *.
    destruct (backtrack_total c n (v_xs b) fuel Hn ltac:(lia)
                L (v_ys b) 1 (v_g b) fuel ltac:(lia) ltac:(lia)
                (Z.gcd_1_l n) Hdiv) as [[ys g] Hback].
    unfold backtrack, do_while. cbn beta.
    change (fun s : Z * Z => negb (let '(_, g0) := s in g0 >? 1))
      with (fun s : Z * Z => negb ((fun '(_, g0) => g0 >? 1) s)) in Hback.
    rewrite Hback. cbn [bind]. eauto.
Qed.

End RawKernelFinishes.

(** The message handler of [RawKernel] posts a message for every target
    above 1, whatever the parameters. *)
Lemma RawKernel_onmessage_total n startC seedVal :
  1 < n ->
  exists message,
    returns (fun fuel => RawKernel.onmessage fuel n startC seedVal) message.
Proof.
  intros Hn.
  set (M := Z.max (Z.abs seedVal) n).
  set (fuel := Z.to_nat (RawKernel.STEPS_LIMIT + 3 * M)).
  assert (Hex : exists message,
            RawKernel.onmessage fuel n startC seedVal = Some message).
  { unfold RawKernel.onmessage.
    destruct (Z.eqb_spec n 0); [lia|].
    destruct (solveRawBrent_total startC n M fuel Hn ltac:(lia)
                (Nat.le_refl _) seedVal ltac:(lia)) as [g1 Hg1].
    rewrite Hg1. cbn [bind].
    destruct ((g1 =? 1) || (g1 =? n)).
    - destruct (solveRawBrent_total (startC + 3) n M fuel Hn ltac:(lia)
                  (Nat.le_refl _) seedVal ltac:(lia)) as [g2 Hg2].
      rewrite Hg2. cbn [bind]. eauto.
    - cbn [bind]. eauto. }
  destruct Hex as [message Hmsg]. exists message.
  apply returns_from with fuel; [|exact Hmsg].
  intros f1 f2 r Hle. apply RawKernel_onmessage_mono. exact Hle.
Qed.

(** *** The search of [MatrixKernel] *)

Section MatrixKernelFinishes.

Variables c n M : Z.
Variable fuel : nat.
Hypothesis Hn : 1 < n.
Hypothesis HM : n <= M.
Hypothesis Hfuel : (Z.to_nat (MatrixKernel.stepLimit + 3 * M) <= fuel)%nat.

Lemma MatrixKernel_batch_total r0 x0 steps0 st :
  MatrixKernel.batch_inv c n M r0 x0 steps0 st ->
  fst st < r0 -> v_g (snd st) = 1 ->
  exists st', MatrixKernel.batch fuel c n st = Some st' /\
    MatrixKernel.batch_inv c n M r0 x0 steps0 st' /\
    (Z.to_nat (r0 - fst st') < Z.to_nat (r0 - fst st))%nat.
Proof.
  destruct st as [k b]. cbn [fst snd].
  intros (Hk & Hr & Hx & Hsteps & _ & (Hbx & Hby & Hbxs & Hbys)
          & (Hq & Hgq & _)) Hlt Hg1.
  unfold MatrixKernel.batch. cbn zeta.
  set (limit := if v_r b - k <? MatrixKernel.m then v_r b - k
                else MatrixKernel.m).
  assert (Hlimit : 1 <= limit <= MatrixKernel.m /\ limit <= r0 - k).
  { unfold limit, MatrixKernel.m.
    destruct (Z.ltb_spec (v_r b - k) 128); lia. }
  rewrite for_count_iter.
  pose proof (batch_steps_bounds c n (v_x b) M (Z.to_nat limit) (v_y b)
                (v_q b) ltac:(lia) HM Hby Hq) as Hbounds.
  cbn zeta in Hbounds.
  remember (Nat.iter (Z.to_nat limit) (batch_step c n (v_x b))
              (v_y b, v_q b)) as yq eqn:Hyq.
  destruct yq as [y q]. cbn [fst snd] in Hbounds.
  unfold MatrixKernel.stepLimit in Hfuel.
  rewrite gcd_total by lia. cbn [bind].
  eexists. split; [reflexivity|]. split.
  - unfold MatrixKernel.batch_inv, bounded, MatrixKernel.certified.
    cbn [v_x v_y v_g v_r v_q v_xs v_ys v_steps].
    repeat split; try lia.
    intros _. exists (Z.to_nat limit), (v_q b).
    split; [unfold MatrixKernel.m in *; lia|].
    split; [lia|]. split; [congruence|].
    rewrite <- Hyq. reflexivity.
  - cbn [fst]. lia.
Qed.

Lemma MatrixKernel_round_total b :
  MatrixKernel.search_inv c n M b ->
  (v_g b =? 1) && (v_steps b <? MatrixKernel.stepLimit) = true ->
  exists b', MatrixKernel.round fuel c n b = Some b' /\
    MatrixKernel.search_inv c n M b' /\
    (Z.to_nat (MatrixKernel.stepLimit - v_steps b')
     < Z.to_nat (MatrixKernel.stepLimit - v_steps b))%nat.
Proof.
  intros (Hr & Hsteps0 & Hsteps & (Hbx & Hby & Hbxs & Hbys)
          & (Hq & Hgq & _)) Hcond.
  apply andb_true_iff in Hcond. destruct Hcond as [Hg Hlimit].
  apply Z.eqb_eq in Hg. apply Z.ltb_lt in Hlimit.
  specialize (Hsteps Hg).
  unfold MatrixKernel.round. cbn zeta.
  set (y' := for_count (v_r b) (f c n) (v_y b)).
  assert (Hy' : Z.abs y' <= M).
  { unfold y'. rewrite for_count_iter. apply iter_f_bound; lia. }
  match goal with
  | |- context [while fuel ?cd ?bd ?s0] =>
      destruct (while_total cd
                  (MatrixKernel.batch_inv c n M (v_r b) (v_y b) (v_steps b))
                  (fun st => Z.to_nat (v_r b - fst st)) bd)
        with (fuel := fuel) (s := s0)
        as [[k1 b1] (Hrun & Hinv & Hexit)]
  end.
  - intros [k0 b0] Hinv Hc.
    apply andb_true_iff in Hc. destruct Hc as [Hk0 Hg0].
    apply Z.ltb_lt in Hk0. apply Z.eqb_eq in Hg0.
    assert (Hr0 : v_r b0 = v_r b) by apply Hinv.
    rewrite Hr0 in Hk0.
    apply MatrixKernel_batch_total; [exact Hinv | exact Hk0 | exact Hg0].
  - unfold MatrixKernel.batch_inv, bounded, MatrixKernel.certified.
    cbn [v_x v_y v_g v_r v_q v_xs v_ys v_steps].
    repeat split; lia.
  - cbn [fst]. unfold MatrixKernel.stepLimit in *. lia.
  - rewrite Hrun. cbn [bind].
    destruct Hinv as (Hk1 & Hr1 & Hx1 & Hs1 & Hk0g
                      & (Hb1x & Hb1y & Hb1xs & Hb1ys) & Hcert1).
    assert (Hk1pos : 1 <= k1 /\ (v_g b1 = 1 -> k1 = v_r b)).
    { rewrite Hr1 in Hexit.
      destruct (Z.ltb_spec k1 (v_r b)) as [Hlt | Hge];
        destruct (Z.eqb_spec (v_g b1) 1) as [Hg1 | Hg1];
        cbn [andb] in Hexit; try discriminate; split; lia. }
    eexists. split; [reflexivity|]. split.
    + unfold MatrixKernel.search_inv, bounded.
      cbn [v_x v_y v_g v_r v_q v_xs v_ys v_steps].
      split; [lia|]. split; [lia|].
      split; [intros Hg1; destruct Hk1pos as [_ Hk]; specialize (Hk Hg1); lia|].
      split; [repeat split; assumption|].
      exact Hcert1.
    + cbn [v_steps]. lia.
Qed.

Lemma attempt_total y :
  Z.abs y <= M ->
  exists g, MatrixKernel.attempt fuel n c y = Some g.
Proof.
  intros Hy. unfold MatrixKernel.attempt.
  match goal with
  | |- context [while fuel ?cd ?bd ?s0] =>
      destruct (while_total cd (MatrixKernel.search_inv c n M)
                  (fun b => Z.to_nat (MatrixKernel.stepLimit - v_steps b)) bd)
        with (fuel := fuel) (s := s0)
        as [b (Hrun & Hinv & _)]
  end.
  - intros b Hinv Hc. apply MatrixKernel_round_total; assumption.
  - unfold MatrixKernel.search_inv, bounded, MatrixKernel.certified.
    cbn [v_x v_y v_g v_r v_q v_xs v_ys v_steps].
    repeat split; try lia.
    symmetry. apply Z.gcd_1_l.
  - cbn [v_steps]. lia.
  - rewrite Hrun. cbn [bind].
    destruct (Z.eqb_spec (v_g b) n) as [Hgn | Hne]; [|eauto].
    destruct Hinv as (_ & _ & _ & (Hbx & _) & (_ & Hgq & Hcert)).
    destruct (Hcert ltac:(lia)) as (L & q0 & HL & Hq0 & Hco & HqL).
    assert (Hdiv : (n | snd (Nat.iter L (batch_step c n (v_x b))
                               (v_ys b, q0)))).
    { rewrite <- HqL. rewrite <- Hgn at 1. rewrite Hgq.
      apply Z.gcd_divide_l. }
    unfold MatrixKernel.stepLimit, MatrixKernel.m in *.
    destruct (backtrack_total c n (v_x b) fuel Hn ltac:(lia)
                L (v_ys b) q0 (v_g b) fuel ltac:(lia) Hq0 Hco Hdiv)
      as [[ys g] Hback].
    unfold backtrack, do_while. cbn beta.
    change (fun s : Z * Z => negb (let '(_, g0) := s in g0 >? 1))
      with (fun s : Z * Z => negb ((fun '(_, g0) => g0 >? 1) s)) in Hback.
    rewrite Hback. cbn [bind]. eauto.
Qed.

End MatrixKernelFinishes.

Lemma column_total n columnData : forall seedVal i,
  1 < n ->
  exists fuel message,
    MatrixKernel.column fuel n columnData seedVal i = Some message.
Proof.
  induction columnData as [|c rest IH]; intros seedVal i Hn.
  - exists 0%nat, None. reflexivity.
  - set (M := Z.max (Z.abs (seedVal + i)) n).
    set (fuel1 := Z.to_nat (MatrixKernel.stepLimit + 3 * M)).
    destruct (attempt_total c n M fuel1 Hn ltac:(lia) (Nat.le_refl _)
                (seedVal + i) ltac:(lia)) as [g Hg].
    destruct (IH seedVal (i + 1) Hn) as (fuel2 & message & Hrest).
    exists (Nat.max fuel1 fuel2).
    cbn [MatrixKernel.column].
    rewrite (attempt_mono fuel1 (Nat.max fuel1 fuel2) ltac:(lia) _ _ _ _ Hg).
    cbn [bind].
    destruct ((g >? 1) && (g <? n)); [eauto|].
    exists message.
    apply (column_mono fuel2 (Nat.max fuel1 fuel2) ltac:(lia)). exact Hrest.
Qed.

(** The message handler of [MatrixKernel] posts a message for every
    target above 1, whatever the column and the seed. *)
Lemma MatrixKernel_onmessage_total n columnData seedVal :
  1 < n ->
  exists message,
    returns (fun fuel => MatrixKernel.onmessage fuel n columnData seedVal)
      message.
Proof.
  intros Hn.
  destruct (column_total n columnData seedVal 0 Hn) as (fuel & message & Hcol).
  exists message. apply returns_from with fuel.
  - intros f1 f2 r Hle. apply MatrixKernel_onmessage_mono. exact Hle.
  - unfold MatrixKernel.onmessage. destruct (Z.eqb_spec n 0); [lia|].
    exact Hcol.
Qed.

(** ** The primality oracle *)

Lemma power_loop_spec e : forall res base modulus,
  0 < modulus -> 0 <= res -> 0 <= base ->
  power_loop res base e modulus = (res * base ^ Zpos e) mod modulus.
Proof.
  induction e as [e IH | e IH |]; intros res base m Hm Hres Hbase;
    cbn [power_loop].
  - rewrite IH by (first [assumption | apply Z.rem_nonneg; nia]).
    rewrite !Z.rem_mod_nonneg by nia.
    rewrite Z.mul_mod_idemp_l by lia.
    rewrite <- Z.mul_mod_idemp_r by lia.
    rewrite Z.mod_pow_l, Z.mul_mod_idemp_r by lia.
    f_equal. rewrite Pos2Z.inj_xI, Z.pow_add_r, Z.pow_1_r by lia.
    rewrite Z.pow_mul_r, Z.pow_2_r by lia. ring.
  - rewrite IH by (first [assumption | apply Z.rem_nonneg; nia]).
    rewrite !Z.rem_mod_nonneg by nia.
    rewrite <- Z.mul_mod_idemp_r by lia.
    rewrite Z.mod_pow_l, Z.mul_mod_idemp_r by lia.
    f_equal. rewrite Pos2Z.inj_xO.
    rewrite Z.pow_mul_r, Z.pow_2_r by lia. ring.
  - rewrite Z.rem_mod_nonneg by nia. rewrite Z.pow_1_r. reflexivity.
Qed.

Lemma power_spec base exp modulus :
  1 < modulus -> 0 <= base -> 0 <= exp ->
  power base exp modulus = base ^ exp mod modulus.
Proof.
  intros Hm Hb He. unfold power. destruct exp as [|e|e]; [| |lia].
  - rewrite Z.pow_0_r, Z.mod_1_l by lia. reflexivity.
  - rewrite power_loop_spec; try lia; [|apply Z.rem_nonneg; lia].
    rewrite Z.rem_mod_nonneg by lia.
    rewrite Z.mul_1_l, Z.mod_pow_l. reflexivity.
Qed.

Lemma decompose_spec p : forall s0,
  0 <= s0 ->
  let '(d, s) := decompose p s0 in
  s0 <= s /\ Z.odd d = true /\ Zpos p * 2 ^ s0 = d * 2 ^ s.
Proof.
  induction p as [p IH | p IH |]; intros s0 Hs0; cbn [decompose].
  - split; [lia|]. split; reflexivity.
  - specialize (IH (s0 + 1) ltac:(lia)).
    destruct (decompose p (s0 + 1)) as [d s].
    destruct IH as (Hle & Hodd & Heq).
    split; [lia|]. split; [assumption|].
    rewrite <- Heq, Z.pow_add_r, Z.pow_1_r by lia.
    rewrite Pos2Z.inj_xO. ring.
  - split; [lia|]. split; reflexivity.
Qed.

Lemma odd_pow2_unique d s d' s' :
  0 <= s -> 0 <= s' -> Z.odd d = true -> Z.odd d' = true ->
  d * 2 ^ s = d' * 2 ^ s' -> d = d' /\ s = s'.
Proof.
  assert (Hlt : forall d s d' s', 0 <= s -> s < s' ->
            Z.odd d = true -> d * 2 ^ s = d' * 2 ^ s' -> False).
  { clear. intros d s d' s' Hs Hlt Hodd Heq.
    replace s' with ((s' - s - 1) + 1 + s) in Heq by lia.
    rewrite !Z.pow_add_r, Z.pow_1_r in Heq by lia.
    assert (Hp : 0 < 2 ^ s) by (apply Z.pow_pos_nonneg; lia).
    assert (Hd : d = 2 * (d' * 2 ^ (s' - s - 1))) by nia.
    rewrite Hd, Z.odd_even in Hodd. discriminate. }
  intros Hs Hs' Hodd Hodd' Heq.
  destruct (Z.lt_trichotomy s s') as [H | [H | H]].
  - exfalso. exact (Hlt d s d' s' Hs H Hodd Heq).
  - subst s'. split; [|reflexivity].
    assert (Hp : 0 < 2 ^ s) by (apply Z.pow_pos_nonneg; lia). nia.
  - exfalso. exact (Hlt d' s' d s Hs' H Hodd' (eq_sym Heq)).
Qed.

(** [squarings] finds [n - 1] exactly when one of the first [count]
    iterated squares of [x] is [n - 1] modulo [n]. *)
Lemma squarings_spec count : forall x n,
  1 < n -> 0 <= x ->
  (squarings count x n = false <->
   exists r, 1 <= r <= Z.of_nat count /\ x ^ (2 ^ r) mod n = n - 1).
Proof.
  induction count as [|count IH]; intros x n Hn Hx.
  - simpl. split; [discriminate | intros [r [Hr _]]; lia].
  - cbn [squarings]. rewrite power_spec by lia.
    assert (Hx2 : 0 <= x ^ 2 mod n) by (apply Z.mod_pos_bound; lia).
    destruct (Z.eqb_spec (x ^ 2 mod n) (n - 1)) as [Heq | Hne].
    + split; [intros _ | reflexivity].
      exists 1. split; [lia|]. exact Heq.
    + rewrite (IH _ n Hn Hx2). split.
      * intros [r [Hr Hpow]]. exists (r + 1). split; [lia|].
        rewrite Z.mod_pow_l in Hpow.
        rewrite <- Z.pow_mul_r in Hpow by (try lia; apply Z.pow_nonneg; lia).
        rewrite Z.pow_add_r, Z.pow_1_r, Z.mul_comm by lia. exact Hpow.
      * intros [r [Hr Hpow]].
        destruct (Z.eq_dec r 1) as [-> | Hr1]; [contradiction|].
        exists (r - 1). split; [lia|].
        rewrite Z.mod_pow_l.
        rewrite <- Z.pow_mul_r by (try lia; apply Z.pow_nonneg; lia).
        replace (2 * 2 ^ (r - 1)) with (2 ^ r); [exact Hpow|].
        replace r with ((r - 1) + 1) at 1 by lia.
        rewrite Z.pow_add_r, Z.pow_1_r by lia. ring.
Qed.

Lemma witness_passes_spec n d s a :
  1 < n -> 0 <= a -> 0 <= d ->
  let x := power a d n in
  ((x =? 1) || (x =? n - 1) || negb (squarings (Z.to_nat (s - 1)) x n) = true
   <-> OracleSpec.passes n d s a).
Proof.
  intros Hn Ha Hd x. subst x. rewrite power_spec by lia.
  assert (Hx : 0 <= a ^ d mod n) by (apply Z.mod_pos_bound; lia).
  assert (Hpow : forall r, 0 <= r ->
            (a ^ d mod n) ^ (2 ^ r) mod n = a ^ (d * 2 ^ r) mod n).
  { intros r Hr. rewrite Z.mod_pow_l, Z.pow_mul_r;
      [reflexivity | lia | apply Z.pow_nonneg; lia]. }
  unfold OracleSpec.passes.
  rewrite !orb_true_iff, negb_true_iff, !Z.eqb_eq.
  rewrite (squarings_spec _ _ n Hn Hx).
  split.
  - intros [[H | H] | [r [Hr H]]]; [auto | auto |].
    right; right. exists r. split; [lia|]. rewrite <- Hpow by lia. exact H.
  - intros [H | [H | [r [Hr H]]]]; [auto | auto |].
    right. exists r. split; [lia|]. rewrite Hpow by lia. exact H.
Qed.

Lemma witnesses_spec bases : forall n d s,
  1 < n -> 0 <= d -> Forall (fun a => 0 <= a) bases ->
  (witnesses bases n d s = true <-> OracleSpec.accepts n d s bases).
Proof.
  induction bases as [|a rest IH]; intros n d s Hn Hd Hpos.
  - simpl. split; [intros _; constructor | reflexivity].
  - inversion Hpos as [|? ? Ha Hrest]; subst.
    specialize (IH n d s Hn Hd Hrest).
    pose proof (witness_passes_spec n d s a Hn Ha Hd) as Hp.
    cbn zeta in Hp. cbn [witnesses].
    destruct (Z.leb_spec n a) as [Hle | Hlt].
    { split; [intros _; apply OracleSpec.accepts_stop; assumption
             | reflexivity]. }
    destruct ((power a d n =? 1) || (power a d n =? n - 1)) eqn:Hfirst.
    + simpl in Hp. rewrite IH. split.
      * intros Hacc. apply OracleSpec.accepts_next; auto. apply Hp; reflexivity.
      * intros Hacc. inversion Hacc; subst; [lia | assumption].
    + simpl in Hp.
      destruct (squarings (Z.to_nat (s - 1)) (power a d n) n) eqn:Hsq.
      * simpl in Hp. split; [discriminate|].
        intros Hacc. inversion Hacc as [| | ? ? ? Hpass ?]; subst; [lia|].
        apply Hp in Hpass. discriminate.
      * rewrite IH. split.
        -- intros Hacc. apply OracleSpec.accepts_next; auto.
           apply Hp; reflexivity.
        -- intros Hacc. inversion Hacc; subst; [lia | assumption].
Qed.

Lemma isPrimeWith_spec bases n :
  Forall (fun a => 0 <= a) bases ->
  (isPrimeWith bases n = true <-> OracleSpec.isPrime bases n).
Proof.
  intros Hpos. unfold isPrimeWith, OracleSpec.isPrime.
  destruct (Z.ltb_spec n 2) as [Hlt | Hge].
  { split; [discriminate | intros [H | [H | [H _]]]; lia]. }
  destruct (Z.eqb_spec n 2) as [-> | Hn2]; [simpl; tauto|].
  destruct (Z.eqb_spec n 3) as [-> | Hn3]; [simpl; tauto|].
  cbn [orb].
  destruct (Z.eqb_spec (Z.rem n 2) 0) as [Heven | Hodd].
  { split; [discriminate|].
    intros [H | [H | (_ & Ho & _)]]; [lia | lia |].
    rewrite Z.rem_mod_nonneg in Heven by lia.
    rewrite Zodd_mod, Heven in Ho. discriminate. }
  assert (Ho : Z.odd n = true).
  { rewrite Z.rem_mod_nonneg in Hodd by lia. rewrite Zodd_mod.
    pose proof (Z.mod_pos_bound n 2 ltac:(lia)). apply Z.eqb_eq. lia. }
  destruct (n - 1) as [|p|p] eqn:Hp; [lia | | lia].
  pose proof (decompose_spec p 0 ltac:(lia)) as Hdec.
  destruct (decompose p 0) as [d s].
  destruct Hdec as (Hs & Hd & Heq).
  rewrite Z.pow_0_r, Z.mul_1_r in Heq.
  assert (H2s : 0 < 2 ^ s) by (apply Z.pow_pos_nonneg; lia).
  assert (Hdpos : 0 <= d) by nia.
  rewrite witnesses_spec by (try assumption; lia).
  split.
  - intros Hacc. right; right. split; [lia|]. split; [assumption|].
    exists d, s. repeat split; assumption.
  - intros [H | [H | (_ & _ & d' & s' & Hs' & Heq' & Hd' & Hacc)]];
      [lia | lia |].
    destruct (odd_pow2_unique d s d' s') as [-> ->]; try assumption.
    congruence.
Qed.

Lemma oracle_contract_holds bases :
  Forall prime bases ->
  firstn 12 bases = [2; 3; 5; 7; 11; 13; 17; 19; 23; 29; 31; 37] ->
  oracle_contract bases.
Proof.
  intros Hprimes Hfirst.
  assert (Hpos : Forall (fun a => 0 <= a) bases).
  { eapply Forall_impl; [|exact Hprimes].
    intros a [Ha _]. lia. }
  split; [assumption|]. split; [assumption|].
  intros n. repeat split.
  - intros Hlt. unfold isPrimeWith.
    destruct (Z.ltb_spec n 2); [reflexivity | lia].
  - intros [-> | ->]; reflexivity.
  - intros Hgt Heven. unfold isPrimeWith.
    destruct (Z.ltb_spec n 2); [reflexivity|].
    destruct (Z.eqb_spec n 2); [lia|].
    destruct (Z.eqb_spec n 3); [lia|]. cbn [orb].
    rewrite Z.rem_mod_nonneg by lia.
    rewrite Zmod_odd, <- Z.negb_even, Heven. reflexivity.
  - apply isPrimeWith_spec; assumption.
  - apply isPrimeWith_spec; assumption.
Qed.

(** ** Arrays, products and sorting *)

Lemma product_app l1 l2 : product (l1 ++ l2) = product l1 * product l2.
Proof.
  induction l1 as [|a l1 IH]; simpl.
  - destruct (product l2); reflexivity.
  - unfold product in *. simpl. rewrite IH. ring.
Qed.

Lemma product_push l x : product (push l x) = product l * x.
Proof. unfold push. rewrite product_app. simpl. ring. Qed.

Lemma pop_push {A : Type} (l : list A) (x : A) : pop (push l x) = Some (x, l).
Proof.
  unfold pop, push. rewrite rev_app_distr. simpl. rewrite rev_involutive.
  reflexivity.
Qed.

Lemma pop_some {A : Type} (l r : list A) (x : A) :
  pop l = Some (x, r) -> l = push r x.
Proof.
  unfold pop, push. intros H.
  destruct (rev l) as [|y t] eqn:Hrev; [discriminate|].
  inversion H; subst. rewrite <- (rev_involutive l), Hrev. reflexivity.
Qed.

Lemma pop_nonempty {A : Type} (l : list A) :
  l <> [] -> exists x r, pop l = Some (x, r).
Proof.
  intros Hl. unfold pop. destruct (rev l) as [|y t] eqn:Hrev.
  - exfalso. apply Hl. rewrite <- (rev_involutive l), Hrev. reflexivity.
  - eauto.
Qed.

Lemma insert_sorted_perm a l : Permutation (insert_sorted a l) (a :: l).
Proof.
  induction l as [|b l IH]; simpl; [reflexivity|].
  destruct (a <=? b); [reflexivity|].
  rewrite IH. apply perm_swap.
Qed.

Lemma sort_perm l : Permutation (sort l) l.
Proof.
  induction l as [|a l IH]; simpl; [reflexivity|].
  unfold sort in *. simpl. rewrite insert_sorted_perm. constructor. exact IH.
Qed.

Lemma insert_sorted_sorted a l :
  Sorted Z.le l -> Sorted Z.le (insert_sorted a l).
Proof.
  induction l as [|b l IH]; intros Hs; simpl.
  - repeat constructor.
  - destruct (Z.leb_spec a b) as [Hle | Hgt].
    + constructor; [assumption | constructor; assumption].
    + inversion Hs as [|? ? Hs' Hhd]; subst.
      constructor; [apply IH; assumption|].
      destruct l as [|c l]; simpl.
      * constructor. lia.
      * destruct (Z.leb_spec a c); constructor; [lia|].
        inversion Hhd; subst. assumption.
Qed.

Lemma sort_sorted l : Sorted Z.le (sort l).
Proof.
  induction l as [|a l IH]; simpl; [constructor|].
  apply insert_sorted_sorted. exact IH.
Qed.

Lemma product_perm l1 l2 : Permutation l1 l2 -> product l1 = product l2.
Proof.
  unfold product.
  induction 1; simpl; try congruence; try ring.
Qed.

Lemma product_sort l : product (sort l) = product l.
Proof. apply product_perm, sort_perm. Qed.

(** ** The coordinator *)

Section CoordinatorFacts.

Import Architect.

Variable bases : list Z.
Variable Arrival : Type.
Variable answer : Z -> Arrival -> option (option Z).
Variable workerCount : Z.

(** What the worker kernels guarantee about a posted factor. *)
Hypothesis answer_sound : forall n a g,
  answer n a = Some (Some g) -> 1 < g < n /\ (g | n).

Let findFactorParallel := findFactorParallel bases Arrival answer workerCount.
Let race := race Arrival answer workerCount.
Let deliver := deliver Arrival answer.

Lemma deliver_ok n p a : promise_ok n p -> promise_ok n (deliver n p a).
Proof.
  unfold deliver, Architect.deliver.
  destruct (answer n a) as [factor|] eqn:Hans; [|auto].
  destruct p as [aw res st]. unfold promise_ok, onmessage, resolve.
  cbn [settled activeWorkers resolved].
  destruct res; [auto|].
  assert (Hsound : forall g, factor = Some g -> 1 < g < n /\ (g | n)).
  { intros g ->. eapply answer_sound; eauto. }
  destruct st as [v|]; intros Hp;
    destruct factor as [g|];
    try destruct (negb (g =? n) && negb (g =? 1));
    cbn [settled activeWorkers resolved negb andb];
    try rewrite andb_true_r;
    try destruct (aw - 1 =? 0);
    cbn [settled activeWorkers resolved];
    try match type of Hp with
        | _ /\ _ =>
            let Hv := fresh "Hv" in
            let H0 := fresh "H0" in
            destruct Hp as [Hv H0]; specialize (H0 eq_refl); subst v
        end;
    repeat split; auto; try discriminate.
Qed.

Lemma race_ok n arrivals : promise_ok n (race n arrivals).
Proof.
  unfold race, Architect.race.
  assert (Hgen : forall p, promise_ok n p ->
            promise_ok n (fold_left (Architect.deliver Arrival answer n) arrivals p)).
  { induction arrivals as [|a rest IH]; intros p Hp; simpl; [assumption|].
    apply IH. apply deliver_ok. assumption. }
  apply Hgen. reflexivity.
Qed.

(** Once the timer has fired the promise is settled. *)
Lemma ontimeout_settled n p :
  promise_ok n p ->
  exists v, settled (ontimeout p) = Some v /\
            (v = 0 \/ (1 < v < n /\ (v | n))).
Proof.
  destruct p as [aw res st]. unfold promise_ok, ontimeout, resolve.
  cbn [settled activeWorkers resolved].
  destruct st as [v|]; intros Hp.
  - destruct Hp as [Hv _]. exists v. destruct res; auto.
  - subst res. cbn. eauto.
Qed.

(** [findFactorParallel] always returns, and returns [2] on an even
    number, [n] itself on a number the oracle takes for a prime, and
    otherwise [0] or a proper divisor. *)
Lemma findFactorParallel_cases n arrivals :
  exists v, findFactorParallel n arrivals = Some v /\
    (Z.rem n 2 = 0 /\ v = 2 \/
     Z.rem n 2 <> 0 /\ isPrime bases n = true /\ v = n \/
     Z.rem n 2 <> 0 /\ isPrime bases n = false /\
       (v = 0 \/ (1 < v < n /\ (v | n)))).
Proof.
  unfold findFactorParallel, Architect.findFactorParallel.
  destruct (Z.eqb_spec (Z.rem n 2) 0) as [Heven | Hodd].
  { exists 2. auto. }
  destruct (isPrime bases n) eqn:Hprime.
  { exists n. auto 6. }
  destruct (ontimeout_settled n _ (race_ok n arrivals)) as [v [Hv Hcases]].
  exists v. split; [exact Hv | auto].
Qed.

(** No message with a factor: the round ends with [0]. *)
Lemma race_without_factor n arrivals :
  Forall (fun a => answer n a = Some None \/ answer n a = None) arrivals ->
  settled (ontimeout (race n arrivals)) = Some 0.
Proof.
  intros Hall. unfold race, Architect.race.
  assert (Hgen : forall p,
            resolved p = false ->
            settled p = None \/ settled p = Some 0 ->
            let p' := fold_left (Architect.deliver Arrival answer n) arrivals p in
            resolved p' = false /\ (settled p' = None \/ settled p' = Some 0)).
  { induction Hall as [|a rest Ha _ IH]; intros p Hres Hset; simpl; [auto|].
    apply IH; unfold Architect.deliver;
      destruct Ha as [-> | ->]; try assumption;
      destruct p as [aw res st]; cbn in Hres, Hset; subst res;
      unfold onmessage, resolve; cbn [settled activeWorkers resolved negb];
      rewrite andb_true_r;
      destruct (aw - 1 =? 0); cbn [settled activeWorkers resolved];
      destruct Hset as [-> | ->]; auto. }
  destruct (Hgen (mkPromise workerCount false None) eq_refl (or_introl eq_refl))
    as [Hres Hset].
  unfold ontimeout. rewrite Hres. unfold resolve.
  cbn [settled activeWorkers resolved].
  destruct Hset as [-> | ->]; reflexivity.
Qed.

(** All [workerCount] lanes post [null]: the last message settles the
    promise with [0], before the timer fires. *)
Lemma race_all_exhausted n arrivals :
  0 < workerCount -> Z.of_nat (length arrivals) = workerCount ->
  Forall (fun a => answer n a = Some None) arrivals ->
  settled (race n arrivals) = Some 0.
Proof.
  intros Hpos Hlen Hall. unfold race, Architect.race.
  assert (Hgen : forall aw,
            Z.of_nat (length arrivals) <= aw ->
            fold_left (Architect.deliver Arrival answer n) arrivals
              (mkPromise aw false None)
            = mkPromise (aw - Z.of_nat (length arrivals)) false
                (if (0 <? Z.of_nat (length arrivals)) &&
                    (aw =? Z.of_nat (length arrivals))
                 then Some 0 else None)).
  { clear Hlen.
    induction Hall as [|a rest Ha _ IH]; intros aw Haw.
    - simpl. rewrite Z.sub_0_r. reflexivity.
    - cbn [fold_left]. unfold Architect.deliver at 2. rewrite Ha.
      unfold onmessage, resolve. cbn [settled activeWorkers resolved negb].
      rewrite andb_true_r. cbn [length] in *.
      destruct (Z.eqb_spec (aw - 1) 0) as [Haw1 | Haw1];
        cbn [settled activeWorkers resolved].
      + assert (rest = []) by (destruct rest; [reflexivity | cbn in Haw; lia]).
        subst rest. cbn.
        destruct (Z.eqb_spec aw 1); [reflexivity | lia].
      + rewrite IH by lia.
        f_equal; [lia|].
        destruct (Z.eqb_spec (aw - 1) (Z.of_nat (length rest)));
          destruct (Z.eqb_spec aw (Z.of_nat (S (length rest))));
          destruct (Z.ltb_spec 0 (Z.of_nat (length rest)));
          cbn; try reflexivity; lia. }
  rewrite Hgen by lia. cbn [settled].
  destruct (Z.ltb_spec 0 (Z.of_nat (length arrivals))); [|lia].
  destruct (Z.eqb_spec workerCount (Z.of_nat (length arrivals))); [|lia].
  reflexivity.
Qed.

End CoordinatorFacts.

(** ** The engine *)

Lemma weight_push queue x :
  weight (push queue x) = (weight queue + Z.to_nat (x - 1))%nat.
Proof.
  unfold push. induction queue as [|q queue IH]; simpl; [lia|].
  unfold weight in *. simpl. rewrite IH. lia.
Qed.

Lemma product_repeat_succ p k :
  product (repeat p (S k)) = p * product (repeat p k).
Proof. reflexivity. Qed.

Lemma Forall_push {A : Type} (P : A -> Prop) l x :
  Forall P l -> P x -> Forall P (push l x).
Proof. intros Hl Hx. apply Forall_app. auto. Qed.

Section SieveFacts.

Import Architect.

Lemma strip_prime_total fuel p factors temp :
  2 <= p -> 0 < temp -> (Z.to_nat temp <= fuel)%nat ->
  exists k temp',
    strip_prime fuel p (factors, temp) = Some (factors ++ repeat p k, temp') /\
    0 < temp' /\ product (repeat p k) * temp' = temp /\ Z.rem temp' p <> 0.
Proof.
  intros Hp Htemp Hfuel. unfold strip_prime.
  destruct (while_total
              (fun '(_, temp) => Z.rem temp p =? 0)
              (fun '(fs, t) =>
                 0 < t /\ exists k, fs = factors ++ repeat p k /\
                                    product (repeat p k) * t = temp)
              (fun st => Z.to_nat (snd st))
              (fun '(factors, temp) => Some (push factors p, Z.quot temp p)))
    with (fuel := fuel) (s := (factors, temp))
    as [[fs t] (Hrun & (Ht & k & Hfs & Hprod) & Hcond)].
  - intros [fs t] (Ht & k & Hfs & Hprod) Hc.
    apply Z.eqb_eq in Hc.
    assert (Hq : t = p * Z.quot t p) by (apply Z.quot_exact; [lia | exact Hc]).
    exists (push fs p, Z.quot t p). split; [reflexivity|].
    assert (Hqpos : 0 < Z.quot t p) by nia.
    split; [split; [assumption|] | simpl; nia].
    exists (S k). split.
    + subst fs. unfold push. rewrite <- app_assoc. f_equal.
      symmetry. apply (repeat_cons k p).
    + rewrite product_repeat_succ. nia.
  - split; [assumption|]. exists 0%nat. split.
    + simpl. rewrite app_nil_r. reflexivity.
    + change (product (repeat p 0)) with 1. lia.
  - simpl. exact Hfuel.
  - exists k, t. subst fs. apply Z.eqb_neq in Hcond. auto.
Qed.

Lemma rem_factor_nonzero a b p :
  p <> 0 -> Z.rem (a * b) p <> 0 -> Z.rem b p <> 0.
Proof.
  intros Hp Hab Hb. apply Hab.
  apply Z.rem_divide; [assumption|].
  apply Z.rem_divide in Hb; [|assumption].
  apply Z.divide_mul_r. exact Hb.
Qed.

Lemma strip_basis_total fuel basis : forall factors temp,
  Forall (fun p => 2 <= p) basis ->
  0 < temp -> (Z.to_nat temp <= fuel)%nat ->
  exists extra temp',
    strip_basis fuel basis (factors, temp) = Some (factors ++ extra, temp') /\
    0 < temp' /\ product extra * temp' = temp /\
    Forall (fun p => In p basis) extra /\
    Forall (fun p => Z.rem temp' p <> 0) basis.
Proof.
  induction basis as [|p rest IH]; intros factors temp Hge Htemp Hfuel.
  - exists [], temp. cbn [strip_basis]. rewrite app_nil_r.
    change (product []) with 1.
    repeat split; try constructor; try assumption. lia.
  - inversion Hge as [|? ? Hp Hrest]; subst.
    destruct (strip_prime_total fuel p factors temp Hp Htemp Hfuel)
      as (k & t1 & Hrun1 & Ht1 & Hprod1 & Hrem1).
    assert (Hk : 0 < product (repeat p k)).
    { clear -Hp. induction k; [reflexivity|].
      rewrite product_repeat_succ. nia. }
    assert (Hle1 : t1 <= temp) by nia.
    destruct (IH (factors ++ repeat p k) t1 Hrest Ht1 ltac:(lia))
      as (extra & t2 & Hrun2 & Ht2 & Hprod2 & Hin2 & Hrem2).
    exists (repeat p k ++ extra), t2.
    cbn [strip_basis]. rewrite Hrun1. cbn [bind]. rewrite Hrun2.
    rewrite <- app_assoc.
    split; [reflexivity|]. split; [assumption|].
    split; [rewrite product_app; nia|].
    split.
    + apply Forall_app. split.
      * apply Forall_forall. intros x Hx. apply repeat_spec in Hx. subst x.
        left. reflexivity.
      * eapply Forall_impl; [|exact Hin2]. intros x Hx. right. exact Hx.
    + constructor; [|assumption].
      apply (rem_factor_nonzero (product extra)); [lia|].
      rewrite Hprod2. exact Hrem1.
Qed.

End SieveFacts.

Section EngineFacts.

Import Architect.

Variable bases : list Z.
Variable smallBasis : list Z.
Variable Arrival : Type.
Variable answer : Z -> Arrival -> option (option Z).
Variable workerCount : Z.

Hypothesis smallBasis_ge2 : Forall (fun p => 2 <= p) smallBasis.
Hypothesis answer_sound : forall n a g,
  answer n a = Some (Some g) -> 1 < g < n /\ (g | n).

Let isPrime := isPrime bases.
Let findFactorParallel := findFactorParallel bases Arrival answer workerCount.
Let sieve := sieve smallBasis.
Let deep_step := deep_step bases Arrival answer workerCount.
Let factorizeAsync := factorizeAsync bases smallBasis Arrival answer workerCount.
Let deep_inv := deep_inv Arrival.

Lemma sieve_total fuel nVal :
  0 < nVal -> (Z.to_nat nVal <= fuel)%nat ->
  exists factors temp,
    sieve fuel [nVal] ([], []) =
      Some (factors, if temp >? 1 then [temp] else []) /\
    0 < temp /\ product factors * temp = nVal /\
    Forall (fun p => In p smallBasis) factors /\
    Forall (fun p => Z.rem temp p <> 0) smallBasis.
Proof.
  intros Hn Hfuel.
  destruct (strip_basis_total fuel smallBasis [] nVal smallBasis_ge2 Hn Hfuel)
    as (extra & temp & Hrun & Htemp & Hprod & Hin & Hrem).
  exists extra, temp. unfold sieve, Architect.sieve.
  rewrite Hrun. cbn [bind app]. unfold push. cbn [app].
  repeat split; assumption.
Qed.

(** What the coordinator hands back for a cofactor the oracle rejects. *)
Lemma coordinator_splits current arrivals :
  2 <= current -> isPrime current = false ->
  exists v, findFactorParallel current arrivals = Some v /\
            (v = 0 \/ (1 < v < current /\ (v | current))).
Proof.
  intros Hge Hprime.
  destruct (findFactorParallel_cases bases Arrival answer workerCount
              answer_sound current arrivals)
    as [v [Hv [[Heven ->] | [(_ & Htrue & _) | (_ & _ & Hcases)]]]];
    exists v || exists 2; (split; [exact Hv|]).
  - right.
    assert (Hdiv : (2 | current)) by (apply Z.rem_divide; [lia | exact Heven]).
    split; [|assumption].
    destruct (Z.eq_dec current 2) as [-> | Hne]; [discriminate|].
    destruct Hdiv as [k Hk]. lia.
  - unfold isPrime in Hprime. congruence.
  - exact Hcases.
Qed.

Lemma split_weight v k :
  2 <= v -> 2 <= k ->
  (Z.to_nat (v - 1) + Z.to_nat (k - 1) < Z.to_nat (v * k - 1))%nat.
Proof. intros Hv Hk. nia. Qed.

Lemma queue_nonempty_pop {A B : Type} (fs : A) (queue : list Z) (rs : B) :
  queue_nonempty (fs, queue, rs) = true ->
  exists current rest, pop queue = Some (current, rest) /\
                       queue = push rest current.
Proof.
  unfold queue_nonempty. cbn [fst snd]. intros Hne.
  destruct (pop_nonempty queue) as (x & r & Hpop).
  - intros ->. discriminate.
  - exists x, r. split; [assumption | apply pop_some; assumption].
Qed.

Lemma queue_empty {A B : Type} (fs : A) (queue : list Z) (rs : B) :
  queue_nonempty (fs, queue, rs) = false -> queue = [].
Proof.
  unfold queue_nonempty. cbn [fst snd]. destruct queue; [reflexivity|].
  discriminate.
Qed.

Lemma deep_step_total N sieved st :
  deep_inv N sieved st -> queue_nonempty st = true ->
  exists st', deep_step st = Some st' /\ deep_inv N sieved st' /\
    (weight (snd (fst st')) < weight (snd (fst st)))%nat.
Proof.
  destruct st as [[fs queue] rs].
  intros (Hq & Hprod & added & Hfs & Hadded) Hne.
  destruct (queue_nonempty_pop _ _ _ Hne) as (current & rest & Hpop & Hqueue).
  subst queue. apply Forall_app in Hq. destruct Hq as [Hrest Hcur].
  apply Forall_inv in Hcur. rename Hcur into Hcur2. subst fs.
  rewrite product_push in Hprod. cbn [fst snd]. rewrite weight_push.
  assert (Hkeep : forall rs' : list (list Arrival),
            deep_inv N sieved (push (sieved ++ added) current, rest, rs')).
  { intros rs'. split; [assumption|]. split.
    - rewrite product_push. lia.
    - exists (push added current). split.
      + unfold push. rewrite app_assoc. reflexivity.
      + apply Forall_push; assumption. }
  unfold deep_step, Architect.deep_step. rewrite Hpop. cbn [bind].
  fold isPrime.
  destruct (isPrime current) eqn:Hprime.
  { eexists. split; [reflexivity|]. split; [apply Hkeep|].
    cbn [fst snd]. lia. }
  destruct (next_round Arrival rs) as [arrivals rs'].
  destruct (coordinator_splits current arrivals Hcur2 Hprime)
    as [v [Hv Hcases]].
  fold findFactorParallel. rewrite Hv. cbn [bind].
  destruct Hcases as [-> | [Hrange Hdiv]].
  { cbn [Z.eqb orb].
    eexists. split; [reflexivity|]. split; [apply Hkeep|].
    cbn [fst snd]. lia. }
  destruct (Z.eqb_spec v 0) as [|_]; [lia|].
  destruct (Z.eqb_spec v current) as [|_]; [lia|]. cbn [orb].
  eexists. split; [reflexivity|].
  assert (Hk : current = v * Z.quot current v).
  { apply Z.quot_exact; [lia|]. apply Z.rem_divide; [lia | exact Hdiv]. }
  assert (Hk2 : 2 <= Z.quot current v) by nia.
  split.
  - split; [repeat apply Forall_push; try assumption; lia|].
    split; [|exists added; auto].
    rewrite !product_push. nia.
  - cbn [fst snd]. rewrite !weight_push.
    pose proof (split_weight v (Z.quot current v) ltac:(lia) Hk2) as Hw.
    rewrite <- Hk in Hw. lia.
Qed.

Lemma deep_total fuel N sieved queue rounds :
  Forall (fun q => 2 <= q) queue ->
  product sieved * product queue = N ->
  (weight queue <= fuel)%nat ->
  exists added rounds',
    while fuel queue_nonempty deep_step (sieved, queue, rounds)
      = Some (sieved ++ added, [], rounds') /\
    product (sieved ++ added) = N /\
    Forall (fun q => 2 <= q) added.
Proof.
  intros Hq Hprod Hfuel.
  destruct (while_total queue_nonempty (deep_inv N sieved)
              (fun st => weight (snd (fst st))) deep_step)
    with (fuel := fuel) (s := (sieved, queue, rounds))
    as [[[fs q'] rs'] (Hrun & (_ & Hprod' & added & Hfs & Hadded) & Hcond)].
  - intros st Hinv Hc. apply deep_step_total; assumption.
  - split; [assumption|]. split; [assumption|].
    exists []. rewrite app_nil_r. auto.
  - exact Hfuel.
  - apply queue_empty in Hcond. subst q' fs.
    exists added, rs'. split; [exact Hrun|]. split; [|assumption].
    change (product []) with 1 in Hprod'. lia.
Qed.

End EngineFacts.

(** *** A larger budget does not change the result *)

Section EngineMonotone.

Import Architect.

Variable bases : list Z.
Variable smallBasis : list Z.
Variable Arrival : Type.
Variable answer : Z -> Arrival -> option (option Z).
Variable workerCount : Z.
Variables f1 f2 : nat.
Hypothesis Hle : (f1 <= f2)%nat.

Lemma strip_basis_mono basis : forall st r,
  strip_basis f1 basis st = Some r -> strip_basis f2 basis st = Some r.
Proof.
  induction basis as [|p rest IH]; intros st r; cbn [strip_basis]; [auto|].
  apply bind_mono; [|apply IH].
  intros s. unfold strip_prime. apply while_mono; auto.
Qed.

Lemma sieve_mono queue : forall st r,
  sieve smallBasis f1 queue st = Some r ->
  sieve smallBasis f2 queue st = Some r.
Proof.
  induction queue as [|num rest IH]; intros [factors nextQueue] r;
    cbn [sieve]; [auto|].
  apply bind_mono; [intros s; apply strip_basis_mono|].
  intros [fs temp] r'. apply IH.
Qed.

Lemma factorizeAsync_mono nVal rounds out :
  factorizeAsync bases smallBasis Arrival answer workerCount f1 nVal rounds
    = Some out ->
  factorizeAsync bases smallBasis Arrival answer workerCount f2 nVal rounds
    = Some out.
Proof.
  unfold factorizeAsync.
  destruct (nVal <? 1); [auto|]. destruct (nVal =? 1); [auto|].
  apply bind_mono; [intros s; apply sieve_mono|].
  intros [factors queue] r.
  apply bind_mono; [|auto].
  intros s. apply while_mono; auto.
Qed.

Lemma factorizeGhost_mono nVal rounds out :
  factorizeGhost bases smallBasis Arrival answer workerCount f1 nVal rounds
    = Some out ->
  factorizeGhost bases smallBasis Arrival answer workerCount f2 nVal rounds
    = Some out.
Proof.
  unfold factorizeGhost.
  destruct (nVal <? 1); [auto|]. destruct (nVal =? 1); [auto|].
  apply bind_mono; [intros s; apply sieve_mono|].
  intros [factors queue] r.
  apply bind_mono; [|auto].
  intros s. apply while_mono; auto.
Qed.

End EngineMonotone.

(** *** The ghost run follows the run *)

Lemma while_sim {S T : Type} (R : S -> T -> Prop)
    (cond1 : S -> bool) (body1 : S -> option S)
    (cond2 : T -> bool) (body2 : T -> option T) :
  (forall s t, R s t -> cond1 s = cond2 t) ->
  (forall s t s', R s t -> cond1 s = true -> body1 s = Some s' ->
     exists t', body2 t = Some t' /\ R s' t') ->
  forall fuel s t r, R s t -> while fuel cond1 body1 s = Some r ->
    exists r', while fuel cond2 body2 t = Some r' /\ R r r'.
Proof.
  intros Hcond Hbody fuel.
  induction fuel as [|fuel IH]; intros s t r HR; simpl;
    rewrite <- (Hcond s t HR); destruct (cond1 s) eqn:Hc;
    try discriminate;
    try (intros H; inversion H; subst; eauto; fail).
  destruct (body1 s) as [s'|] eqn:Hb; [|discriminate].
  destruct (Hbody s t s' HR Hc Hb) as [t' [Hb' HR']].
  rewrite Hb'. apply IH. exact HR'.
Qed.

Section GhostFacts.

Import Architect.

Variable bases : list Z.
Variable smallBasis : list Z.
Variable Arrival : Type.
Variable answer : Z -> Arrival -> option (option Z).
Variable workerCount : Z.

Hypothesis smallBasis_ge2 : Forall (fun p => 2 <= p) smallBasis.
Hypothesis smallBasis_prime :
  Forall (fun p => isPrime bases p = true) smallBasis.
Hypothesis answer_sound : forall n a g,
  answer n a = Some (Some g) -> 1 < g < n /\ (g | n).

Let isPrime := isPrime bases.
Let findFactorParallel := findFactorParallel bases Arrival answer workerCount.
Let deep_step := deep_step bases Arrival answer workerCount.
Let deep_step_ghost := deep_step_ghost bases Arrival answer workerCount.
Let factorizeAsync := factorizeAsync bases smallBasis Arrival answer workerCount.
Let factorizeGhost := factorizeGhost bases smallBasis Arrival answer workerCount.
Let origin_ok := origin_ok bases smallBasis Arrival answer workerCount.
Let deep_origin_ok :=
  deep_origin_ok bases smallBasis Arrival answer workerCount.
Let erase := erase Arrival.

Lemma map_fst_push (l : list (Z * origin)) x :
  map fst (push l x) = push (map fst l) (fst x).
Proof. unfold push. rewrite map_app. reflexivity. Qed.

Lemma deep_step_ghost_sim s g s' :
  s = erase g /\ Forall deep_origin_ok (fst (fst g)) ->
  queue_nonempty s = true ->
  deep_step s = Some s' ->
  exists g', deep_step_ghost g = Some g' /\
             s' = erase g' /\ Forall deep_origin_ok (fst (fst g')).
Proof.
  destruct g as [[gfs queue] rs]. unfold erase, Architect.erase; cbn [fst]. intros [-> Hok] _.
  unfold deep_step, deep_step_ghost,
    Architect.deep_step, Architect.deep_step_ghost.
  destruct (pop queue) as [[current rest]|]; [|discriminate]. cbn [bind].
  fold isPrime.
  destruct (isPrime current) eqn:Hprime.
  { intros H; inversion H; subst; clear H.
    eexists. split; [reflexivity|]. unfold erase, Architect.erase; cbn [fst].
    rewrite map_fst_push. split; [reflexivity|].
    apply Forall_push; [assumption|].
    split; [exact Hprime | discriminate]. }
  destruct (next_round Arrival rs) as [arrivals rs'].
  fold findFactorParallel.
  destruct (findFactorParallel current arrivals) as [v|] eqn:Hv;
    [|discriminate].
  cbn [bind].
  destruct ((v =? 0) || (v =? current)) eqn:Hfail;
    intros H; inversion H; subst; clear H;
    (eexists; split; [reflexivity|]); unfold erase, Architect.erase; cbn [fst].
  - rewrite map_fst_push. split; [reflexivity|].
    apply Forall_push; [assumption|].
    split; [|discriminate].
    unfold origin_ok, Architect.origin_ok.
    split; [exact Hprime|]. split; [|eauto].
    apply orb_true_iff in Hfail.
    destruct Hfail as [H0 | Hc]; [left | right]; apply Z.eqb_eq; assumption.
  - split; [reflexivity | assumption].
Qed.

(** The run of the engine on an input of at least 2, with its ghost. *)
Lemma engine_run nVal rounds :
  2 <= nVal ->
  exists tagged,
    returns (fun fuel => factorizeGhost fuel nVal rounds) tagged /\
    returns (fun fuel => factorizeAsync fuel nVal rounds)
      (sort (map fst tagged)) /\
    product (map fst tagged) = nVal /\
    Forall (fun q => 2 <= q) (map fst tagged) /\
    Forall deep_origin_ok tagged.
Proof.
  intros Hn.
  set (fuel := Z.to_nat nVal).
  destruct (sieve_total smallBasis smallBasis_ge2 fuel nVal ltac:(lia)
              ltac:(unfold fuel; lia))
    as (sieved & temp & Hsieve & Htemp & Hprod & Hin & _).
  remember (if temp >? 1 then [temp] else []) as queue eqn:Hqdef.
  assert (Hsievedpos : 0 < product sieved).
  { clear -Hin smallBasis_ge2. induction Hin as [|p l Hp _ IH]; [reflexivity|].
    unfold product in *. cbn [fold_right].
    rewrite Forall_forall in smallBasis_ge2.
    specialize (smallBasis_ge2 p Hp). cbn beta in smallBasis_ge2. nia. }
  assert (Hqueue : Forall (fun q => 2 <= q) queue /\
                   product queue = temp /\ (weight queue <= fuel)%nat).
  { subst queue. destruct (Z.gtb_spec temp 1).
    - repeat split; [repeat constructor; lia | unfold product; simpl; lia |].
      unfold weight, fuel. simpl. nia.
    - assert (temp = 1) by lia. subst temp.
      repeat split; [constructor | unfold weight; simpl; lia]. }
  destruct Hqueue as (Hq2 & Hqprod & Hweight).
  destruct (deep_total bases Arrival answer workerCount answer_sound
              fuel nVal sieved queue rounds Hq2 ltac:(lia) Hweight)
    as (added & rounds' & Hdeep & Hfinal & Hadded).
  pose proof (while_sim
              (fun s g => s = erase g /\ Forall deep_origin_ok (fst (fst g)))
              queue_nonempty deep_step queue_nonempty deep_step_ghost) as Hsim.
  specialize (Hsim
    ltac:(intros s [[gfs gq] grs] [-> _]; reflexivity)
    deep_step_ghost_sim
    fuel (sieved, queue, rounds)
    (map (fun p => (p, Sieved)) sieved, queue, rounds)
    (sieved ++ added, @nil Z, rounds')).
  destruct Hsim as [[[tagged q'] rs'] (Hghost & Herase & Hok)].
  - unfold erase, Architect.erase; cbn [fst]. split.
    + rewrite map_map. cbn [fst]. rewrite map_id. reflexivity.
    + apply Forall_forall. intros [p o] Hp. apply in_map_iff in Hp.
      destruct Hp as [x [Hx Hxin]]. inversion Hx; subst o p.
      split; [|discriminate].
      rewrite Forall_forall in Hin. apply Hin. exact Hxin.
  - exact Hdeep.
  - unfold erase, Architect.erase in Herase; cbn [fst] in Herase, Hok.
    assert (Hfs : sieved ++ added = map fst tagged) by congruence.
    assert (Hq' : q' = []) by congruence.
    exists tagged.
    assert (Hn1 : (nVal <? 1) = false) by (apply Z.ltb_ge; lia).
    assert (Hn2 : (nVal =? 1) = false) by (apply Z.eqb_neq; lia).
    split; [|split; [|split; [|split]]].
    + apply returns_from with fuel.
      * intros a b r Hab. apply factorizeGhost_mono. exact Hab.
      * unfold factorizeGhost, Architect.factorizeGhost.
        rewrite Hn1, Hn2. rewrite Hsieve. cbn [bind].
        fold deep_step_ghost. rewrite Hghost. reflexivity.
    + apply returns_from with fuel.
      * intros a b r Hab. apply factorizeAsync_mono. exact Hab.
      * unfold factorizeAsync, Architect.factorizeAsync.
        rewrite Hn1, Hn2. rewrite Hsieve. cbn [bind].
        rewrite Hdeep. cbn [bind]. rewrite Hfs. reflexivity.
    + rewrite <- Hfs. exact Hfinal.
    + rewrite <- Hfs. apply Forall_app. split; [|assumption].
      eapply Forall_impl; [|exact Hin].
      intros p Hp. rewrite Forall_forall in smallBasis_ge2.
      apply smallBasis_ge2. exact Hp.
    + exact Hok.
Qed.

End GhostFacts.

(** ** The properties hold for any instance of the class *)

Section StatementsHold.

Import Architect.

Variable bases : list Z.
Variable smallBasis : list Z.
Variable Arrival : Type.
Variable answer : Z -> Arrival -> option (option Z).
Variable workerCount : Z.

Hypothesis smallBasis_ge2 : Forall (fun p => 2 <= p) smallBasis.
Hypothesis smallBasis_prime :
  Forall (fun p => isPrime bases p = true) smallBasis.
Hypothesis answer_sound : forall n a g,
  answer n a = Some (Some g) -> 1 < g < n /\ (g | n).

Let isPrime := isPrime bases.
Let race := race Arrival answer workerCount.
Let findFactorParallel := findFactorParallel bases Arrival answer workerCount.
Let sieve := sieve smallBasis.
Let deep_step := deep_step bases Arrival answer workerCount.
Let factorizeAsync := factorizeAsync bases smallBasis Arrival answer workerCount.
Let factorizeGhost := factorizeGhost bases smallBasis Arrival answer workerCount.

Lemma base_case_below_one n fuel rounds :
  n < 1 -> factorizeAsync fuel n rounds = Some [].
Proof.
  intros Hn. unfold factorizeAsync, Architect.factorizeAsync.
  destruct (Z.ltb_spec n 1); [reflexivity | lia].
Qed.

Lemma base_case_one fuel rounds : factorizeAsync fuel 1 rounds = Some [1].
Proof. reflexivity. Qed.

Lemma run_with_ghost n rounds :
  2 <= n ->
  exists tagged,
    returns (fun fuel => factorizeGhost fuel n rounds) tagged /\
    returns (fun fuel => factorizeAsync fuel n rounds)
      (sort (map fst tagged)) /\
    product (map fst tagged) = n /\
    Forall (fun q => 2 <= q) (map fst tagged) /\
    Forall (deep_origin_ok bases smallBasis Arrival answer workerCount) tagged.
Proof.
  apply engine_run; assumption.
Qed.

Lemma reconstructs_holds n :
  1 <= n -> reconstructs Arrival factorizeAsync n.
Proof.
  intros Hn rounds.
  destruct (Z.eq_dec n 1) as [-> | Hn1].
  - exists [1]. split; [|reflexivity].
    exists 0%nat. intros fuel _. apply base_case_one.
  - destruct (run_with_ghost n rounds ltac:(lia))
      as (tagged & _ & Hrun & Hprod & _).
    exists (sort (map fst tagged)). split; [exact Hrun|].
    rewrite product_sort. exact Hprod.
Qed.

Lemma sieve_contract_holds n : 1 <= n -> sieve_contract smallBasis n.
Proof.
  intros Hn.
  set (fuel := Z.to_nat n).
  destruct (strip_basis_total fuel smallBasis [] n smallBasis_ge2
              ltac:(lia) ltac:(unfold fuel; lia))
    as (extra & temp & Hrun & Htemp & Hprod & Hin & Hrem).
  cbn [app] in Hrun.
  exists extra, temp.
  split; [|split; [|split; [|split; [|split]]]];
    try assumption; try lia.
  - apply returns_from with fuel; [|exact Hrun].
    intros f1 f2 r Hle. apply strip_basis_mono. exact Hle.
  - apply returns_from with fuel.
    + intros f1 f2 r Hle. apply sieve_mono. exact Hle.
    + cbn [Architect.sieve]. rewrite Hrun. reflexivity.
Qed.

Lemma after_iterations_next {St : Type} (cond : St -> bool)
    (body : St -> option St) k : forall s st st',
  after_iterations k cond body s = Some st ->
  cond st = true -> body st = Some st' ->
  after_iterations (S k) cond body s = Some st'.
Proof.
  induction k as [|k IH]; intros s st st' Hk Hcond Hbody.
  - cbn [after_iterations] in *. inversion Hk; subst.
    rewrite Hcond, Hbody. reflexivity.
  - cbn [after_iterations] in Hk.
    change (after_iterations (S (S k)) cond body s)
      with (if cond s
            then match body s with
                 | Some s' => after_iterations (S k) cond body s'
                 | None => None
                 end
            else Some s).
    destruct (cond s) eqn:Hc.
    + destruct (body s) as [s1|]; [|discriminate].
      apply (IH s1 st st' Hk Hcond Hbody).
    + inversion Hk; subst. congruence.
Qed.

Lemma after_iterations_inv N sieved k : forall st,
  deep_inv Arrival N sieved st ->
  exists st', after_iterations k queue_nonempty deep_step st = Some st' /\
              deep_inv Arrival N sieved st'.
Proof.
  induction k as [|k IH]; intros st Hinv; cbn [after_iterations]; [eauto|].
  destruct (queue_nonempty st) eqn:Hc; [|eauto].
  destruct (deep_step_total bases Arrival answer workerCount answer_sound
              N sieved st Hinv Hc) as (st' & Hstep & Hinv' & _).
  fold deep_step in Hstep. rewrite Hstep. apply IH. exact Hinv'.
Qed.

Lemma loop_invariant_holds n :
  1 <= n -> loop_invariant Arrival sieve deep_step n.
Proof.
  intros Hn rounds.
  destruct (sieve_contract_holds n Hn)
    as (factors0 & temp & _ & Hsieve & Hin & Htemp & _ & Hprod).
  exists factors0, (if temp >? 1 then [temp] else []).
  split; [exact Hsieve|].
  intros k.
  destruct (after_iterations_inv n factors0 k
              (factors0, (if temp >? 1 then [temp] else []), rounds))
    as [[[factors queue] rounds'] [Hrun (_ & Hinv & _)]].
  - split; [|split].
    + destruct (Z.gtb_spec temp 1); repeat constructor; lia.
    + destruct (Z.gtb_spec temp 1); unfold product; cbn [fold_right];
        unfold product in Hprod; lia.
    + exists []. rewrite app_nil_r. auto.
  - exists factors, queue, rounds'. auto.
Qed.



Lemma failure_is_zero_holds n :
  0 < workerCount -> Z.rem n 2 <> 0 -> isPrime n = false ->
  failure_is_zero Arrival answer workerCount race findFactorParallel n.
Proof.
  intros Hcount Hodd Hprime.
  assert (Hguard : forall arrivals,
            findFactorParallel n arrivals
            = settled (ontimeout (race n arrivals))).
  { intros arrivals.
    unfold findFactorParallel, Architect.findFactorParallel.
    destruct (Z.eqb_spec (Z.rem n 2) 0); [contradiction|].
    fold isPrime. rewrite Hprime. reflexivity. }
  split.
  - intros arrivals Hall. rewrite Hguard.
    apply race_without_factor. exact Hall.
  - intros arrivals Hlen Hall. split.
    + apply race_all_exhausted; assumption.
    + rewrite Hguard. apply race_without_factor.
      eapply Forall_impl; [|exact Hall]. intros a Ha. left. exact Ha.
Qed.

Lemma primality_agreement_holds n :
  2 <= n ->
  primality_agreement Arrival isPrime findFactorParallel sieve deep_step
    factorizeAsync n.
Proof.
  intros Hn rounds.
  destruct (sieve_contract_holds n ltac:(lia))
    as (factors0 & temp & _ & Hsieve & Hin & _).
  destruct (run_with_ghost n rounds Hn) as (tagged & _ & Hrun & _).
  exists factors0, (if temp >? 1 then [temp] else []), (sort (map fst tagged)).
  split; [exact Hsieve|]. split; [exact Hrun|].
  set (init := (factors0, (if temp >? 1 then [temp] else []), rounds)).
  set (unsplit := fun factor =>
         isPrime factor = true \/
         exists k factors queue rounds' returned,
           after_iterations k queue_nonempty deep_step init
             = Some (factors, push queue factor, rounds') /\
           isPrime factor = false /\
           findFactorParallel factor (fst (next_round Arrival rounds'))
             = Some returned /\
           (returned = 0 \/ returned = factor)).
  destruct Hsieve as [fuel1 Hsieve]. destruct Hrun as [fuel2 Hrun].
  specialize (Hsieve (Nat.max fuel1 fuel2) ltac:(lia)).
  specialize (Hrun (Nat.max fuel1 fuel2) ltac:(lia)).
  unfold factorizeAsync, Architect.factorizeAsync in Hrun.
  destruct (Z.ltb_spec n 1); [lia|]. destruct (Z.eqb_spec n 1); [lia|].
  rewrite Hsieve in Hrun. cbn [bind] in Hrun.
  bind_inv Hrun. destruct a as [[factors queue] rounds'].
  inversion Hrun as [Hout]. clear Hrun.
  apply (while_inv queue_nonempty
           (fun st => (exists k, after_iterations k queue_nonempty deep_step init
                                 = Some st) /\
                      Forall unsplit (fst (fst st)))) in Hrun0.
  - destruct Hrun0 as [[_ Hall] _]. cbn [fst] in Hall.
    intros factor Hfactor. rewrite Forall_forall in Hall. apply Hall.
    apply (Permutation_in _ (sort_perm factors)). exact Hfactor.
  - clear. intros [[fs queue] rs] st' [[k Hk] Hall] Hcond Hstep.
    cbn [fst] in Hall.
    split.
    { exists (S k).
      apply (after_iterations_next queue_nonempty deep_step k init
               (fs, queue, rs) st' Hk Hcond Hstep). }
    unfold deep_step, Architect.deep_step in Hstep.
    bind_inv Hstep. destruct a as [current rest].
    apply pop_some in Hrun. subst queue.
    destruct (Architect.isPrime bases current) eqn:Hprime.
    { inversion Hstep; subst. cbn [fst].
      apply Forall_push; [exact Hall | left; exact Hprime]. }
    destruct (next_round Arrival rs) as [arrivals rs'] eqn:Hnext.
    bind_inv Hstep. rename a into returned.
    destruct ((returned =? 0) || (returned =? current)) eqn:Hfail;
      inversion Hstep; subst; cbn [fst]; [|exact Hall].
    apply Forall_push; [exact Hall | right].
    exists k, fs, rest, rs, returned.
    split; [exact Hk|]. split; [exact Hprime|].
    rewrite Hnext. cbn [fst]. split; [exact Hrun|].
    apply orb_true_iff in Hfail.
    destruct Hfail as [H0 | H0]; apply Z.eqb_eq in H0; auto.
  - split; [exists 0%nat; reflexivity|]. cbn [fst].
    eapply Forall_impl; [|exact Hin]. intros p Hp. left.
    rewrite Forall_forall in smallBasis_prime.
    apply smallBasis_prime. exact Hp.
Qed.

Lemma failure_appends_holds :
  failure_appends Arrival isPrime findFactorParallel deep_step.
Proof.
  intros factors queue rounds current returned Hprime Hret Hfail.
  unfold deep_step, Architect.deep_step.
  rewrite pop_push. cbn [bind]. fold isPrime. rewrite Hprime.
  destruct (next_round Arrival rounds) as [arrivals rounds'].
  cbn [fst snd] in *. fold findFactorParallel. rewrite Hret. cbn [bind].
  assert (Hcond : (returned =? 0) || (returned =? current) = true).
  { apply orb_true_iff.
    destruct Hfail as [-> | ->]; [left | right]; apply Z.eqb_refl. }
  rewrite Hcond. reflexivity.
Qed.

Lemma sorted_output_holds n : sorted_output Arrival factorizeAsync n.
Proof.
  intros rounds.
  destruct (Z.lt_ge_cases n 1) as [Hlt | Hge].
  - exists []. split; [|constructor].
    exists 0%nat. intros fuel _. apply base_case_below_one. exact Hlt.
  - destruct (Z.eq_dec n 1) as [-> | Hn1].
    + exists [1]. split; [|repeat constructor].
      exists 0%nat. intros fuel _. apply base_case_one.
    + destruct (run_with_ghost n rounds ltac:(lia))
        as (tagged & _ & Hrun & _).
      exists (sort (map fst tagged)). split; [exact Hrun|].
      apply sort_sorted.
Qed.

Lemma factors_at_least_two_holds n :
  2 <= n -> factors_at_least_two Arrival factorizeAsync n.
Proof.
  intros Hn rounds.
  destruct (run_with_ghost n rounds Hn)
    as (tagged & _ & Hrun & _ & Hge & _).
  exists (sort (map fst tagged)). split; [exact Hrun|].
  eapply Permutation_Forall; [|exact Hge].
  symmetry. apply sort_perm.
Qed.

End StatementsHold.

(** ** The two revisions satisfy the assumptions *)

Lemma RawBrent_answer_sound A1 n a g :
  RawBrent.answer A1 n a = Some (Some g) -> 1 < g < n /\ (g | n).
Proof.
  unfold RawBrent.answer.
  destruct (RawBrent.laneParams A1 (RawBrent.lane a)) as [startC seedVal].
  apply RawKernel_onmessage_sound.
Qed.

Lemma MatrixBrent_answer_sound A1 n a g :
  MatrixBrent.answer A1 n a = Some (Some g) -> 1 < g < n /\ (g | n).
Proof.
  unfold MatrixBrent.answer. apply MatrixKernel_onmessage_sound.
Qed.

Lemma RawBrent_smallBasis_ge2 : Forall (fun p => 2 <= p) RawBrent.smallBasis.
Proof. repeat constructor; lia. Qed.

Lemma MatrixBrent_smallBasis_ge2 :
  Forall (fun p => 2 <= p) MatrixBrent.smallBasis.
Proof. repeat constructor; lia. Qed.

Lemma RawBrent_smallBasis_prime :
  Forall (fun p => Architect.isPrime RawBrent.bases p = true)
    RawBrent.smallBasis.
Proof. repeat constructor; vm_compute; reflexivity. Qed.

Lemma MatrixBrent_smallBasis_prime :
  Forall (fun p => Architect.isPrime MatrixBrent.bases p = true)
    MatrixBrent.smallBasis.
Proof. repeat constructor; vm_compute; reflexivity. Qed.

Lemma RawBrent_workerCount_pos hc : 0 < RawBrent.workerCount hc.
Proof. unfold RawBrent.workerCount. lia. Qed.

Lemma MatrixBrent_workerCount_pos hc : 0 < MatrixBrent.workerCount hc.
Proof. unfold MatrixBrent.workerCount. lia. Qed.

Lemma odd_rem n : Z.odd n = true -> Z.rem n 2 <> 0.
Proof.
  intros Hodd Hrem. apply Z.rem_divide in Hrem; [|lia].
  destruct Hrem as [k ->]. rewrite Z.mul_comm, Z.odd_even in Hodd.
  discriminate.
Qed.

(** A number below which every positive number is coprime to it is
    prime; the check runs by computation on the primes up to 37. *)
Lemma prime_by_gcd p :
  1 < p ->
  forallb (fun k => Z.gcd (Z.of_nat k) p =? 1) (seq 1 (Z.to_nat p - 1)) = true ->
  prime p.
Proof.
  intros Hp Hall. apply prime_intro; [exact Hp|].
  intros n Hn. rewrite forallb_forall in Hall.
  specialize (Hall (Z.to_nat n)).
  rewrite Z2Nat.id in Hall by lia.
  assert (Hin : In (Z.to_nat n) (seq 1 (Z.to_nat p - 1))).
  { apply in_seq. lia. }
  apply Hall, Z.eqb_eq in Hin.
  unfold rel_prime. constructor; try apply Z.divide_1_l.
  intros x Hxn Hxp. rewrite <- Hin. apply Z.gcd_greatest; assumption.
Qed.

Lemma primes_to_37_prime : Forall prime primes_to_37.
Proof.
  unfold primes_to_37.
  repeat (apply Forall_cons;
          [apply prime_by_gcd; [lia | vm_compute; reflexivity]|]).
  apply Forall_nil.
Qed.

(** * The properties of the specification *)

(** C1. Reconstruction: for every input [n >= 1] and every course of the
    coordinator rounds, [factorizeAsync] returns, and the product of the
    returned factors is [n] (a cofactor that could not be split stands in
    the product itself); and [product(factors) * product(queue) = n] holds
    after the sieve and after every iteration of the deep loop.  Both
    revisions. *)
Theorem C1_reconstruction (A1 : list (list Z)) (hardwareConcurrency n : Z) :
  1 <= n ->
  (reconstructs RawBrent.Arrival
     (RawBrent.factorizeAsync A1 hardwareConcurrency) n /\
   loop_invariant RawBrent.Arrival RawBrent.sieve
     (RawBrent.deep_step A1 hardwareConcurrency) n) /\
  (reconstructs MatrixBrent.Arrival
     (MatrixBrent.factorizeAsync A1 hardwareConcurrency) n /\
   loop_invariant MatrixBrent.Arrival MatrixBrent.sieve
     (MatrixBrent.deep_step A1 hardwareConcurrency) n).
Proof.
  intros Hn. split; split.
  - apply reconstructs_holds;
      [exact RawBrent_smallBasis_ge2 | apply RawBrent_answer_sound | exact Hn].
  - apply loop_invariant_holds;
      [exact RawBrent_smallBasis_ge2 | apply RawBrent_answer_sound | exact Hn].
  - apply reconstructs_holds;
      [exact MatrixBrent_smallBasis_ge2 | apply MatrixBrent_answer_sound
      | exact Hn].
  - apply loop_invariant_holds;
      [exact MatrixBrent_smallBasis_ge2 | apply MatrixBrent_answer_sound
      | exact Hn].
Qed.

Lemma C1_reconstruction_witness :
  1 <= 899 /\
  ((reconstructs RawBrent.Arrival (RawBrent.factorizeAsync sample_A1 8) 899 /\
    loop_invariant RawBrent.Arrival RawBrent.sieve
      (RawBrent.deep_step sample_A1 8) 899) /\
   (reconstructs MatrixBrent.Arrival
      (MatrixBrent.factorizeAsync sample_A1 8) 899 /\
    loop_invariant MatrixBrent.Arrival MatrixBrent.sieve
      (MatrixBrent.deep_step sample_A1 8) 899)).
Proof.
  split; [lia | apply (C1_reconstruction sample_A1 8 899); lia].
Defined.




(** C3. The oracle's contract: in either revision the witness list
    consists of primes and starts with the first 12 primes, and for every
    [n], [isPrime(n)] is [false]
    for [n < 2], [true] for [n] in {2, 3}, [false] for even [n > 3], and
    otherwise [true] exactly when, with [n - 1 = d * 2^s] and [d] odd, no
    witness before the first one with [n <= a] fails, a witness failing
    when [a^d mod n] is neither [1] nor [n - 1] and none of its [s - 1]
    successive squarings is [n - 1]. *)
Theorem C3_oracle_contracts :
  oracle_contract RawBrent.bases /\ oracle_contract MatrixBrent.bases.
Proof.
  split; apply oracle_contract_holds; try reflexivity.
  - unfold RawBrent.bases.
    repeat (apply Forall_cons;
            [apply prime_by_gcd; [lia | vm_compute; reflexivity]|]).
    apply Forall_nil.
  - unfold MatrixBrent.bases.
    repeat (apply Forall_cons;
            [apply prime_by_gcd; [lia | vm_compute; reflexivity]|]).
    apply Forall_nil.
Qed.

Lemma C3_oracle_contracts_witness :
  1 < 2 /\ 3 < 10 /\ Z.even 10 = true /\
  isPrimeWith RawBrent.bases 1 = false /\
  isPrimeWith MatrixBrent.bases 10 = false.
Proof.
  split; [lia|]. split; [lia|]. split; [reflexivity|]. split.
  - apply (proj1 (proj2 (proj2 (proj1 C3_oracle_contracts)) 1)). lia.
  - apply (proj1 (proj2 (proj2 (proj2 (proj2 (proj2 C3_oracle_contracts))
                                  10))));
      [lia | reflexivity].
Defined.

(** C4, as stated, fails on an ordinary input when a round of the
    coordinator ends without a factor.  For [1798 = 2 * 29 * 31] and a
    round in which no message arrives before the timer, the revision with
    the basis up to 23 returns [[2, 899]]: [899 = 29 * 31] does not pass
    the oracle, the array carries no mark, and the report is [SEMIPRIME]
    with both numbers shown as factors.  The revision with the basis up
    to 37 does the same on [3526 = 2 * 41 * 43].  The claim also fails at
    [n = 1], where the array is [[1]] and the report is [UNIT]. *)
Lemma C4_primality_agreement_counterexample :
  (RawBrent.factorizeAsync sample_A1 8 100 1798 [[]] = Some [2; 899] /\
   RawBrent.isPrime 899 = false /\
   RawAnalysis.analyzeNumber sample_A1 8 false 100 1798 [[]]
     = Some (mkReport SEMIPRIME [2; 899] UNSTABLE) /\
   primalityStatus (mkReport SEMIPRIME [2; 899] UNSTABLE) = FAILED_COMPOSITE /\
   factorDisplay (mkReport SEMIPRIME [2; 899] UNSTABLE)
     = ShowFactors [2; 899] /\
   ~ agreement_unless_flagged RawBrent.isPrime
       (RawAnalysis.analyzeNumber sample_A1 8) 1798) /\
  (MatrixBrent.factorizeAsync sample_A1 8 100 3526 [[]] = Some [2; 1763] /\
   MatrixBrent.isPrime 1763 = false /\
   MatrixAnalysis.analyzeNumber sample_A1 8 false 100 3526 [[]]
     = Some (mkReport SEMIPRIME [2; 1763] UNSTABLE) /\
   ~ agreement_unless_flagged MatrixBrent.isPrime
       (MatrixAnalysis.analyzeNumber sample_A1 8) 3526) /\
  (RawBrent.factorizeAsync sample_A1 8 0 1 [] = Some [1] /\
   RawBrent.isPrime 1 = false /\
   ~ agreement_unless_flagged RawBrent.isPrime
       (RawAnalysis.analyzeNumber sample_A1 8) 1 /\
   ~ agreement_unless_flagged MatrixBrent.isPrime
       (MatrixAnalysis.analyzeNumber sample_A1 8) 1).
Proof.
  split; [|split].
  - split; [vm_compute; reflexivity|]. split; [vm_compute; reflexivity|].
    split; [vm_compute; reflexivity|]. split; [reflexivity|].
    split; [reflexivity|].
    apply (agreement_refuted RawBrent.isPrime
             (RawAnalysis.analyzeNumber sample_A1 8) 1798 false [[]]
             (RawAnalysis.verdict false 1798 [2; 899]) 899).
    + unfold RawAnalysis.analyzeNumber.
      apply (returns_map _ (RawAnalysis.verdict false 1798)).
      apply returns_from with 100%nat; [|vm_compute; reflexivity].
      intros f1 f2 r Hle. apply factorizeAsync_mono. exact Hle.
    + vm_compute. discriminate.
    + right. left. reflexivity.
    + vm_compute. reflexivity.
  - split; [vm_compute; reflexivity|]. split; [vm_compute; reflexivity|].
    split; [vm_compute; reflexivity|].
    apply (agreement_refuted MatrixBrent.isPrime
             (MatrixAnalysis.analyzeNumber sample_A1 8) 3526 false [[]]
             (MatrixAnalysis.verdict false 3526 [2; 1763]) 1763).
    + unfold MatrixAnalysis.analyzeNumber.
      apply (returns_map _ (MatrixAnalysis.verdict false 3526)).
      apply returns_from with 100%nat; [|vm_compute; reflexivity].
      intros f1 f2 r Hle. apply factorizeAsync_mono. exact Hle.
    + vm_compute. discriminate.
    + right. left. reflexivity.
    + vm_compute. reflexivity.
  - split; [reflexivity|]. split; [reflexivity|]. split.
    + apply (agreement_refuted RawBrent.isPrime
               (RawAnalysis.analyzeNumber sample_A1 8) 1 false []
               (RawAnalysis.verdict false 1 [1]) 1).
      * exists 0%nat. intros fuel _. reflexivity.
      * vm_compute. discriminate.
      * left. reflexivity.
      * reflexivity.
    + apply (agreement_refuted MatrixBrent.isPrime
               (MatrixAnalysis.analyzeNumber sample_A1 8) 1 false []
               (MatrixAnalysis.verdict false 1 [1]) 1).
      * exists 0%nat. intros fuel _. reflexivity.
      * vm_compute. discriminate.
      * left. reflexivity.
      * reflexivity.
Qed.

(** C4, amended: for every input [n >= 2], every factor in the returned
    array passes [isPrime], except the cofactors that the coordinator
    could not split: a returned factor that does not pass [isPrime] is the
    cofactor of an iteration of the deep loop of this run in which
    [findFactorParallel] returned [0] or the cofactor itself.  Such a
    cofactor is appended to the output as it is, by the failure branch;
    nothing is queued for it.  Both revisions. *)
Theorem C4_primality_agreement_amended
    (A1 : list (list Z)) (hardwareConcurrency n : Z) :
  2 <= n ->
  (primality_agreement RawBrent.Arrival RawBrent.isPrime
     (RawBrent.findFactorParallel A1 hardwareConcurrency)
     RawBrent.sieve
     (RawBrent.deep_step A1 hardwareConcurrency)
     (RawBrent.factorizeAsync A1 hardwareConcurrency) n /\
   failure_appends RawBrent.Arrival RawBrent.isPrime
     (RawBrent.findFactorParallel A1 hardwareConcurrency)
     (RawBrent.deep_step A1 hardwareConcurrency)) /\
  (primality_agreement MatrixBrent.Arrival MatrixBrent.isPrime
     (MatrixBrent.findFactorParallel A1 hardwareConcurrency)
     MatrixBrent.sieve
     (MatrixBrent.deep_step A1 hardwareConcurrency)
     (MatrixBrent.factorizeAsync A1 hardwareConcurrency) n /\
   failure_appends MatrixBrent.Arrival MatrixBrent.isPrime
     (MatrixBrent.findFactorParallel A1 hardwareConcurrency)
     (MatrixBrent.deep_step A1 hardwareConcurrency)).
Proof.
  intros Hn. split; split.
  - apply primality_agreement_holds;
      [exact RawBrent_smallBasis_ge2 | exact RawBrent_smallBasis_prime
      | apply RawBrent_answer_sound | exact Hn].
  - apply failure_appends_holds.
  - apply primality_agreement_holds;
      [exact MatrixBrent_smallBasis_ge2 | exact MatrixBrent_smallBasis_prime
      | apply MatrixBrent_answer_sound | exact Hn].
  - apply failure_appends_holds.
Qed.

Lemma C4_primality_agreement_witness :
  2 <= 1798 /\
  (primality_agreement RawBrent.Arrival RawBrent.isPrime
     (RawBrent.findFactorParallel sample_A1 8)
     RawBrent.sieve
     (RawBrent.deep_step sample_A1 8)
     (RawBrent.factorizeAsync sample_A1 8) 1798 /\
   failure_appends RawBrent.Arrival RawBrent.isPrime
     (RawBrent.findFactorParallel sample_A1 8)
     (RawBrent.deep_step sample_A1 8)) /\
  (primality_agreement MatrixBrent.Arrival MatrixBrent.isPrime
     (MatrixBrent.findFactorParallel sample_A1 8)
     MatrixBrent.sieve
     (MatrixBrent.deep_step sample_A1 8)
     (MatrixBrent.factorizeAsync sample_A1 8) 1798 /\
   failure_appends MatrixBrent.Arrival MatrixBrent.isPrime
     (MatrixBrent.findFactorParallel sample_A1 8)
     (MatrixBrent.deep_step sample_A1 8)).
Proof.
  split; [lia | apply (C4_primality_agreement_amended sample_A1 8 1798); lia].
Defined.

(** C5. Failure of a round: for an odd [n] that the oracle rejects (the
    lanes are started only then), [findFactorParallel] returns [0], an
    ordinary value, when no message with a factor arrives before the one
    timer of the round fires, whether the lanes posted [null] or were
    still running; and when all [workerCount] lanes have posted [null] the
    promise is settled with [0] by the last message, before the timer.
    Both revisions. *)
Theorem C5_coordinator_failure (A1 : list (list Z)) (hardwareConcurrency n : Z) :
  Z.odd n = true ->
  (RawBrent.isPrime n = false ->
   failure_is_zero RawBrent.Arrival (RawBrent.answer A1)
     (RawBrent.workerCount hardwareConcurrency)
     (RawBrent.race A1 hardwareConcurrency)
     (RawBrent.findFactorParallel A1 hardwareConcurrency) n) /\
  (MatrixBrent.isPrime n = false ->
   failure_is_zero MatrixBrent.Arrival (MatrixBrent.answer A1)
     (MatrixBrent.workerCount hardwareConcurrency)
     (MatrixBrent.race A1 hardwareConcurrency)
     (MatrixBrent.findFactorParallel A1 hardwareConcurrency) n).
Proof.
  intros Hodd. apply odd_rem in Hodd. split; intros Hprime.
  - apply failure_is_zero_holds;
      [apply RawBrent_workerCount_pos | exact Hodd | exact Hprime].
  - apply failure_is_zero_holds;
      [apply MatrixBrent_workerCount_pos | exact Hodd | exact Hprime].
Qed.

Lemma C5_coordinator_failure_witness :
  Z.odd 899 = true /\
  RawBrent.isPrime 899 = false /\ MatrixBrent.isPrime 899 = false /\
  failure_is_zero RawBrent.Arrival (RawBrent.answer sample_A1)
    (RawBrent.workerCount 8) (RawBrent.race sample_A1 8)
    (RawBrent.findFactorParallel sample_A1 8) 899 /\
  failure_is_zero MatrixBrent.Arrival (MatrixBrent.answer sample_A1)
    (MatrixBrent.workerCount 8) (MatrixBrent.race sample_A1 8)
    (MatrixBrent.findFactorParallel sample_A1 8) 899.
Proof.
  assert (Hodd : Z.odd 899 = true) by reflexivity.
  assert (Hraw : RawBrent.isPrime 899 = false) by (vm_compute; reflexivity).
  assert (Hmat : MatrixBrent.isPrime 899 = false) by (vm_compute; reflexivity).
  split; [exact Hodd|]. split; [exact Hraw|]. split; [exact Hmat|].
  split.
  - exact (proj1 (C5_coordinator_failure sample_A1 8 899 Hodd) Hraw).
  - exact (proj2 (C5_coordinator_failure sample_A1 8 899 Hodd) Hmat).
Defined.

(** C6. Terminal cases: for every [n < 1] the engine returns the empty
    array, and for [n = 1] it returns [[1]]; in both cases it does so with
    no budget for any loop and whatever the rounds hold, that is, without
    entering the sieve or the deep loop and without consuming a round.
    Both revisions. *)
Theorem C6_terminal_cases
    (A1 : list (list Z)) (hardwareConcurrency n : Z) (fuel : nat) :
  n < 1 ->
  (forall rounds,
     RawBrent.factorizeAsync A1 hardwareConcurrency fuel n rounds = Some [] /\
     RawBrent.factorizeAsync A1 hardwareConcurrency fuel 1 rounds = Some [1]) /\
  (forall rounds,
     MatrixBrent.factorizeAsync A1 hardwareConcurrency fuel n rounds
       = Some [] /\
     MatrixBrent.factorizeAsync A1 hardwareConcurrency fuel 1 rounds
       = Some [1]).
Proof.
  intros Hn. split; intros rounds; split;
    (apply base_case_below_one; exact Hn) || apply base_case_one.
Qed.

Lemma C6_terminal_cases_witness :
  0 < 1 /\
  (forall rounds,
     RawBrent.factorizeAsync sample_A1 8 0 0 rounds = Some [] /\
     RawBrent.factorizeAsync sample_A1 8 0 1 rounds = Some [1]) /\
  (forall rounds,
     MatrixBrent.factorizeAsync sample_A1 8 0 0 rounds = Some [] /\
     MatrixBrent.factorizeAsync sample_A1 8 0 1 rounds = Some [1]).
Proof.
  split; [lia | apply (C6_terminal_cases sample_A1 8 0 0); lia].
Defined.

(** C7. The sieve: both bases are initial segments of the primes up to 37
    (up to 23 in one revision, up to 37 in the other), and for every
    [n >= 2] the sieve terminates with small factors taken from the basis
    and a residual that is 1 or larger, is divisible by no prime of the
    basis, and satisfies [product(smallFactors) * residual = n]; the
    residual is queued exactly when it exceeds 1. *)
Theorem C7_sieve_contracts (n : Z) :
  2 <= n ->
  (sieve_contract RawBrent.smallBasis n /\
   sieve_contract MatrixBrent.smallBasis n) /\
  RawBrent.smallBasis = firstn 9 primes_to_37 /\
  MatrixBrent.smallBasis = firstn 12 primes_to_37 /\
  Forall prime primes_to_37.
Proof.
  intros Hn. split; [split|].
  - apply sieve_contract_holds; [exact RawBrent_smallBasis_ge2 | lia].
  - apply sieve_contract_holds; [exact MatrixBrent_smallBasis_ge2 | lia].
  - split; [reflexivity|]. split; [reflexivity|]. exact primes_to_37_prime.
Qed.

Lemma C7_sieve_contracts_witness :
  2 <= 3596 /\
  (sieve_contract RawBrent.smallBasis 3596 /\
   sieve_contract MatrixBrent.smallBasis 3596) /\
  RawBrent.smallBasis = firstn 9 primes_to_37 /\
  MatrixBrent.smallBasis = firstn 12 primes_to_37 /\
  Forall prime primes_to_37.
Proof.
  split; [lia | apply (C7_sieve_contracts 3596); lia].
Defined.

(** C8. Ordered output: for every input and every course of the rounds
    the returned array is in ascending order.  Both revisions. *)
Theorem C8_ordered_output (A1 : list (list Z)) (hardwareConcurrency n : Z) :
  sorted_output RawBrent.Arrival
    (RawBrent.factorizeAsync A1 hardwareConcurrency) n /\
  sorted_output MatrixBrent.Arrival
    (MatrixBrent.factorizeAsync A1 hardwareConcurrency) n.
Proof.
  split.
  - apply sorted_output_holds;
      [exact RawBrent_smallBasis_ge2 | apply RawBrent_answer_sound].
  - apply sorted_output_holds;
      [exact MatrixBrent_smallBasis_ge2 | apply MatrixBrent_answer_sound].
Qed.

(** C9. Lane purity: the outcome of a lane is determined by [n] and the
    lane's parameters alone.  Two runs of [solveRawBrent], of the worker's
    message handler with [solveRawBrent], or of the message handler that
    walks a column, on the same [n] and the same parameters, that both
    finish, under whatever step budgets, produce the same outcome; and for
    every target above 1 (every composite in particular) and all
    parameters, either message handler does finish and post its one
    message. *)
Theorem C9_lane_purity (n : Z) (fuel1 fuel2 : nat) :
  (forall constantC startY g1 g2,
     RawKernel.solveRawBrent fuel1 n constantC startY = Some g1 ->
     RawKernel.solveRawBrent fuel2 n constantC startY = Some g2 ->
     g1 = g2) /\
  (forall startC seedVal message1 message2,
     RawKernel.onmessage fuel1 n startC seedVal = Some message1 ->
     RawKernel.onmessage fuel2 n startC seedVal = Some message2 ->
     message1 = message2) /\
  (forall columnData seedVal message1 message2,
     MatrixKernel.onmessage fuel1 n columnData seedVal = Some message1 ->
     MatrixKernel.onmessage fuel2 n columnData seedVal = Some message2 ->
     message1 = message2) /\
  (1 < n ->
   (forall startC seedVal, exists message,
      returns (fun fuel => RawKernel.onmessage fuel n startC seedVal)
        message) /\
   (forall columnData seedVal, exists message,
      returns (fun fuel => MatrixKernel.onmessage fuel n columnData seedVal)
        message)).
Proof.
  assert (H1 : (fuel1 <= Nat.max fuel1 fuel2)%nat) by lia.
  assert (H2 : (fuel2 <= Nat.max fuel1 fuel2)%nat) by lia.
  split; [|split; [|split]].
  - intros c y g1 g2 Hg1 Hg2.
    apply (solveRawBrent_mono _ _ H1) in Hg1.
    apply (solveRawBrent_mono _ _ H2) in Hg2. congruence.
  - intros c y m1 m2 Hm1 Hm2.
    apply (RawKernel_onmessage_mono _ _ H1) in Hm1.
    apply (RawKernel_onmessage_mono _ _ H2) in Hm2. congruence.
  - intros c y m1 m2 Hm1 Hm2.
    apply (MatrixKernel_onmessage_mono _ _ H1) in Hm1.
    apply (MatrixKernel_onmessage_mono _ _ H2) in Hm2. congruence.
  - intros Hn. split.
    + intros startC seedVal. apply RawKernel_onmessage_total. exact Hn.
    + intros columnData seedVal. apply MatrixKernel_onmessage_total.
      exact Hn.
Qed.

Lemma C9_lane_purity_witness :
  RawKernel.solveRawBrent 40 899 1 2 = Some 31 /\
  RawKernel.solveRawBrent 90 899 1 2 = Some 31 /\
  RawKernel.onmessage 40 899 1 2 = Some (Some 31) /\
  RawKernel.onmessage 90 899 1 2 = Some (Some 31) /\
  MatrixKernel.onmessage 40 1763 [1; 3] 7 = Some (Some 43) /\
  MatrixKernel.onmessage 90 1763 [1; 3] 7 = Some (Some 43) /\
  1 < 899 /\
  31 = 31 /\ Some 31 = Some 31 /\ Some 43 = Some 43 /\
  (exists message,
     returns (fun fuel => RawKernel.onmessage fuel 899 1 2) message) /\
  (exists message,
     returns (fun fuel => MatrixKernel.onmessage fuel 899 [1; 3] 7) message).
Proof.
  assert (Ha : RawKernel.solveRawBrent 40 899 1 2 = Some 31)
    by (vm_compute; reflexivity).
  assert (Hb : RawKernel.solveRawBrent 90 899 1 2 = Some 31)
    by (vm_compute; reflexivity).
  assert (Hc : RawKernel.onmessage 40 899 1 2 = Some (Some 31))
    by (vm_compute; reflexivity).
  assert (Hd : RawKernel.onmessage 90 899 1 2 = Some (Some 31))
    by (vm_compute; reflexivity).
  assert (He : MatrixKernel.onmessage 40 1763 [1; 3] 7 = Some (Some 43))
    by (vm_compute; reflexivity).
  assert (Hf : MatrixKernel.onmessage 90 1763 [1; 3] 7 = Some (Some 43))
    by (vm_compute; reflexivity).
  assert (Hn : 1 < 899) by lia.
  repeat (split; [assumption|]).
  split; [|split; [|split; [|split]]].
  - exact (proj1 (C9_lane_purity 899 40 90) 1 2 31 31 Ha Hb).
  - exact (proj1 (proj2 (C9_lane_purity 899 40 90))
             1 2 (Some 31) (Some 31) Hc Hd).
  - exact (proj1 (proj2 (proj2 (C9_lane_purity 1763 40 90))) [1; 3] 7
             (Some 43) (Some 43) He Hf).
  - exact (proj1 (proj2 (proj2 (proj2 (C9_lane_purity 899 40 90))) Hn) 1 2).
  - exact (proj2 (proj2 (proj2 (proj2 (C9_lane_purity 899 40 90))) Hn)
             [1; 3] 7).
Defined.

(** C10. For every input [n >= 2] and every course of the rounds, every
    returned factor is at least 2: the value 1 is returned only as the
    whole output for [n = 1].  Both revisions. *)
Theorem C10_no_unit_factor (A1 : list (list Z)) (hardwareConcurrency n : Z) :
  2 <= n ->
  factors_at_least_two RawBrent.Arrival
    (RawBrent.factorizeAsync A1 hardwareConcurrency) n /\
  factors_at_least_two MatrixBrent.Arrival
    (MatrixBrent.factorizeAsync A1 hardwareConcurrency) n.
Proof.
  intros Hn. split.
  - apply factors_at_least_two_holds;
      [exact RawBrent_smallBasis_ge2 | apply RawBrent_answer_sound | exact Hn].
  - apply factors_at_least_two_holds;
      [exact MatrixBrent_smallBasis_ge2 | apply MatrixBrent_answer_sound
      | exact Hn].
Qed.

Lemma C10_no_unit_factor_witness :
  2 <= 899 /\
  factors_at_least_two RawBrent.Arrival
    (RawBrent.factorizeAsync sample_A1 8) 899 /\
  factors_at_least_two MatrixBrent.Arrival
    (MatrixBrent.factorizeAsync sample_A1 8) 899.
Proof.
  split; [lia | apply (C10_no_unit_factor sample_A1 8 899); lia].
Defined.

(** * Further properties of the code *)

(** ** The oracle never rejects a prime *)

Lemma fermat_little n a :
  prime n -> 0 < a < n -> a ^ (n - 1) mod n = 1.
Proof.
  intros Hp Ha. apply ZmodInv.Z.fermat_nz; [apply prime_alt; exact Hp|].
  rewrite Z.mod_small by lia. lia.
Qed.

Lemma sqrt_one_mod_prime n y :
  prime n -> (y * y) mod n = 1 -> y mod n = 1 \/ y mod n = n - 1.
Proof.
  intros Hp Hsq. assert (Hn : 1 < n) by (destruct Hp; assumption).
  assert (Hdiv : (n | (y - 1) * (y + 1))).
  { apply Z.mod_divide; [lia|].
    replace ((y - 1) * (y + 1)) with (y * y - 1) by ring.
    rewrite Zminus_mod, Hsq, Z.mod_1_l by lia. reflexivity. }
  apply Z.divide_prime_mul in Hdiv; [|apply prime_alt; exact Hp].
  destruct Hdiv as [[k Hk] | [k Hk]].
  - left. replace y with (1 + k * n) by lia.
    rewrite Z.mod_add, Z.mod_1_l by lia. reflexivity.
  - right. replace y with ((n - 1) + (k - 1) * n) by lia.
    rewrite Z.mod_add, Z.mod_small by lia. reflexivity.
Qed.

Lemma prime_passes n d s a :
  prime n -> 0 <= d -> 0 <= s -> n - 1 = d * 2 ^ s -> 0 < a < n ->
  OracleSpec.passes n d s a.
Proof.
  intros Hp Hd Hs Hn Ha.
  assert (Hstep : forall k : nat,
            a ^ (d * 2 ^ Z.of_nat k) mod n = 1 ->
            a ^ d mod n = 1 \/ a ^ d mod n = n - 1 \/
            exists r, 1 <= r <= Z.of_nat k - 1 /\
                      a ^ (d * 2 ^ r) mod n = n - 1).
  { induction k as [|k IH]; intros Hone.
    - left. rewrite Z.pow_0_r, Z.mul_1_r in Hone. exact Hone.
    - replace (d * 2 ^ Z.of_nat (S k)) with (d * 2 ^ Z.of_nat k + d * 2 ^ Z.of_nat k)
        in Hone.
      2:{ rewrite Nat2Z.inj_succ, Z.pow_succ_r by lia. ring. }
      assert (H2k : 0 <= 2 ^ Z.of_nat k) by (apply Z.pow_nonneg; lia).
      rewrite Z.pow_add_r in Hone by nia.
      apply (sqrt_one_mod_prime n _ Hp) in Hone.
      destruct Hone as [Hone | Hminus].
      + destruct (IH Hone) as [H | [H | [r [Hr H]]]]; [auto | auto |].
        right; right. exists r. split; [lia | exact H].
      + destruct k as [|k].
        * right; left. rewrite Z.pow_0_r, Z.mul_1_r in Hminus. exact Hminus.
        * right; right. exists (Z.of_nat (S k)). split; [lia | exact Hminus]. }
  specialize (Hstep (Z.to_nat s)). rewrite Z2Nat.id in Hstep by lia.
  apply Hstep. rewrite <- Hn. apply fermat_little; assumption.
Qed.

Lemma prime_accepted n d s bases :
  prime n -> 0 <= d -> 0 <= s -> n - 1 = d * 2 ^ s ->
  Forall (fun a => 0 < a) bases ->
  OracleSpec.accepts n d s bases.
Proof.
  intros Hp Hd Hs Hn Hpos.
  induction Hpos as [|a rest Ha _ IH]; [constructor|].
  destruct (Z_lt_le_dec a n) as [Hlt | Hle].
  - apply OracleSpec.accepts_next; [exact Hlt | | exact IH].
    apply prime_passes; try assumption. lia.
  - apply OracleSpec.accepts_stop. exact Hle.
Qed.

Lemma prime_odd n : prime n -> 2 < n -> Z.odd n = true.
Proof.
  intros Hp Hn. destruct (Z.odd n) eqn:Hodd; [reflexivity|].
  rewrite <- Z.negb_even in Hodd. apply negb_false_iff, Z.even_spec in Hodd.
  destruct Hodd as [k Hk]. destruct Hp as [_ Hrel].
  destruct (Hrel 2 ltac:(lia)) as [_ _ Hgcd].
  destruct (Hgcd 2) as [c Hc];
    [apply Z.divide_refl | exists k; lia | lia].
Qed.

(** Miller-Rabin is complete: with positive witnesses the oracle accepts
    every prime. *)
Lemma isPrimeWith_complete bases n :
  Forall (fun a => 0 < a) bases -> prime n -> isPrimeWith bases n = true.
Proof.
  intros Hpos Hp.
  assert (Hn : 1 < n) by (destruct Hp; assumption).
  apply isPrimeWith_spec.
  { eapply Forall_impl; [|exact Hpos]. cbv beta. intros; lia. }
  unfold OracleSpec.isPrime.
  destruct (Z.eq_dec n 2) as [|Hn2]; [auto|].
  destruct (Z.eq_dec n 3) as [|Hn3]; [auto|].
  right; right.
  assert (Hodd : Z.odd n = true) by (apply prime_odd; [assumption | lia]).
  assert (Hn4 : n <> 4) by (intros ->; discriminate).
  split; [lia|]. split; [exact Hodd|].
  destruct (n - 1) as [|p|p] eqn:Hp1; [lia | | lia].
  pose proof (decompose_spec p 0 ltac:(lia)) as Hdec.
  destruct (decompose p 0) as [d s]. destruct Hdec as (Hs & Hd & Heq).
  rewrite Z.pow_0_r, Z.mul_1_r in Heq.
  assert (H2s : 0 < 2 ^ s) by (apply Z.pow_pos_nonneg; lia).
  exists d, s. split; [exact Hs|]. split; [lia|]. split; [exact Hd|].
  apply prime_accepted; try assumption; nia.
Qed.

(** ** What the oracle accepts has no tested divisor *)

Lemma accepts_tested n d s bases :
  StronglySorted Z.lt bases -> OracleSpec.accepts n d s bases ->
  forall p, In p bases -> p < n -> OracleSpec.passes n d s p.
Proof.
  intros Hsorted Hacc. induction Hacc as [| a rest Hle | a rest Hlt Hpass Hacc IH];
    intros p Hin Hp.
  - destruct Hin.
  - exfalso. apply StronglySorted_inv in Hsorted. destruct Hsorted as [_ Hall].
    destruct Hin as [-> | Hin]; [lia|].
    rewrite Forall_forall in Hall. specialize (Hall p Hin). lia.
  - apply StronglySorted_inv in Hsorted. destruct Hsorted as [Hsorted _].
    destruct Hin as [-> | Hin]; [exact Hpass|].
    apply IH; assumption.
Qed.

Lemma unit_power_coprime n a e g :
  1 < n -> 1 <= e -> a ^ e mod n = 1 \/ a ^ e mod n = n - 1 ->
  (g | a) -> (g | n) -> (g | 1).
Proof.
  intros Hn He Hpow Hga Hgn.
  assert (Hgp : (g | a ^ e)).
  { replace e with (1 + (e - 1)) by lia.
    rewrite Z.pow_add_r, Z.pow_1_r by lia. apply Z.divide_mul_l. exact Hga. }
  assert (Hgm : (g | a ^ e mod n)).
  { rewrite Z.mod_eq by lia. apply Z.divide_sub_r; [exact Hgp|].
    apply Z.divide_mul_l. exact Hgn. }
  destruct Hpow as [H | H]; rewrite H in Hgm; [exact Hgm|].
  replace 1 with (n - (n - 1)) by ring. apply Z.divide_sub_r; assumption.
Qed.

Lemma passes_coprime n d s a g :
  1 < n -> 1 <= d -> OracleSpec.passes n d s a ->
  (g | a) -> (g | n) -> (g | 1).
Proof.
  intros Hn Hd Hpass. destruct Hpass as [H | [H | [r [Hr H]]]].
  - apply (unit_power_coprime n a d); auto.
  - apply (unit_power_coprime n a d); auto.
  - apply (unit_power_coprime n a (d * 2 ^ r)); auto.
    assert (0 < 2 ^ r) by (apply Z.pow_pos_nonneg; lia). nia.
Qed.

(** A number that the oracle accepts is divisible by none of the
    witnesses, itself apart. *)
Lemma accepted_no_witness_divides bases n p :
  StronglySorted Z.lt bases -> Forall (fun a => 1 < a) bases ->
  isPrimeWith bases n = true -> In p bases -> (p | n) -> p = n.
Proof.
  intros Hsorted Hbig Hacc Hin Hdiv.
  assert (Hp : 1 < p) by (rewrite Forall_forall in Hbig; auto).
  apply isPrimeWith_spec in Hacc.
  2:{ eapply Forall_impl; [|exact Hbig]. cbv beta. intros; lia. }
  assert (Hn : 1 < n).
  { destruct Hacc as [-> | [-> | [H _]]]; lia. }
  assert (Hle : p <= n) by (apply Z.divide_pos_le; [lia | exact Hdiv]).
  destruct (Z.eq_dec p n) as [|Hne]; [assumption|]. exfalso.
  destruct Hacc as [-> | [-> | (Hn3 & Hodd & d & s & Hs & Hds & Hd & Hacc)]].
  - lia.
  - assert (p = 2) by lia. subst p. destruct Hdiv as [k Hk]. lia.
  - assert (H2s : 0 < 2 ^ s) by (apply Z.pow_pos_nonneg; lia).
    assert (Hd1 : 1 <= d) by nia.
    pose proof (accepts_tested n d s bases Hsorted Hacc p Hin ltac:(lia)) as Hpass.
    pose proof (passes_coprime n d s p p ltac:(lia) Hd1 Hpass
                  (Z.divide_refl p) Hdiv) as H1.
    apply Z.divide_pos_le in H1; lia.
Qed.

(** Trial division: a number below [bound * bound] that no element of
    [basis] divides properly is prime, as soon as [basis] covers the
    numbers below [bound]. *)
Lemma trial_division_prime basis bound n :
  covers basis bound = true -> 0 <= bound ->
  1 < n < bound * bound ->
  (forall p, In p basis -> (p | n) -> p = n) ->
  prime n.
Proof.
  intros Hcov Hbound Hn Hbasis.
  assert (Hsmall : forall a, 1 < a < bound -> (a | n) -> a = n).
  { intros a Ha Hdiv. unfold covers in Hcov. rewrite forallb_forall in Hcov.
    specialize (Hcov (Z.to_nat a)). rewrite Z2Nat.id in Hcov by lia.
    assert (Hin : In (Z.to_nat a) (seq 2 (Z.to_nat bound - 2)))
      by (apply in_seq; lia).
    apply Hcov, existsb_exists in Hin. destruct Hin as (p & Hp & Hpa).
    apply andb_true_iff in Hpa. destruct Hpa as [Hp1 Hrem].
    apply Z.ltb_lt in Hp1. apply Z.eqb_eq in Hrem.
    apply Z.rem_divide in Hrem; [|lia].
    assert (Hpn : p = n).
    { apply Hbasis; [exact Hp|]. eapply Z.divide_trans; eassumption. }
    apply Z.divide_pos_le in Hrem; [|lia].
    apply Z.divide_pos_le in Hdiv; lia. }
  apply prime_intro; [lia|]. intros k Hk.
  constructor; try apply Z.divide_1_l. intros x Hxk Hxn.
  assert (Hx0 : x <> 0).
  { intros ->. apply Z.divide_0_l in Hxn. lia. }
  assert (Habs : (Z.abs x | n)) by (apply Z.divide_abs_l; exact Hxn).
  assert (Hle : Z.abs x <= k).
  { apply Z.divide_pos_le; [lia|]. apply Z.divide_abs_l. exact Hxk. }
  destruct (Z.eq_dec (Z.abs x) 1) as [H1 | H1].
  { apply Z.divide_abs_l. rewrite H1. apply Z.divide_refl. }
  exfalso.
  destruct Habs as [c Hc].
  assert (Hc1 : 1 < c) by nia.
  destruct (Z_lt_le_dec (Z.abs x) bound) as [Hlt | Hge].
  - assert (Z.abs x = n); [|lia].
    apply Hsmall; [lia|]. exists c. exact Hc.
  - assert (Hcb : c < bound).
    { destruct (Z_lt_le_dec c bound) as [|Hcb]; [assumption|].
      assert (bound * bound <= c * Z.abs x)
        by (apply Z.mul_le_mono_nonneg; lia).
      lia. }
    assert (c = n); [|nia].
    apply Hsmall; [lia|]. exists (Z.abs x). lia.
Qed.

(** ** Inputs that the oracle accepts *)

Lemma product_ge_1 l : Forall (fun q => 2 <= q) l -> 1 <= product l.
Proof.
  induction 1 as [|q l Hq _ IH]; [cbv; discriminate|].
  change (product (q :: l)) with (q * product l). nia.
Qed.

Lemma product_one l : Forall (fun q => 2 <= q) l -> product l = 1 -> l = [].
Proof.
  intros Hl Hprod. destruct l as [|q l]; [reflexivity|]. exfalso.
  inversion Hl as [|? ? Hq Hrest]; subst.
  pose proof (product_ge_1 l Hrest).
  change (product (q :: l)) with (q * product l) in Hprod. nia.
Qed.

Lemma sort_singleton x : sort [x] = [x].
Proof. reflexivity. Qed.

Section AcceptedInputs.

Import Architect.

Variable bases : list Z.
Variable smallBasis : list Z.
Variable Arrival : Type.
Variable answer : Z -> Arrival -> option (option Z).
Variable workerCount : Z.

Hypothesis smallBasis_ge2 : Forall (fun p => 2 <= p) smallBasis.
Hypothesis answer_sound : forall n a g,
  answer n a = Some (Some g) -> 1 < g < n /\ (g | n).
Hypothesis bases_sorted : StronglySorted Z.lt bases.
Hypothesis bases_gt1 : Forall (fun a => 1 < a) bases.
Hypothesis smallBasis_tested : incl smallBasis bases.

Let isPrime := isPrime bases.
Let sieve := sieve smallBasis.
Let deep_step := deep_step bases Arrival answer workerCount.
Let factorizeAsync := factorizeAsync bases smallBasis Arrival answer workerCount.

(** An input that the oracle accepts comes back alone, whatever the
    rounds: the sieve strips it when it is in the basis, and leaves it
    whole otherwise, for the deep loop to push it at once. *)
Lemma accepted_returned_alone n rounds :
  isPrime n = true ->
  returns (fun fuel => factorizeAsync fuel n rounds) [n].
Proof.
  intros Hacc.
  assert (Hn : 2 <= n).
  { unfold isPrime, Architect.isPrime, isPrimeWith in Hacc.
    destruct (Z.ltb_spec n 2); [discriminate | assumption]. }
  apply returns_from with (fuel0 := S (S (Z.to_nat n))).
  { intros f1 f2 r Hle. apply factorizeAsync_mono. exact Hle. }
  destruct (sieve_total smallBasis smallBasis_ge2 (S (S (Z.to_nat n))) n
              ltac:(lia) ltac:(lia))
    as (fs & temp & Hsieve & Htemp & Hprod & Hin & Hrem).
  unfold factorizeAsync, Architect.factorizeAsync.
  destruct (Z.ltb_spec n 1); [lia|]. destruct (Z.eqb_spec n 1); [lia|].
  rewrite Hsieve. cbn [bind].
  assert (Hfs2 : Forall (fun q => 2 <= q) fs).
  { rewrite Forall_forall in *. intros q Hq. apply smallBasis_ge2, Hin, Hq. }
  destruct fs as [|p fs].
  - change (product []) with 1 in Hprod.
    assert (temp = n) by lia. subst temp.
    destruct (Z.gtb_spec n 1); [|lia].
    cbn [while queue_nonempty fst snd length Nat.eqb negb].
    unfold Architect.deep_step at 1.
    change (pop [n]) with (Some (n, @nil Z)). cbn [bind].
    fold isPrime. rewrite Hacc.
    cbn [while queue_nonempty fst snd length Nat.eqb negb bind].
    reflexivity.
  - change (product (p :: fs)) with (p * product fs) in Hprod.
    assert (Hpn : p = n).
    { apply (accepted_no_witness_divides bases); try assumption.
      - apply smallBasis_tested. apply (Forall_inv Hin).
      - exists (product fs * temp). lia. }
    subst p. apply Forall_inv_tail in Hfs2.
    pose proof (product_ge_1 fs Hfs2) as Hge.
    assert (Hboth : product fs * temp = 1).
    { apply (Z.mul_reg_l _ _ n); [lia|]. lia. }
    assert (Hone : product fs = 1) by nia.
    assert (temp = 1) by nia. subst temp.
    apply product_one in Hone; [|assumption]. subst fs.
    cbn [Z.gtb Z.compare while queue_nonempty fst snd length Nat.eqb negb bind].
    reflexivity.
Qed.

End AcceptedInputs.

(** ** What the sieve leaves for the deep loop *)

Section ResidualFacts.

Import Architect.

Variable bases : list Z.
Variable smallBasis : list Z.
Variable Arrival : Type.
Variable answer : Z -> Arrival -> option (option Z).
Variable workerCount : Z.

Hypothesis smallBasis_ge2 : Forall (fun p => 2 <= p) smallBasis.
Hypothesis answer_sound : forall n a g,
  answer n a = Some (Some g) -> 1 < g < n /\ (g | n).

Let isPrime := isPrime bases.
Let findFactorParallel := findFactorParallel bases Arrival answer workerCount.
Let deep_step := deep_step bases Arrival answer workerCount.
Let factorizeAsync := factorizeAsync bases smallBasis Arrival answer workerCount.

Lemma deep_step_residual R st st' :
  residual_inv smallBasis R st -> deep_step st = Some st' ->
  residual_inv smallBasis R st'.
Proof.
  destruct st as [[fs queue] rs]. intros [Hq Hfs] Hstep.
  unfold deep_step, Architect.deep_step in Hstep.
  bind_inv Hstep. destruct a as [current rest].
  apply pop_some in Hrun. subst queue.
  apply Forall_app in Hq. destruct Hq as [Hrest Hcur].
  apply Forall_inv in Hcur.
  assert (Hkeep : forall rs' : list (list Arrival),
            residual_inv smallBasis R (push fs current, rest, rs')).
  { intros rs'. split; [assumption|]. apply Forall_push; auto. }
  destruct (Architect.isPrime bases current) eqn:Hprime.
  { inversion Hstep; subst. apply Hkeep. }
  destruct (next_round Arrival rs) as [arrivals rs'].
  bind_inv Hstep. rename a into factor.
  destruct ((factor =? 0) || (factor =? current)) eqn:Hfail.
  { inversion Hstep; subst. apply Hkeep. }
  inversion Hstep; subst. clear Hstep.
  apply orb_false_iff in Hfail. destruct Hfail as [H0 Hc].
  apply Z.eqb_neq in H0. apply Z.eqb_neq in Hc.
  assert (Hdiv : (factor | current)).
  { destruct (findFactorParallel_cases bases Arrival answer workerCount
                answer_sound current arrivals)
      as [v [Hv Hcases]].
    rewrite Hv in Hrun. inversion Hrun; subst v.
    destruct Hcases as [[Heven ->] | [(_ & _ & ->) | (_ & _ & [-> | [_ H]])]];
      [|congruence | congruence | exact H].
    apply Z.rem_divide; [lia | exact Heven]. }
  assert (Hquot : (Z.quot current factor | current)).
  { exists factor. apply Z.quot_exact; [assumption|].
    apply Z.rem_divide; assumption. }
  split; [|assumption].
  repeat apply Forall_push; try assumption;
    eapply Z.divide_trans; eassumption.
Qed.

Lemma residual_clean R factor :
  Forall (fun p => Z.rem R p <> 0) smallBasis ->
  In factor smallBasis \/ (factor | R) -> sieved_clean smallBasis factor.
Proof.
  intros Hrem [Hin | Hdiv]; [left; assumption | right].
  rewrite Forall_forall in *. intros p Hp Hpf.
  apply (Hrem p Hp). apply Z.rem_divide.
  - specialize (smallBasis_ge2 p Hp). cbv beta in smallBasis_ge2. lia.
  - eapply Z.divide_trans; eassumption.
Qed.

(** Every number in the result is a member of the basis or is divisible
    by no member of the basis. *)
Lemma engine_clean n rounds :
  exists out,
    returns (fun fuel => factorizeAsync fuel n rounds) out /\
    Forall (sieved_clean smallBasis) out.
Proof.
  destruct (Z_lt_le_dec n 2) as [Hsmall | Hn].
  { destruct (Z_lt_le_dec n 1) as [H0 | H1].
    - exists []. split; [|constructor]. exists 0%nat. intros fuel _.
      unfold factorizeAsync, Architect.factorizeAsync.
      destruct (Z.ltb_spec n 1); [reflexivity | lia].
    - assert (n = 1) by lia. subst n. exists [1]. split.
      + exists 0%nat. intros fuel _. reflexivity.
      + constructor; [|constructor]. right.
        rewrite Forall_forall in *. intros p Hp Hdiv.
        specialize (smallBasis_ge2 p Hp). cbv beta in smallBasis_ge2.
        apply Z.divide_pos_le in Hdiv; lia. }
  destruct (engine_run bases smallBasis Arrival answer workerCount
              smallBasis_ge2 answer_sound n rounds Hn)
    as (tagged & _ & Hret & _).
  exists (sort (map fst tagged)). split; [exact Hret|].
  destruct Hret as [fuel0 Hret].
  specialize (Hret (Nat.max fuel0 (Z.to_nat n)) ltac:(lia)).
  destruct (sieve_total smallBasis smallBasis_ge2
              (Nat.max fuel0 (Z.to_nat n)) n ltac:(lia) ltac:(lia))
    as (fs & temp & Hsieve & Htemp & Hprod & Hin & Hrem).
  unfold Architect.factorizeAsync in Hret.
  destruct (Z.ltb_spec n 1); [lia|]. destruct (Z.eqb_spec n 1); [lia|].
  rewrite Hsieve in Hret. cbn [bind] in Hret.
  bind_inv Hret. destruct a as [[factors queue] rs].
  inversion Hret as [Hout]. clear Hret.
  apply (while_inv queue_nonempty (residual_inv smallBasis temp)) in Hrun.
  - destruct Hrun as [[_ Hfactors] _].
    eapply Permutation_Forall; [apply Permutation_sym, sort_perm|].
    eapply Forall_impl; [|exact Hfactors].
    intros factor. apply residual_clean. exact Hrem.
  - intros s s' Hinv _. apply deep_step_residual. exact Hinv.
  - split.
    + destruct (temp >? 1); constructor; [apply Z.divide_refl | constructor].
    + eapply Forall_impl; [|exact Hin]. cbv beta. auto.
Qed.

End ResidualFacts.

(** ** The first factor settles the round *)

Section CoordinatorOrder.

Import Architect.

Variable bases : list Z.
Variable Arrival : Type.
Variable answer : Z -> Arrival -> option (option Z).
Variable workerCount : Z.

Hypothesis answer_sound : forall n a g,
  answer n a = Some (Some g) -> 1 < g < n /\ (g | n).

Let findFactorParallel := findFactorParallel bases Arrival answer workerCount.
Let race := race Arrival answer workerCount.
Let deliver := deliver Arrival answer.

(** Messages without a factor, fewer than there are workers, leave the
    promise open. *)
Lemma deliver_nulls n pre : forall aw,
  Forall (fun a => answer n a = Some None \/ answer n a = None) pre ->
  Z.of_nat (length pre) < aw ->
  exists aw', fold_left (deliver n) pre (mkPromise aw false None)
              = mkPromise aw' false None.
Proof.
  induction pre as [|a pre IH]; intros aw Hall Hlen.
  - exists aw. reflexivity.
  - inversion Hall as [|? ? Ha Hrest]; subst. cbn [length] in Hlen.
    cbn [fold_left]. unfold deliver at 2, Architect.deliver.
    destruct Ha as [-> | ->].
    + unfold onmessage, resolve. cbn [settled activeWorkers resolved negb].
      rewrite andb_true_r.
      destruct (Z.eqb_spec (aw - 1) 0) as [|_]; [lia|].
      apply IH; [assumption | lia].
    + apply IH; [assumption | lia].
Qed.

(** Once [resolved] is set, no message changes the promise. *)
Lemma deliver_resolved n post : forall p,
  resolved p = true -> fold_left (deliver n) post p = p.
Proof.
  induction post as [|a post IH]; intros p Hres; [reflexivity|].
  cbn [fold_left].
  assert (Hsame : deliver n p a = p).
  { unfold deliver, Architect.deliver.
    destruct (answer n a) as [factor|]; [|reflexivity].
    unfold onmessage. rewrite Hres. reflexivity. }
  rewrite Hsame. apply IH. exact Hres.
Qed.

Lemma race_first_factor n pre a post g :
  Forall (fun a' => answer n a' = Some None \/ answer n a' = None) pre ->
  Z.of_nat (length pre) < workerCount ->
  answer n a = Some (Some g) ->
  settled (race n (pre ++ a :: post)) = Some g /\
  settled (ontimeout (race n (pre ++ a :: post))) = Some g.
Proof.
  intros Hpre Hlen Ha.
  destruct (answer_sound n a g Ha) as [Hrange _].
  destruct (deliver_nulls n pre workerCount Hpre Hlen) as [aw Hfold].
  unfold race, Architect.race. rewrite fold_left_app. fold deliver.
  rewrite Hfold. cbn [fold_left].
  assert (Hwin : deliver n (mkPromise aw false None) a
                 = mkPromise aw true (Some g)).
  { unfold deliver, Architect.deliver. rewrite Ha.
    unfold onmessage, resolve. cbn [settled activeWorkers resolved].
    destruct (Z.eqb_spec g n); [lia|]. destruct (Z.eqb_spec g 1); [lia|].
    reflexivity. }
  rewrite Hwin, deliver_resolved by reflexivity.
  split; reflexivity.
Qed.

Lemma findFactorParallel_first_factor n pre a post g :
  Z.rem n 2 <> 0 -> isPrime bases n = false ->
  Forall (fun a' => answer n a' = Some None \/ answer n a' = None) pre ->
  Z.of_nat (length pre) < workerCount ->
  answer n a = Some (Some g) ->
  findFactorParallel n (pre ++ a :: post) = Some g.
Proof.
  intros Hodd Hprime Hpre Hlen Ha.
  unfold findFactorParallel, Architect.findFactorParallel.
  destruct (Z.eqb_spec (Z.rem n 2) 0); [contradiction|].
  rewrite Hprime.
  apply (race_first_factor n pre a post g); assumption.
Qed.

End CoordinatorOrder.

(** ** The input form *)

Lemma is_digit_spec u : is_digit u = true <-> 48 <= u <= 57.
Proof. unfold is_digit. rewrite andb_true_iff, !Z.leb_le. tauto. Qed.

Lemma all_digits_spec val :
  all_digits val = true <-> val <> [] /\ Forall (fun u => 48 <= u <= 57) val.
Proof.
  unfold all_digits. destruct val as [|u val].
  - split; [discriminate | intros [H _]; contradiction].
  - rewrite forallb_forall, Forall_forall. split.
    + intros H. split; [discriminate|].
      intros x Hx. apply is_digit_spec, H, Hx.
    + intros [_ H] x Hx. apply is_digit_spec, H, Hx.
Qed.

(** Reading digits from an accumulator [acc]: the value is positive when
    [acc] is, or when a digit other than [0] follows. *)
Lemma read_digits_positive val : forall acc,
  0 <= acc -> Forall (fun u => 48 <= u <= 57) val ->
  0 <= fold_left (fun n u => 10 * n + (u - 48)) val acc /\
  (1 <= fold_left (fun n u => 10 * n + (u - 48)) val acc <->
   1 <= acc \/ Exists (fun u => u <> 48) val).
Proof.
  induction val as [|u val IH]; intros acc Hacc Hall; cbn [fold_left].
  - split; [assumption|]. split; [auto|].
    intros [H | H]; [assumption | inversion H].
  - inversion Hall as [|? ? Hu Hrest]; subst.
    destruct (IH (10 * acc + (u - 48)) ltac:(lia) Hrest) as [Hnonneg Hiff].
    split; [assumption|]. rewrite Hiff, Exists_cons. split.
    + intros [H | H]; [|auto].
      destruct (Z.eq_dec u 48); [left; lia | auto].
    + intros [H | [H | H]]; [left; lia | left; lia | auto].
Qed.

Lemma BigInt_positive val :
  Forall (fun u => 48 <= u <= 57) val ->
  (1 <= BigInt val <-> Exists (fun u => u <> 48) val).
Proof.
  intros Hall. unfold BigInt.
  destruct (read_digits_positive val 0 ltac:(lia) Hall) as [_ Hiff].
  rewrite Hiff. split; [intros [H | H]; [lia | assumption] | auto].
Qed.

Lemma validateInput_spec val :
  validateInput val = true <->
  val <> [] /\ Forall (fun u => 48 <= u <= 57) val /\
  Exists (fun u => u <> 48) val.
Proof.
  unfold validateInput. destruct (all_digits val) eqn:Hd; cbn [negb].
  - apply all_digits_spec in Hd. destruct Hd as [Hne Hall].
    rewrite Z.geb_le, (BigInt_positive val Hall). tauto.
  - split; [discriminate|]. intros (Hne & Hall & _).
    assert (Ht : all_digits val = true) by (apply all_digits_spec; auto).
    congruence.
Qed.

(** ** The witnesses and the bases of the two revisions *)

Lemma RawBrent_bases_sorted : StronglySorted Z.lt RawBrent.bases.
Proof. repeat constructor. Qed.

Lemma MatrixBrent_bases_sorted : StronglySorted Z.lt MatrixBrent.bases.
Proof. repeat constructor. Qed.

Lemma RawBrent_bases_gt1 : Forall (fun a => 1 < a) RawBrent.bases.
Proof. repeat constructor. Qed.

Lemma MatrixBrent_bases_gt1 : Forall (fun a => 1 < a) MatrixBrent.bases.
Proof. repeat constructor. Qed.

Lemma RawBrent_bases_pos : Forall (fun a => 0 < a) RawBrent.bases.
Proof. repeat constructor. Qed.

Lemma MatrixBrent_bases_pos : Forall (fun a => 0 < a) MatrixBrent.bases.
Proof. repeat constructor. Qed.

Lemma RawBrent_smallBasis_tested : incl RawBrent.smallBasis RawBrent.bases.
Proof. intros p Hp. cbv in Hp |- *. tauto. Qed.

Lemma MatrixBrent_smallBasis_tested :
  incl MatrixBrent.smallBasis MatrixBrent.bases.
Proof. intros p Hp. cbv in Hp |- *. tauto. Qed.

Lemma RawBrent_smallBasis_primes : Forall prime RawBrent.smallBasis.
Proof.
  assert (H : incl RawBrent.smallBasis primes_to_37)
    by (intros p Hp; cbv in Hp |- *; tauto).
  apply Forall_forall. intros p Hp.
  exact (proj1 (Forall_forall _ _) primes_to_37_prime p (H p Hp)).
Qed.

Lemma MatrixBrent_smallBasis_primes : Forall prime MatrixBrent.smallBasis.
Proof. exact primes_to_37_prime. Qed.

(** The oracle is exact below the square of the first prime that is not
    a witness. *)
Lemma oracle_exact bases bound n :
  StronglySorted Z.lt bases -> Forall (fun a => 1 < a) bases ->
  covers bases bound = true -> 0 <= bound -> n < bound * bound ->
  (isPrimeWith bases n = true <-> prime n).
Proof.
  intros Hsorted Hgt1 Hcov Hbound Hn. split.
  - intros Hacc. apply (trial_division_prime bases bound); try assumption.
    + split; [|assumption]. unfold isPrimeWith in Hacc.
      destruct (Z.ltb_spec n 2); [discriminate | lia].
    + intros p Hp Hdiv.
      apply (accepted_no_witness_divides bases); assumption.
  - apply isPrimeWith_complete.
    eapply Forall_impl; [|exact Hgt1]. cbv beta. intros; lia.
Qed.

Lemma not_prime_composite n : 2 <= n -> ~ prime n -> composite n.
Proof.
  intros Hn Hnp.
  destruct (not_prime_divide n ltac:(lia) Hnp) as (a & Ha & k & Hk).
  exists k, a. split; [nia|]. split; [lia | exact Hk].
Qed.

Lemma composite_not_prime n : composite n -> ~ prime n.
Proof.
  intros (a & b & Ha & Hb & Hn) [_ Hrel].
  assert (Hlt : 1 <= a < n) by nia.
  destruct (Hrel a Hlt) as [_ _ Hgcd].
  assert (Hd : (a | 1)).
  { apply Hgcd; [apply Z.divide_refl | exists b; lia]. }
  apply Z.divide_1_r_nonneg in Hd; lia.
Qed.

(** ** The report *)

(** Factors of at least 2 that multiply to [n]: [n] alone, or at least
    two of them, and then [n] is composite. *)
Lemma factors_shape n out :
  2 <= n -> product out = n -> Forall (fun q => 2 <= q) out ->
  out = [n] \/ ((2 <= length out)%nat /\ composite n).
Proof.
  intros Hn Hprod Hge. destruct out as [|x [|y rest]].
  - change (product []) with 1 in Hprod. lia.
  - left. change (product [x]) with (x * 1) in Hprod. f_equal. lia.
  - right. split; [cbn [length]; lia|].
    inversion Hge as [|? ? Hx Hrest]; subst.
    pose proof (product_ge_1 _ Hrest) as Hone.
    inversion Hrest as [|? ? Hy Hrest']; subst.
    pose proof (product_ge_1 _ Hrest') as Hone'.
    change (product (x :: y :: rest)) with (x * (y * product rest)).
    exists x, (y * product rest). split; [lia|]. split; [nia | reflexivity].
Qed.

Ltac verdict_solved :=
  unfold verdict_sound, primalityStatus, factorDisplay;
  cbn [classification factors stability length Nat.eqb negb andb];
  repeat split; try discriminate; try assumption; try reflexivity;
  try (intros [H | H]; discriminate); try (intros H; discriminate);
  try lia; auto.

Lemma RawAnalysis_verdict_sound resonant n out :
  1 <= n -> (n = 1 -> out = [1]) ->
  (2 <= n -> product out = n /\ Forall (fun q => 2 <= q) out) ->
  verdict_sound n (RawAnalysis.verdict resonant n out).
Proof.
  intros Hn Hone Hmore. unfold RawAnalysis.verdict.
  destruct (Z.eqb_spec n 1) as [-> | Hn1].
  { rewrite (Hone eq_refl). verdict_solved. }
  destruct (Hmore ltac:(lia)) as [Hprod Hge].
  destruct (factors_shape n out ltac:(lia) Hprod Hge) as [-> | [Hlen Hcomp]].
  - cbn [length Nat.eqb andb]. unfold at_index. cbn [Z.to_nat nth].
    rewrite Z.eqb_refl.
    destruct (RawBrent.isPrime n) eqn:Hprime.
    + verdict_solved.
    + assert (Hc : composite n).
      { apply not_prime_composite; [lia|]. intros Hp.
        apply (isPrimeWith_complete RawBrent.bases n RawBrent_bases_pos) in Hp.
        unfold RawBrent.isPrime, Architect.isPrime in Hprime. congruence. }
      verdict_solved.
  - destruct out as [|x [|y rest]]; cbn [length] in Hlen; try lia.
    cbn [length Nat.eqb andb].
    destruct rest; verdict_solved.
Qed.

Lemma MatrixAnalysis_verdict_sound resonant n out :
  1 <= n -> (n = 1 -> out = [1]) ->
  (2 <= n -> product out = n /\ Forall (fun q => 2 <= q) out) ->
  verdict_sound n (MatrixAnalysis.verdict resonant n out).
Proof.
  intros Hn Hone Hmore. unfold MatrixAnalysis.verdict.
  destruct (Z.eqb_spec n 1) as [-> | Hn1].
  { rewrite (Hone eq_refl). verdict_solved. }
  destruct (Hmore ltac:(lia)) as [Hprod Hge].
  destruct (factors_shape n out ltac:(lia) Hprod Hge) as [-> | [Hlen Hcomp]].
  - cbn [length Nat.eqb andb]. unfold at_index. cbn [Z.to_nat nth].
    rewrite Z.eqb_refl.
    destruct (MatrixBrent.isPrime n) eqn:Hprime.
    + verdict_solved.
    + assert (Hc : composite n).
      { apply not_prime_composite; [lia|]. intros Hp.
        apply (isPrimeWith_complete MatrixBrent.bases n MatrixBrent_bases_pos)
          in Hp.
        unfold MatrixBrent.isPrime, Architect.isPrime in Hprime. congruence. }
      verdict_solved.
  - destruct out as [|x [|y rest]]; cbn [length] in Hlen; try lia.
    cbn [length Nat.eqb andb].
    destruct rest; verdict_solved.
Qed.

Lemma pow2_le_product out :
  Forall (fun q => 2 <= q) out -> 2 ^ Z.of_nat (length out) <= product out.
Proof.
  induction 1 as [|q out Hq _ IH]; [cbv; discriminate|].
  change (product (q :: out)) with (q * product out).
  cbn [length]. rewrite Nat2Z.inj_succ, Z.pow_succ_r by lia.
  assert (0 < 2 ^ Z.of_nat (length out)) by (apply Z.pow_pos_nonneg; lia).
  nia.
Qed.

Lemma length_le_log2 out n :
  Forall (fun q => 2 <= q) out -> product out = n ->
  Z.of_nat (length out) <= Z.log2 n.
Proof.
  intros Hge Hprod. pose proof (pow2_le_product out Hge) as Hpow.
  rewrite Hprod in Hpow. apply Z.log2_le_mono in Hpow.
  rewrite Z.log2_pow2 in Hpow by lia. exact Hpow.
Qed.

Lemma clean_small_prime smallBasis bound factor :
  Forall prime smallBasis -> covers smallBasis bound = true -> 0 <= bound ->
  sieved_clean smallBasis factor -> 1 < factor < bound * bound ->
  prime factor.
Proof.
  intros Hprimes Hcov Hbound [Hin | Hnone] Hrange.
  - rewrite Forall_forall in Hprimes. apply Hprimes. exact Hin.
  - apply (trial_division_prime smallBasis bound); try assumption.
    intros p Hp Hdiv. exfalso.
    rewrite Forall_forall in Hnone. exact (Hnone p Hp Hdiv).
Qed.

Section EngineSummary.

Import Architect.

Variable bases : list Z.
Variable smallBasis : list Z.
Variable Arrival : Type.
Variable answer : Z -> Arrival -> option (option Z).
Variable workerCount : Z.

Hypothesis smallBasis_ge2 : Forall (fun p => 2 <= p) smallBasis.
Hypothesis answer_sound : forall n a g,
  answer n a = Some (Some g) -> 1 < g < n /\ (g | n).

Let factorizeAsync := factorizeAsync bases smallBasis Arrival answer workerCount.

(** One result for all that is known about it. *)
Lemma engine_summary n rounds :
  1 <= n ->
  exists out,
    returns (fun fuel => factorizeAsync fuel n rounds) out /\
    (n = 1 -> out = [1]) /\
    (2 <= n -> product out = n /\ Forall (fun q => 2 <= q) out) /\
    Forall (sieved_clean smallBasis) out /\
    Sorted Z.le out.
Proof.
  intros Hn.
  destruct (engine_clean bases smallBasis Arrival answer workerCount
              smallBasis_ge2 answer_sound n rounds) as (out & Hret & Hclean).
  assert (Hone : n = 1 -> out = [1]).
  { intros ->. apply (returns_unique _ _ _ Hret).
    exists 0%nat. intros fuel _. reflexivity. }
  assert (Hmore : 2 <= n -> exists tagged : list (Z * origin),
            out = sort (map fst tagged) /\ product (map fst tagged) = n /\
            Forall (fun q => 2 <= q) (map fst tagged)).
  { intros Hn2.
    destruct (engine_run bases smallBasis Arrival answer workerCount
                smallBasis_ge2 answer_sound n rounds Hn2)
      as (tagged & _ & Hret' & Hprod & Hge & _).
    exists tagged. split; [exact (returns_unique _ _ _ Hret Hret') | auto]. }
  exists out. split; [exact Hret|]. split; [exact Hone|].
  split; [|split; [exact Hclean|]].
  - intros Hn2. destruct (Hmore Hn2) as (tagged & -> & Hprod & Hge).
    split; [rewrite product_sort; exact Hprod|].
    eapply Permutation_Forall; [|exact Hge]. symmetry. apply sort_perm.
  - destruct (Z.eq_dec n 1) as [Hn1 | Hn1].
    + rewrite (Hone Hn1). repeat constructor.
    + destruct (Hmore ltac:(lia)) as (tagged & -> & _). apply sort_sorted.
Qed.

(** When the sieve leaves 1 or a number that the oracle accepts, the
    result is settled without a round: the factors of the sieve, followed
    by what it left. *)
Lemma settled_by_sieve n :
  2 <= n ->
  exists factors0 temp,
    0 < temp /\ product factors0 * temp = n /\
    Forall (fun p => In p smallBasis) factors0 /\
    Forall (fun p => Z.rem temp p <> 0) smallBasis /\
    (temp = 1 ->
     forall rounds,
       returns (fun fuel => factorizeAsync fuel n rounds) (sort factors0)) /\
    (isPrime bases temp = true ->
     forall rounds,
       returns (fun fuel => factorizeAsync fuel n rounds)
         (sort (push factors0 temp))).
Proof.
  intros Hn.
  destruct (sieve_total smallBasis smallBasis_ge2 (S (S (Z.to_nat n))) n
              ltac:(lia) ltac:(lia))
    as (fs & temp & Hsieve & Htemp & Hprod & Hin & Hrem).
  exists fs, temp. repeat (split; [assumption|]).
  assert (Hmono : forall rounds f1 f2 r, (f1 <= f2)%nat ->
            factorizeAsync f1 n rounds = Some r ->
            factorizeAsync f2 n rounds = Some r).
  { intros rounds f1 f2 r Hle. apply factorizeAsync_mono. exact Hle. }
  split; intros Hcase rounds;
    apply returns_from with (fuel0 := S (S (Z.to_nat n)));
    try exact (Hmono rounds);
    unfold factorizeAsync, Architect.factorizeAsync;
    (destruct (Z.ltb_spec n 1); [lia|]); (destruct (Z.eqb_spec n 1); [lia|]);
    rewrite Hsieve; cbn [bind].
  - subst temp.
    cbn [Z.gtb Z.compare while queue_nonempty fst snd length Nat.eqb negb bind].
    reflexivity.
  - assert (Ht2 : 2 <= temp).
    { unfold Architect.isPrime, isPrimeWith in Hcase.
      destruct (Z.ltb_spec temp 2); [discriminate | assumption]. }
    destruct (Z.gtb_spec temp 1); [|lia].
    cbn [while queue_nonempty fst snd length Nat.eqb negb].
    unfold Architect.deep_step at 1.
    change (pop [temp]) with (Some (temp, @nil Z)). cbn [bind].
    rewrite Hcase.
    cbn [while queue_nonempty fst snd length Nat.eqb negb bind].
    reflexivity.
Qed.

End EngineSummary.

Lemma RawAnalysis_report_sound A1 hardwareConcurrency resonant n rounds :
  1 <= n ->
  exists report,
    returns (fun fuel => RawAnalysis.analyzeNumber A1 hardwareConcurrency
                           resonant fuel n rounds) report /\
    verdict_sound n report.
Proof.
  intros Hn.
  destruct (engine_summary RawBrent.bases RawBrent.smallBasis RawBrent.Arrival
              (RawBrent.answer A1) (RawBrent.workerCount hardwareConcurrency)
              RawBrent_smallBasis_ge2 (RawBrent_answer_sound A1) n rounds Hn)
    as (out & Hret & Hone & Hmore & _).
  exists (RawAnalysis.verdict resonant n out). split.
  - unfold RawAnalysis.analyzeNumber.
    apply (returns_map _ (RawAnalysis.verdict resonant n)). exact Hret.
  - apply RawAnalysis_verdict_sound; assumption.
Qed.

Lemma MatrixAnalysis_report_sound A1 hardwareConcurrency resonant n rounds :
  1 <= n ->
  exists report,
    returns (fun fuel => MatrixAnalysis.analyzeNumber A1 hardwareConcurrency
                           resonant fuel n rounds) report /\
    verdict_sound n report.
Proof.
  intros Hn.
  destruct (engine_summary MatrixBrent.bases MatrixBrent.smallBasis
              MatrixBrent.Arrival (MatrixBrent.answer A1)
              (MatrixBrent.workerCount hardwareConcurrency)
              MatrixBrent_smallBasis_ge2 (MatrixBrent_answer_sound A1)
              n rounds Hn)
    as (out & Hret & Hone & Hmore & _).
  exists (MatrixAnalysis.verdict resonant n out). split.
  - unfold MatrixAnalysis.analyzeNumber.
    apply (returns_map _ (MatrixAnalysis.verdict resonant n)). exact Hret.
  - apply MatrixAnalysis_verdict_sound; assumption.
Qed.

Lemma RawAnalysis_verdict_accepted resonant n :
  RawBrent.isPrime n = true ->
  RawAnalysis.verdict resonant n [n] = mkReport PRIME [n] STABLE.
Proof.
  intros Hacc. unfold RawAnalysis.verdict.
  assert (Hn : 2 <= n).
  { unfold RawBrent.isPrime, Architect.isPrime, isPrimeWith in Hacc.
    destruct (Z.ltb_spec n 2); [discriminate | assumption]. }
  destruct (Z.eqb_spec n 1); [lia|].
  cbn [length Nat.eqb andb]. unfold at_index. cbn [Z.to_nat nth].
  rewrite Z.eqb_refl, Hacc. reflexivity.
Qed.

Lemma MatrixAnalysis_verdict_accepted resonant n :
  MatrixBrent.isPrime n = true ->
  MatrixAnalysis.verdict resonant n [n] = mkReport PRIME [n] STABLE.
Proof.
  intros Hacc. unfold MatrixAnalysis.verdict.
  assert (Hn : 2 <= n).
  { unfold MatrixBrent.isPrime, Architect.isPrime, isPrimeWith in Hacc.
    destruct (Z.ltb_spec n 2); [discriminate | assumption]. }
  destruct (Z.eqb_spec n 1); [lia|].
  cbn [length Nat.eqb andb]. unfold at_index. cbn [Z.to_nat nth].
  rewrite Z.eqb_refl, Hacc. rewrite orb_true_r. reflexivity.
Qed.

Lemma RawBrent_accepted_alone A1 hardwareConcurrency n rounds :
  RawBrent.isPrime n = true ->
  returns (fun fuel => RawBrent.factorizeAsync A1 hardwareConcurrency fuel
                         n rounds) [n].
Proof.
  apply accepted_returned_alone.
  - exact RawBrent_smallBasis_ge2.
  - exact RawBrent_bases_sorted.
  - exact RawBrent_bases_gt1.
  - exact RawBrent_smallBasis_tested.
Qed.

Lemma MatrixBrent_accepted_alone A1 hardwareConcurrency n rounds :
  MatrixBrent.isPrime n = true ->
  returns (fun fuel => MatrixBrent.factorizeAsync A1 hardwareConcurrency fuel
                         n rounds) [n].
Proof.
  apply accepted_returned_alone.
  - exact MatrixBrent_smallBasis_ge2.
  - exact MatrixBrent_bases_sorted.
  - exact MatrixBrent_bases_gt1.
  - exact MatrixBrent_smallBasis_tested.
Qed.

(** What a lane posts, read off a run that has finished. *)
Lemma posted_in_time {A : Type} (run : nat -> option A) (out : A)
    (P : A -> Prop) :
  returns run out -> (forall fuel, run fuel = Some out -> P out) -> P out.
Proof. intros [fuel0 Hrun] HP. apply (HP fuel0). apply Hrun. lia. Qed.

Lemma prime_1009 : prime 1009.
Proof. apply prime_by_gcd; [lia | vm_compute; reflexivity]. Qed.

(** ** What the deep loop hands to the coordinator *)

Section QueueFacts.

Import Architect.

Variable bases : list Z.
Variable smallBasis : list Z.
Variable Arrival : Type.
Variable answer : Z -> Arrival -> option (option Z).
Variable workerCount : Z.

Hypothesis smallBasis_ge2 : Forall (fun p => 2 <= p) smallBasis.
Hypothesis answer_sound : forall n a g,
  answer n a = Some (Some g) -> 1 < g < n /\ (g | n).

Let sieve := sieve smallBasis.
Let deep_step := deep_step bases Arrival answer workerCount.

Lemma after_iterations_residual N sieved R k : forall st,
  deep_inv Arrival N sieved st -> residual_inv smallBasis R st ->
  exists st', after_iterations k queue_nonempty deep_step st = Some st' /\
              deep_inv Arrival N sieved st' /\ residual_inv smallBasis R st'.
Proof.
  induction k as [|k IH]; intros st Hinv Hres; cbn [after_iterations];
    [eauto|].
  destruct (queue_nonempty st) eqn:Hc; [|eauto].
  destruct (deep_step_total bases Arrival answer workerCount answer_sound
              N sieved st Hinv Hc) as (st' & Hstep & Hinv' & _).
  fold deep_step in Hstep. rewrite Hstep. apply IH; [exact Hinv'|].
  apply (deep_step_residual bases smallBasis Arrival answer workerCount
           answer_sound R st st' Hres Hstep).
Qed.

(** At every iteration of the deep loop the queue holds numbers of at
    least 2 that no member of the basis divides. *)
Lemma queue_survivors n rounds :
  1 <= n ->
  exists factors0 queue0,
    returns (fun fuel => sieve fuel [n] ([], [])) (factors0, queue0) /\
    forall k, exists factors queue rounds',
      after_iterations k queue_nonempty deep_step (factors0, queue0, rounds)
        = Some (factors, queue, rounds') /\
      Forall (fun current =>
                2 <= current /\
                Forall (fun p => Z.rem current p <> 0) smallBasis) queue.
Proof.
  intros Hn.
  destruct (sieve_contract_holds smallBasis smallBasis_ge2 n Hn)
    as (factors0 & temp & _ & Hsieve & Hin & Htemp & Hrem & Hprod).
  exists factors0, (if temp >? 1 then [temp] else []).
  split; [exact Hsieve|]. intros k.
  destruct (after_iterations_residual n factors0 temp k
              (factors0, (if temp >? 1 then [temp] else []), rounds))
    as [[[factors queue] rounds'] (Hrun & (Hge & _) & (Hdiv & _))].
  - split; [|split].
    + destruct (Z.gtb_spec temp 1); repeat constructor; lia.
    + destruct (Z.gtb_spec temp 1); unfold product; cbn [fold_right];
        unfold product in Hprod; lia.
    + exists []. rewrite app_nil_r. auto.
  - split.
    + destruct (temp >? 1); constructor; [apply Z.divide_refl | constructor].
    + eapply Forall_impl; [|exact Hin]. cbv beta. auto.
  - exists factors, queue, rounds'. split; [exact Hrun|].
    rewrite Forall_forall in Hge, Hdiv, Hrem.
    apply Forall_forall. intros current Hcur.
    split; [apply Hge; exact Hcur|].
    apply Forall_forall. intros p Hp Hzero. apply (Hrem p Hp).
    pose proof (proj1 (Forall_forall _ _) smallBasis_ge2 p Hp) as Hp2.
    cbv beta in Hp2.
    apply Z.rem_divide; [lia|]. apply Z.rem_divide in Hzero; [|lia].
    eapply Z.divide_trans; [exact Hzero | apply Hdiv; exact Hcur].
Qed.

End QueueFacts.

(** ** Numbers with few prime factors *)

Lemma prime_gcd_1 p r : prime p -> ~ (p | r) -> Z.gcd r p = 1.
Proof.
  intros Hp Hndiv. assert (Hp1 : 1 < p) by (destruct Hp; assumption).
  pose proof (Z.gcd_nonneg r p) as Hnonneg.
  pose proof (Z.gcd_divide_r r p) as Hgp.
  apply Z.divide_prime_r in Hgp; [|apply prime_alt; exact Hp].
  destruct Hgp as [H | [H | [H | H]]]; try lia.
  exfalso. apply Hndiv. rewrite <- H. apply Z.gcd_divide_l.
Qed.

Lemma coprime_to_product r l q :
  Forall (fun p => prime p /\ ~ (p | r)) l ->
  (r | product l * q) -> (r | q).
Proof.
  induction 1 as [|p l [Hp Hndiv] _ IH]; intros Hdiv.
  - change (product []) with 1 in Hdiv. rewrite Z.mul_1_l in Hdiv. exact Hdiv.
  - apply IH. apply (Z.gauss r p); [|apply prime_gcd_1; assumption].
    change (product (p :: l)) with (p * product l) in Hdiv.
    rewrite <- Z.mul_assoc in Hdiv. exact Hdiv.
Qed.

Lemma prime_divisor_pos p x : prime p -> 0 < x -> (x | p) -> x = 1 \/ x = p.
Proof.
  intros Hp Hx Hdiv. assert (Hp1 : 1 < p) by (destruct Hp; assumption).
  apply Z.divide_prime_r in Hdiv; [|apply prime_alt; exact Hp]. lia.
Qed.

(** The proper divisors of a product of two primes are the two primes. *)
Lemma semiprime_divisors p q x :
  prime p -> prime q -> (x | p * q) -> 1 < x < p * q -> x = p \/ x = q.
Proof.
  intros Hp Hq Hdiv Hx.
  assert (Hp1 : 1 < p) by (destruct Hp; assumption).
  assert (Hq1 : 1 < q) by (destruct Hq; assumption).
  pose proof (Z.gcd_nonneg x p) as Hnonneg.
  pose proof (Z.gcd_divide_r x p) as Hgp.
  apply Z.divide_prime_r in Hgp; [|apply prime_alt; exact Hp].
  destruct Hgp as [H | [H | [H | H]]]; try lia.
  - right. apply (Z.gauss x p q) in Hdiv; [|exact H].
    destruct (prime_divisor_pos q x Hq ltac:(lia) Hdiv); [lia | assumption].
  - left. pose proof (Z.gcd_divide_l x p) as Hpx. rewrite H in Hpx.
    destruct Hpx as [a Ha]. destruct Hdiv as [k Hk].
    assert (Haq : (a | q)).
    { exists k. subst x. apply (Z.mul_reg_l _ _ p); [lia|]. lia. }
    assert (Ha0 : 0 < a) by nia.
    destruct (prime_divisor_pos q a Hq Ha0 Haq) as [-> | ->]; [lia | nia].
Qed.

(** Factors of at least 2, in ascending order, that multiply to a product
    of two primes: the two primes, or the product itself. *)
Lemma semiprime_factorisations p q out :
  prime p -> prime q -> p <= q ->
  product out = p * q -> Forall (fun f => 2 <= f) out -> Sorted Z.le out ->
  out = [p; q] \/ out = [p * q].
Proof.
  intros Hp Hq Hpq Hprod Hge Hsorted.
  assert (Hp1 : 1 < p) by (destruct Hp; assumption).
  assert (Hq1 : 1 < q) by (destruct Hq; assumption).
  destruct out as [|x [|y rest]].
  - change (product []) with 1 in Hprod. nia.
  - right. change (product [x]) with (x * 1) in Hprod. f_equal. lia.
  - left.
    inversion Hge as [|? ? Hx Hrest]; subst.
    inversion Hrest as [|? ? Hy Hrest']; subst.
    pose proof (product_ge_1 _ Hrest') as Hone.
    change (product (x :: y :: rest)) with (x * (y * product rest)) in Hprod.
    assert (Hxy : x <= y).
    { inversion Hsorted as [|? ? _ Hhd]; subst.
      inversion Hhd; subst. assumption. }
    assert (HM : 2 <= y * product rest) by nia.
    assert (Hydiv : (y | y * product rest))
      by (exists (product rest); lia).
    remember (y * product rest) as M eqn:HeqM.
    assert (Hx' : x = p \/ x = q).
    { apply semiprime_divisors; try assumption.
      - exists M. lia.
      - nia. }
    assert (Hm : M = p \/ M = q).
    { apply semiprime_divisors; try assumption.
      - exists x. lia.
      - nia. }
    assert (Hy' : y = M).
    { destruct Hm as [Hm | Hm]; rewrite Hm in Hydiv.
      - destruct (prime_divisor_pos p y Hp ltac:(lia) Hydiv); lia.
      - destruct (prime_divisor_pos q y Hq ltac:(lia) Hydiv); lia. }
    assert (Hr : product rest = 1) by nia.
    apply product_one in Hr; [|assumption]. subst rest.
    assert (x = p /\ y = q) by nia.
    f_equal; [lia | f_equal; lia].
Qed.

(** ** The results on numbers with few prime factors *)

Section FewPrimeFactors.

Import Architect.

Variable bases : list Z.
Variable smallBasis : list Z.
Variable Arrival : Type.
Variable answer : Z -> Arrival -> option (option Z).
Variable workerCount : Z.

Hypothesis smallBasis_ge2 : Forall (fun p => 2 <= p) smallBasis.
Hypothesis answer_sound : forall n a g,
  answer n a = Some (Some g) -> 1 < g < n /\ (g | n).
Hypothesis smallBasis_primes : Forall prime smallBasis.
Hypothesis bases_pos : Forall (fun a => 0 < a) bases.

Let factorizeAsync := factorizeAsync bases smallBasis Arrival answer workerCount.

(** At most one prime factor outside the basis: the result is the same
    for all rounds and consists of primes. *)
Lemma one_prime_beyond_the_basis l q n :
  Forall (fun p => In p smallBasis) l -> q = 1 \/ prime q ->
  n = product l * q -> 2 <= n ->
  exists out,
    (forall rounds, returns (fun fuel => factorizeAsync fuel n rounds) out) /\
    Forall prime out /\ product out = n.
Proof.
  intros Hl Hq Hn Hn2.
  destruct (settled_by_sieve bases smallBasis Arrival answer workerCount
              smallBasis_ge2 n Hn2)
    as (fs & temp & Htemp & Hprod & Hin & Hrem & Hone & Hacc).
  assert (Hfs : Forall prime fs).
  { rewrite Forall_forall in *. intros p Hp.
    apply smallBasis_primes, Hin, Hp. }
  assert (Hdiv : (temp | q)).
  { apply (coprime_to_product temp l q).
    - rewrite Forall_forall in *. intros p Hp.
      split; [apply smallBasis_primes, Hl, Hp|].
      intros Hpt. apply (Hrem p (Hl p Hp)).
      apply Z.rem_divide; [|exact Hpt].
      specialize (smallBasis_ge2 p (Hl p Hp)). cbv beta in smallBasis_ge2. lia.
    - rewrite <- Hn. exists (product fs). lia. }
  assert (Hcases : temp = 1 \/ (temp = q /\ prime q)).
  { destruct Hq as [-> | Hq].
    - left. apply Z.divide_1_r_nonneg in Hdiv; lia.
    - destruct (prime_divisor_pos q temp Hq Htemp Hdiv); auto. }
  destruct Hcases as [-> | [-> Hq']].
  - exists (sort fs). split; [exact (Hone eq_refl)|]. split.
    + eapply Permutation_Forall; [apply Permutation_sym, sort_perm | exact Hfs].
    + rewrite product_sort. lia.
  - exists (sort (push fs q)). split.
    + apply Hacc. apply isPrimeWith_complete; assumption.
    + split.
      * eapply Permutation_Forall; [apply Permutation_sym, sort_perm|].
        apply Forall_push; assumption.
      * rewrite product_sort, product_push. exact Hprod.
Qed.

(** A product of two primes comes back as the two primes or whole, and
    whole only when neither prime is in the basis. *)
Lemma semiprime_result p q rounds :
  prime p -> prime q -> p <= q ->
  exists out,
    returns (fun fuel => factorizeAsync fuel (p * q) rounds) out /\
    (out = [p; q] \/
     out = [p * q] /\ ~ In p smallBasis /\ ~ In q smallBasis).
Proof.
  intros Hp Hq Hpq.
  assert (Hp1 : 1 < p) by (destruct Hp; assumption).
  assert (Hq1 : 1 < q) by (destruct Hq; assumption).
  assert (Hn : 2 <= p * q) by nia.
  destruct (engine_summary bases smallBasis Arrival answer workerCount
              smallBasis_ge2 answer_sound (p * q) rounds ltac:(lia))
    as (out & Hret & _ & Hmore & Hclean & Hsorted).
  destruct (Hmore Hn) as [Hprod Hge].
  exists out. split; [exact Hret|].
  destruct (semiprime_factorisations p q out Hp Hq Hpq Hprod Hge Hsorted)
    as [-> | ->]; [left; reflexivity | right].
  split; [reflexivity|].
  apply Forall_inv in Hclean.
  assert (Hcomp : ~ prime (p * q)).
  { apply composite_not_prime. exists p, q. auto. }
  destruct Hclean as [Hin | Hnone].
  { exfalso. apply Hcomp. rewrite Forall_forall in smallBasis_primes.
    apply smallBasis_primes. exact Hin. }
  rewrite Forall_forall in Hnone. split; intros Hin.
  - apply (Hnone p Hin). exists q. lia.
  - apply (Hnone q Hin). exists p. lia.
Qed.

End FewPrimeFactors.

(** ** The properties *)

(** X1. The binary [gcd] of the worker script finishes on non-negative
    arguments and returns their greatest common divisor. *)
Theorem X1_worker_gcd (a b : Z) :
  0 <= a -> 0 <= b ->
  returns (fun fuel => gcd fuel a b) (Z.gcd a b).
Proof.
  intros Ha Hb. exists (Z.to_nat (a + b)). intros fuel Hle.
  apply gcd_total; assumption.
Qed.

Lemma X1_worker_gcd_witness :
  0 <= 48 /\ 0 <= 180 /\ returns (fun fuel => gcd fuel 48 180) (Z.gcd 48 180).
Proof.
  split; [lia|]. split; [lia|]. apply (X1_worker_gcd 48 180); lia.
Defined.

(** X2. [power(base, exp, mod)] is modular exponentiation: for a modulus
    above 1 and non-negative base and exponent it returns
    [base ^ exp mod modulus], a number from 0 up to [modulus - 1]. *)
Theorem X2_power_modular (base exp modulus : Z) :
  1 < modulus -> 0 <= base -> 0 <= exp ->
  power base exp modulus = base ^ exp mod modulus /\
  0 <= power base exp modulus < modulus.
Proof.
  intros Hm Hb He. rewrite power_spec by assumption.
  split; [reflexivity|]. apply Z.mod_pos_bound. lia.
Qed.

Lemma X2_power_modular_witness :
  1 < 1000 /\ 0 <= 2 /\ 0 <= 10 /\
  power 2 10 1000 = 2 ^ 10 mod 1000 /\ 0 <= power 2 10 1000 < 1000.
Proof.
  split; [lia|]. split; [lia|]. split; [lia|].
  apply (X2_power_modular 2 10 1000); lia.
Defined.

(** X3. [isPrime] never rejects a prime: in both revisions the oracle
    returns [true] on every prime number. *)
Theorem X3_oracle_accepts_primes (n : Z) :
  prime n -> RawBrent.isPrime n = true /\ MatrixBrent.isPrime n = true.
Proof.
  intros Hp. split.
  - apply isPrimeWith_complete; [exact RawBrent_bases_pos | exact Hp].
  - apply isPrimeWith_complete; [exact MatrixBrent_bases_pos | exact Hp].
Qed.

Lemma X3_oracle_accepts_primes_witness :
  prime 1009 /\
  RawBrent.isPrime 1009 = true /\ MatrixBrent.isPrime 1009 = true.
Proof.
  split; [exact prime_1009|].
  apply (X3_oracle_accepts_primes 1009). exact prime_1009.
Defined.

(** X4. Below the square of the first prime that is not a witness the
    oracle is exact: [isPrime n] is [true] exactly for the primes, below
    [41 * 41] with the witnesses up to 37 and below [53 * 53] with the
    witnesses up to 47. *)
Theorem X4_oracle_exact_when_small (n : Z) :
  (n < 1681 -> (RawBrent.isPrime n = true <-> prime n)) /\
  (n < 2809 -> (MatrixBrent.isPrime n = true <-> prime n)).
Proof.
  split; intros Hn.
  - apply (oracle_exact RawBrent.bases 41).
    + exact RawBrent_bases_sorted.
    + exact RawBrent_bases_gt1.
    + vm_compute. reflexivity.
    + lia.
    + lia.
  - apply (oracle_exact MatrixBrent.bases 53).
    + exact MatrixBrent_bases_sorted.
    + exact MatrixBrent_bases_gt1.
    + vm_compute. reflexivity.
    + lia.
    + lia.
Qed.

Lemma X4_oracle_exact_when_small_witness :
  1669 < 1681 /\ 1669 < 2809 /\
  (RawBrent.isPrime 1669 = true <-> prime 1669) /\
  (MatrixBrent.isPrime 1669 = true <-> prime 1669).
Proof.
  split; [lia|]. split; [lia|]. split.
  - apply (proj1 (X4_oracle_exact_when_small 1669)). lia.
  - apply (proj2 (X4_oracle_exact_when_small 1669)). lia.
Defined.

(** X5. A number that [isPrime] accepts is returned by [factorizeAsync]
    as the only factor, whatever the workers do: no round is started for
    it. *)
Theorem X5_accepted_input_comes_back_alone
    (A1 : list (list Z)) (hardwareConcurrency n : Z) :
  (RawBrent.isPrime n = true ->
   forall rounds,
     returns (fun fuel => RawBrent.factorizeAsync A1 hardwareConcurrency
                            fuel n rounds) [n]) /\
  (MatrixBrent.isPrime n = true ->
   forall rounds,
     returns (fun fuel => MatrixBrent.factorizeAsync A1 hardwareConcurrency
                            fuel n rounds) [n]).
Proof.
  split; intros Hacc rounds.
  - apply RawBrent_accepted_alone. exact Hacc.
  - apply MatrixBrent_accepted_alone. exact Hacc.
Qed.

Lemma X5_accepted_input_comes_back_alone_witness :
  RawBrent.isPrime 1009 = true /\ MatrixBrent.isPrime 1009 = true /\
  returns (fun fuel => RawBrent.factorizeAsync sample_A1 8 fuel 1009
                         [[RawBrent.mkArrival 0 100]]) [1009] /\
  returns (fun fuel => MatrixBrent.factorizeAsync sample_A1 8 fuel 1009
                         [[MatrixBrent.mkArrival 0 5 100]]) [1009].
Proof.
  assert (Hraw : RawBrent.isPrime 1009 = true) by (vm_compute; reflexivity).
  assert (Hmat : MatrixBrent.isPrime 1009 = true) by (vm_compute; reflexivity).
  split; [exact Hraw|]. split; [exact Hmat|]. split.
  - exact (proj1 (X5_accepted_input_comes_back_alone sample_A1 8 1009) Hraw
             [[RawBrent.mkArrival 0 100]]).
  - exact (proj2 (X5_accepted_input_comes_back_alone sample_A1 8 1009) Hmat
             [[MatrixBrent.mkArrival 0 5 100]]).
Defined.

(** X6. For a prime input [analyzeNumber] reports the classification
    [PRIME], the stability [STABLE] and the number itself as the only
    factor, in both revisions, for every behaviour of the workers and
    every resonance score. *)
Theorem X6_prime_report
    (A1 : list (list Z)) (hardwareConcurrency n : Z) (resonant : bool) :
  prime n ->
  (forall rounds,
     returns (fun fuel => RawAnalysis.analyzeNumber A1 hardwareConcurrency
                            resonant fuel n rounds)
       (mkReport PRIME [n] STABLE)) /\
  (forall rounds,
     returns (fun fuel => MatrixAnalysis.analyzeNumber A1 hardwareConcurrency
                            resonant fuel n rounds)
       (mkReport PRIME [n] STABLE)).
Proof.
  intros Hp. split; intros rounds.
  - assert (Hacc : RawBrent.isPrime n = true)
      by (apply isPrimeWith_complete; [exact RawBrent_bases_pos | exact Hp]).
    rewrite <- (RawAnalysis_verdict_accepted resonant n Hacc).
    unfold RawAnalysis.analyzeNumber.
    apply (returns_map _ (RawAnalysis.verdict resonant n)).
    apply RawBrent_accepted_alone. exact Hacc.
  - assert (Hacc : MatrixBrent.isPrime n = true)
      by (apply isPrimeWith_complete; [exact MatrixBrent_bases_pos | exact Hp]).
    rewrite <- (MatrixAnalysis_verdict_accepted resonant n Hacc).
    unfold MatrixAnalysis.analyzeNumber.
    apply (returns_map _ (MatrixAnalysis.verdict resonant n)).
    apply MatrixBrent_accepted_alone. exact Hacc.
Qed.

Lemma X6_prime_report_witness :
  prime 1009 /\
  returns (fun fuel => RawAnalysis.analyzeNumber sample_A1 8 false fuel 1009 [])
    (mkReport PRIME [1009] STABLE) /\
  returns (fun fuel => MatrixAnalysis.analyzeNumber sample_A1 8 false fuel
                         1009 [])
    (mkReport PRIME [1009] STABLE).
Proof.
  split; [exact prime_1009|]. split.
  - exact (proj1 (X6_prime_report sample_A1 8 1009 false prime_1009) []).
  - exact (proj2 (X6_prime_report sample_A1 8 1009 false prime_1009) []).
Defined.

(** X7. For every input [n >= 1] [analyzeNumber] produces a report, and
    the report is sound about what it calls composite: its factors
    multiply to [n]; the classification is [UNIT] exactly for 1; the
    statuses [FAILED (COMPOSITE)] and [UNRESOLVED (COMPOSITE)] and the
    notice [Analysis inconclusive. Number is composite ...] of
    [ReportSummary] appear only for composite numbers; and the factor
    list shown is never [None]. *)
Theorem X7_report_sound
    (A1 : list (list Z)) (hardwareConcurrency n : Z) (resonant : bool) :
  1 <= n ->
  (forall rounds, exists report,
     returns (fun fuel => RawAnalysis.analyzeNumber A1 hardwareConcurrency
                            resonant fuel n rounds) report /\
     verdict_sound n report) /\
  (forall rounds, exists report,
     returns (fun fuel => MatrixAnalysis.analyzeNumber A1 hardwareConcurrency
                            resonant fuel n rounds) report /\
     verdict_sound n report).
Proof.
  intros Hn. split; intros rounds.
  - apply RawAnalysis_report_sound. exact Hn.
  - apply MatrixAnalysis_report_sound. exact Hn.
Qed.

Lemma X7_report_sound_witness :
  1 <= 899 /\
  (exists report,
     returns (fun fuel => RawAnalysis.analyzeNumber sample_A1 8 true fuel 899
                            [[]]) report /\
     verdict_sound 899 report) /\
  (exists report,
     returns (fun fuel => MatrixAnalysis.analyzeNumber sample_A1 8 true fuel
                            899 [[]]) report /\
     verdict_sound 899 report).
Proof.
  split; [lia|]. split.
  - exact (proj1 (X7_report_sound sample_A1 8 899 true ltac:(lia)) [[]]).
  - exact (proj2 (X7_report_sound sample_A1 8 899 true ltac:(lia)) [[]]).
Defined.

(** X8. Whatever [factorizeAsync] returns, a factor outside [smallBasis]
    has no divisor in [smallBasis]; hence every returned factor between 2
    and [29 * 29 - 1] (between 2 and [41 * 41 - 1] in the revision with
    the basis up to 37) is a prime number. *)
Theorem X8_factors_beyond_the_sieve
    (A1 : list (list Z)) (hardwareConcurrency n : Z) :
  (forall rounds, exists out,
     returns (fun fuel => RawBrent.factorizeAsync A1 hardwareConcurrency
                            fuel n rounds) out /\
     Forall (fun factor => sieved_clean RawBrent.smallBasis factor /\
                           (1 < factor < 841 -> prime factor)) out) /\
  (forall rounds, exists out,
     returns (fun fuel => MatrixBrent.factorizeAsync A1 hardwareConcurrency
                            fuel n rounds) out /\
     Forall (fun factor => sieved_clean MatrixBrent.smallBasis factor /\
                           (1 < factor < 1681 -> prime factor)) out).
Proof.
  split; intros rounds.
  - destruct (engine_clean RawBrent.bases RawBrent.smallBasis RawBrent.Arrival
                (RawBrent.answer A1) (RawBrent.workerCount hardwareConcurrency)
                RawBrent_smallBasis_ge2 (RawBrent_answer_sound A1) n rounds)
      as (out & Hret & Hclean).
    exists out. split; [exact Hret|].
    eapply Forall_impl; [|exact Hclean]. cbv beta.
    intros factor Hc. split; [exact Hc|]. intros Hrange.
    apply (clean_small_prime RawBrent.smallBasis 29);
      [exact RawBrent_smallBasis_primes | vm_compute; reflexivity | lia
      | exact Hc | lia].
  - destruct (engine_clean MatrixBrent.bases MatrixBrent.smallBasis
                MatrixBrent.Arrival (MatrixBrent.answer A1)
                (MatrixBrent.workerCount hardwareConcurrency)
                MatrixBrent_smallBasis_ge2 (MatrixBrent_answer_sound A1)
                n rounds)
      as (out & Hret & Hclean).
    exists out. split; [exact Hret|].
    eapply Forall_impl; [|exact Hclean]. cbv beta.
    intros factor Hc. split; [exact Hc|]. intros Hrange.
    apply (clean_small_prime MatrixBrent.smallBasis 41);
      [exact MatrixBrent_smallBasis_primes | vm_compute; reflexivity | lia
      | exact Hc | lia].
Qed.

Lemma X8_factors_beyond_the_sieve_witness :
  (exists out,
     returns (fun fuel => RawBrent.factorizeAsync sample_A1 8 fuel 4135262
                            [[RawBrent.mkArrival 0 100]]) out /\
     Forall (fun factor => sieved_clean RawBrent.smallBasis factor /\
                           (1 < factor < 841 -> prime factor)) out) /\
  (exists out,
     returns (fun fuel => MatrixBrent.factorizeAsync sample_A1 8 fuel 4135262
                            [[MatrixBrent.mkArrival 0 5 100]]) out /\
     Forall (fun factor => sieved_clean MatrixBrent.smallBasis factor /\
                           (1 < factor < 1681 -> prime factor)) out).
Proof.
  split.
  - exact (proj1 (X8_factors_beyond_the_sieve sample_A1 8 4135262)
             [[RawBrent.mkArrival 0 100]]).
  - exact (proj2 (X8_factors_beyond_the_sieve sample_A1 8 4135262)
             [[MatrixBrent.mkArrival 0 5 100]]).
Defined.

(** X9. The first message that carries a factor settles the round: when
    fewer messages than there are workers came before it, none of them
    with a factor, [findFactorParallel] returns that factor for an odd
    number that the oracle rejects, whatever arrives later. *)
Theorem X9_first_factor_wins
    (A1 : list (list Z)) (hardwareConcurrency n : Z) :
  Z.odd n = true ->
  (RawBrent.isPrime n = false ->
   forall pre a post g,
     Forall (fun a' => RawBrent.answer A1 n a' = Some None \/
                       RawBrent.answer A1 n a' = None) pre ->
     Z.of_nat (length pre) < RawBrent.workerCount hardwareConcurrency ->
     RawBrent.answer A1 n a = Some (Some g) ->
     RawBrent.findFactorParallel A1 hardwareConcurrency n (pre ++ a :: post)
       = Some g) /\
  (MatrixBrent.isPrime n = false ->
   forall pre a post g,
     Forall (fun a' => MatrixBrent.answer A1 n a' = Some None \/
                       MatrixBrent.answer A1 n a' = None) pre ->
     Z.of_nat (length pre) < MatrixBrent.workerCount hardwareConcurrency ->
     MatrixBrent.answer A1 n a = Some (Some g) ->
     MatrixBrent.findFactorParallel A1 hardwareConcurrency n
       (pre ++ a :: post) = Some g).
Proof.
  intros Hodd. apply odd_rem in Hodd.
  split; intros Hprime pre a post g Hpre Hlen Ha.
  - apply findFactorParallel_first_factor; try assumption.
    apply RawBrent_answer_sound.
  - apply findFactorParallel_first_factor; try assumption.
    apply MatrixBrent_answer_sound.
Qed.

Lemma X9_first_factor_wins_witness :
  Z.odd 899 = true /\
  RawBrent.isPrime 899 = false /\ MatrixBrent.isPrime 899 = false /\
  RawBrent.findFactorParallel sample_A1 8 899
    ([RawBrent.mkArrival 1 0] ++
     RawBrent.mkArrival 0 100 :: [RawBrent.mkArrival 2 100]) = Some 31 /\
  MatrixBrent.findFactorParallel sample_A1 8 899
    ([MatrixBrent.mkArrival 1 7 0] ++
     MatrixBrent.mkArrival 0 5 100 :: [MatrixBrent.mkArrival 2 1 100])
  = Some 29.
Proof.
  assert (Hodd : Z.odd 899 = true) by reflexivity.
  assert (Hraw : RawBrent.isPrime 899 = false) by (vm_compute; reflexivity).
  assert (Hmat : MatrixBrent.isPrime 899 = false) by (vm_compute; reflexivity).
  split; [exact Hodd|]. split; [exact Hraw|]. split; [exact Hmat|]. split.
  - apply (proj1 (X9_first_factor_wins sample_A1 8 899 Hodd) Hraw).
    + constructor; [right; vm_compute; reflexivity | constructor].
    + vm_compute. reflexivity.
    + vm_compute. reflexivity.
  - apply (proj2 (X9_first_factor_wins sample_A1 8 899 Hodd) Hmat).
    + constructor; [right; vm_compute; reflexivity | constructor].
    + vm_compute. reflexivity.
    + vm_compute. reflexivity.
Defined.

(** X10. [validateInput] accepts exactly the non-empty strings of decimal
    digits that have a digit other than [0]; [BigInt] reads every accepted
    string as a number of at least 1, leading zeros allowed. *)
Theorem X10_validateInput_accepts (val : list Z) :
  (validateInput val = true <->
   val <> [] /\ Forall (fun u => 48 <= u <= 57) val /\
   Exists (fun u => u <> 48) val) /\
  (validateInput val = true -> 1 <= BigInt val).
Proof.
  split; [apply validateInput_spec|].
  intros Hval. apply validateInput_spec in Hval.
  destruct Hval as (_ & Hall & Hex). apply BigInt_positive; assumption.
Qed.

Lemma X10_validateInput_accepts_witness :
  validateInput [48; 48; 56; 57; 57] = true /\
  [48; 48; 56; 57; 57] <> [] /\
  Forall (fun u => 48 <= u <= 57) [48; 48; 56; 57; 57] /\
  Exists (fun u => u <> 48) [48; 48; 56; 57; 57] /\
  1 <= BigInt [48; 48; 56; 57; 57].
Proof.
  assert (Hval : validateInput [48; 48; 56; 57; 57] = true) by reflexivity.
  split; [exact Hval|].
  destruct (proj1 (proj1 (X10_validateInput_accepts [48; 48; 56; 57; 57])) Hval)
    as (Hne & Hall & Hex).
  split; [exact Hne|]. split; [exact Hall|]. split; [exact Hex|].
  exact (proj2 (X10_validateInput_accepts [48; 48; 56; 57; 57]) Hval).
Defined.

(** X11. [factorizeAsync] returns at most [log2 n] factors for an input
    [n >= 2], whatever the workers do. *)
Theorem X11_factor_count
    (A1 : list (list Z)) (hardwareConcurrency n : Z) :
  2 <= n ->
  (forall rounds, exists out,
     returns (fun fuel => RawBrent.factorizeAsync A1 hardwareConcurrency
                            fuel n rounds) out /\
     Z.of_nat (length out) <= Z.log2 n) /\
  (forall rounds, exists out,
     returns (fun fuel => MatrixBrent.factorizeAsync A1 hardwareConcurrency
                            fuel n rounds) out /\
     Z.of_nat (length out) <= Z.log2 n).
Proof.
  intros Hn. split; intros rounds.
  - destruct (engine_summary RawBrent.bases RawBrent.smallBasis
                RawBrent.Arrival (RawBrent.answer A1)
                (RawBrent.workerCount hardwareConcurrency)
                RawBrent_smallBasis_ge2 (RawBrent_answer_sound A1)
                n rounds ltac:(lia))
      as (out & Hret & _ & Hmore & _).
    destruct (Hmore Hn) as [Hprod Hge].
    exists out. split; [exact Hret|]. apply length_le_log2; assumption.
  - destruct (engine_summary MatrixBrent.bases MatrixBrent.smallBasis
                MatrixBrent.Arrival (MatrixBrent.answer A1)
                (MatrixBrent.workerCount hardwareConcurrency)
                MatrixBrent_smallBasis_ge2 (MatrixBrent_answer_sound A1)
                n rounds ltac:(lia))
      as (out & Hret & _ & Hmore & _).
    destruct (Hmore Hn) as [Hprod Hge].
    exists out. split; [exact Hret|]. apply length_le_log2; assumption.
Qed.

Lemma X11_factor_count_witness :
  2 <= 1024 /\
  (exists out,
     returns (fun fuel => RawBrent.factorizeAsync sample_A1 8 fuel 1024 [])
       out /\
     Z.of_nat (length out) <= Z.log2 1024) /\
  (exists out,
     returns (fun fuel => MatrixBrent.factorizeAsync sample_A1 8 fuel 1024 [])
       out /\
     Z.of_nat (length out) <= Z.log2 1024).
Proof.
  split; [lia|]. split.
  - exact (proj1 (X11_factor_count sample_A1 8 1024 ltac:(lia)) []).
  - exact (proj2 (X11_factor_count sample_A1 8 1024 ltac:(lia)) []).
Defined.

(** X12. The contract of a worker: for every target [n > 1], with any
    constant and seed (any column and seed in the revision that walks
    [A1]), the worker finishes and posts [null] or a divisor [g] of [n]
    with [1 < g < n]. *)
Theorem X12_worker_posts_divisor (n : Z) :
  1 < n ->
  (forall startC seedVal, exists message,
     returns (fun fuel => RawKernel.onmessage fuel n startC seedVal) message /\
     match message with
     | Some g => 1 < g < n /\ (g | n)
     | None => True
     end) /\
  (forall columnData seedVal, exists message,
     returns (fun fuel => MatrixKernel.onmessage fuel n columnData seedVal)
       message /\
     match message with
     | Some g => 1 < g < n /\ (g | n)
     | None => True
     end).
Proof.
  intros Hn. split.
  - intros startC seedVal.
    destruct (RawKernel_onmessage_total n startC seedVal Hn) as [message Hret].
    exists message. split; [exact Hret|].
    apply (posted_in_time _ message
             (fun message => match message with
                             | Some g => 1 < g < n /\ (g | n)
                             | None => True
                             end) Hret).
    intros fuel Hrun. destruct message as [g|]; [|exact I].
    apply (RawKernel_onmessage_sound fuel n startC seedVal g Hrun).
  - intros columnData seedVal.
    destruct (MatrixKernel_onmessage_total n columnData seedVal Hn)
      as [message Hret].
    exists message. split; [exact Hret|].
    apply (posted_in_time _ message
             (fun message => match message with
                             | Some g => 1 < g < n /\ (g | n)
                             | None => True
                             end) Hret).
    intros fuel Hrun. destruct message as [g|]; [|exact I].
    apply (MatrixKernel_onmessage_sound fuel n columnData seedVal g Hrun).
Qed.

Lemma X12_worker_posts_divisor_witness :
  1 < 899 /\
  (exists message,
     returns (fun fuel => RawKernel.onmessage fuel 899 1 2) message /\
     match message with
     | Some g => 1 < g < 899 /\ (g | 899)
     | None => True
     end) /\
  (exists message,
     returns (fun fuel => MatrixKernel.onmessage fuel 899 [2; 17; 41] 7)
       message /\
     match message with
     | Some g => 1 < g < 899 /\ (g | 899)
     | None => True
     end).
Proof.
  split; [lia|]. split.
  - exact (proj1 (X12_worker_posts_divisor 899 ltac:(lia)) 1 2).
  - exact (proj2 (X12_worker_posts_divisor 899 ltac:(lia)) [2; 17; 41] 7).
Defined.

(** X13. Every string that [validateInput] lets through to
    [analyzeNumber] gets a report, and the report is sound for the number
    that the string writes. *)
Theorem X13_validated_input_report
    (A1 : list (list Z)) (hardwareConcurrency : Z) (resonant : bool)
    (val : list Z) :
  validateInput val = true ->
  (forall rounds, exists report,
     returns (fun fuel => RawAnalysis.analyzeNumber A1 hardwareConcurrency
                            resonant fuel (BigInt val) rounds) report /\
     verdict_sound (BigInt val) report) /\
  (forall rounds, exists report,
     returns (fun fuel => MatrixAnalysis.analyzeNumber A1 hardwareConcurrency
                            resonant fuel (BigInt val) rounds) report /\
     verdict_sound (BigInt val) report).
Proof.
  intros Hval. apply validateInput_spec in Hval.
  destruct Hval as (_ & Hall & Hex).
  assert (Hn : 1 <= BigInt val) by (apply BigInt_positive; assumption).
  split; intros rounds.
  - apply RawAnalysis_report_sound. exact Hn.
  - apply MatrixAnalysis_report_sound. exact Hn.
Qed.

Lemma X13_validated_input_report_witness :
  validateInput [56; 57; 57] = true /\
  (exists report,
     returns (fun fuel => RawAnalysis.analyzeNumber sample_A1 8 false fuel
                            (BigInt [56; 57; 57]) [[]]) report /\
     verdict_sound (BigInt [56; 57; 57]) report) /\
  (exists report,
     returns (fun fuel => MatrixAnalysis.analyzeNumber sample_A1 8 false fuel
                            (BigInt [56; 57; 57]) [[]]) report /\
     verdict_sound (BigInt [56; 57; 57]) report).
Proof.
  assert (Hval : validateInput [56; 57; 57] = true) by reflexivity.
  split; [exact Hval|]. split.
  - exact (proj1 (X13_validated_input_report sample_A1 8 false [56; 57; 57]
                    Hval) [[]]).
  - exact (proj2 (X13_validated_input_report sample_A1 8 false [56; 57; 57]
                    Hval) [[]]).
Defined.

(** X14. At every iteration of the deep loop of [factorizeAsync] the
    queue holds only numbers of at least 2 that no member of [smallBasis]
    divides; they are odd, so the shortcut [if (n % 2n === 0n) return 2n]
    of [findFactorParallel] is never taken for a cofactor of the loop. *)
Theorem X14_queue_holds_sieve_survivors
    (A1 : list (list Z)) (hardwareConcurrency n : Z) :
  1 <= n ->
  (forall rounds, exists factors0 queue0,
     returns (fun fuel => RawBrent.sieve fuel [n] ([], []))
       (factors0, queue0) /\
     forall k, exists factors queue rounds',
       after_iterations k Architect.queue_nonempty
         (RawBrent.deep_step A1 hardwareConcurrency)
         (factors0, queue0, rounds) = Some (factors, queue, rounds') /\
       Forall (fun current =>
                 2 <= current /\ Z.rem current 2 <> 0 /\
                 Forall (fun p => Z.rem current p <> 0) RawBrent.smallBasis)
         queue) /\
  (forall rounds, exists factors0 queue0,
     returns (fun fuel => MatrixBrent.sieve fuel [n] ([], []))
       (factors0, queue0) /\
     forall k, exists factors queue rounds',
       after_iterations k Architect.queue_nonempty
         (MatrixBrent.deep_step A1 hardwareConcurrency)
         (factors0, queue0, rounds) = Some (factors, queue, rounds') /\
       Forall (fun current =>
                 2 <= current /\ Z.rem current 2 <> 0 /\
                 Forall (fun p => Z.rem current p <> 0) MatrixBrent.smallBasis)
         queue).
Proof.
  intros Hn. split; intros rounds.
  - destruct (queue_survivors RawBrent.bases RawBrent.smallBasis
                RawBrent.Arrival (RawBrent.answer A1)
                (RawBrent.workerCount hardwareConcurrency)
                RawBrent_smallBasis_ge2 (RawBrent_answer_sound A1)
                n rounds Hn) as (factors0 & queue0 & Hsieve & Hloop).
    exists factors0, queue0. split; [exact Hsieve|]. intros k.
    destruct (Hloop k) as (factors & queue & rounds' & Hrun & Hqueue).
    exists factors, queue, rounds'. split; [exact Hrun|].
    eapply Forall_impl; [|exact Hqueue]. cbv beta.
    intros current [Hge Hall]. split; [exact Hge|]. split; [|exact Hall].
    apply (Forall_inv Hall).
  - destruct (queue_survivors MatrixBrent.bases MatrixBrent.smallBasis
                MatrixBrent.Arrival (MatrixBrent.answer A1)
                (MatrixBrent.workerCount hardwareConcurrency)
                MatrixBrent_smallBasis_ge2 (MatrixBrent_answer_sound A1)
                n rounds Hn) as (factors0 & queue0 & Hsieve & Hloop).
    exists factors0, queue0. split; [exact Hsieve|]. intros k.
    destruct (Hloop k) as (factors & queue & rounds' & Hrun & Hqueue).
    exists factors, queue, rounds'. split; [exact Hrun|].
    eapply Forall_impl; [|exact Hqueue]. cbv beta.
    intros current [Hge Hall]. split; [exact Hge|]. split; [|exact Hall].
    apply (Forall_inv Hall).
Qed.

Lemma X14_queue_holds_sieve_survivors_witness :
  1 <= 5394 /\
  (exists factors0 queue0,
     returns (fun fuel => RawBrent.sieve fuel [5394] ([], []))
       (factors0, queue0) /\
     forall k, exists factors queue rounds',
       after_iterations k Architect.queue_nonempty
         (RawBrent.deep_step sample_A1 8)
         (factors0, queue0, [[RawBrent.mkArrival 0 100]])
         = Some (factors, queue, rounds') /\
       Forall (fun current =>
                 2 <= current /\ Z.rem current 2 <> 0 /\
                 Forall (fun p => Z.rem current p <> 0) RawBrent.smallBasis)
         queue) /\
  (exists factors0 queue0,
     returns (fun fuel => MatrixBrent.sieve fuel [5394] ([], []))
       (factors0, queue0) /\
     forall k, exists factors queue rounds',
       after_iterations k Architect.queue_nonempty
         (MatrixBrent.deep_step sample_A1 8)
         (factors0, queue0, [[MatrixBrent.mkArrival 0 5 100]])
         = Some (factors, queue, rounds') /\
       Forall (fun current =>
                 2 <= current /\ Z.rem current 2 <> 0 /\
                 Forall (fun p => Z.rem current p <> 0) MatrixBrent.smallBasis)
         queue).
Proof.
  split; [lia|]. split.
  - exact (proj1 (X14_queue_holds_sieve_survivors sample_A1 8 5394 ltac:(lia))
             [[RawBrent.mkArrival 0 100]]).
  - exact (proj2 (X14_queue_holds_sieve_survivors sample_A1 8 5394 ltac:(lia))
             [[MatrixBrent.mkArrival 0 5 100]]).
Defined.

(** X15. When the input has at most one prime factor outside
    [smallBasis] (counted with multiplicity), [factorizeAsync] returns its
    complete prime factorization: the result is the same for every
    behaviour of the workers, all its elements are prime, and their
    product is the input. *)
Theorem X15_one_prime_beyond_the_basis
    (A1 : list (list Z)) (hardwareConcurrency : Z) (l : list Z) (q n : Z) :
  q = 1 \/ prime q -> n = product l * q -> 2 <= n ->
  (Forall (fun p => In p RawBrent.smallBasis) l ->
   exists out,
     (forall rounds,
        returns (fun fuel => RawBrent.factorizeAsync A1 hardwareConcurrency
                               fuel n rounds) out) /\
     Forall prime out /\ product out = n) /\
  (Forall (fun p => In p MatrixBrent.smallBasis) l ->
   exists out,
     (forall rounds,
        returns (fun fuel => MatrixBrent.factorizeAsync A1 hardwareConcurrency
                               fuel n rounds) out) /\
     Forall prime out /\ product out = n).
Proof.
  intros Hq Hn Hn2. split; intros Hl.
  - apply (one_prime_beyond_the_basis RawBrent.bases RawBrent.smallBasis
             RawBrent.Arrival (RawBrent.answer A1)
             (RawBrent.workerCount hardwareConcurrency)
             RawBrent_smallBasis_ge2 RawBrent_smallBasis_primes
             RawBrent_bases_pos l q n Hl Hq Hn Hn2).
  - apply (one_prime_beyond_the_basis MatrixBrent.bases MatrixBrent.smallBasis
             MatrixBrent.Arrival (MatrixBrent.answer A1)
             (MatrixBrent.workerCount hardwareConcurrency)
             MatrixBrent_smallBasis_ge2 MatrixBrent_smallBasis_primes
             MatrixBrent_bases_pos l q n Hl Hq Hn Hn2).
Qed.

Lemma X15_one_prime_beyond_the_basis_witness :
  (1009 = 1 \/ prime 1009) /\ 18162 = product [2; 3; 3] * 1009 /\
  2 <= 18162 /\
  Forall (fun p => In p RawBrent.smallBasis) [2; 3; 3] /\
  Forall (fun p => In p MatrixBrent.smallBasis) [2; 3; 3] /\
  (exists out,
     (forall rounds,
        returns (fun fuel => RawBrent.factorizeAsync sample_A1 8 fuel 18162
                               rounds) out) /\
     Forall prime out /\ product out = 18162) /\
  (exists out,
     (forall rounds,
        returns (fun fuel => MatrixBrent.factorizeAsync sample_A1 8 fuel 18162
                               rounds) out) /\
     Forall prime out /\ product out = 18162).
Proof.
  assert (Hq : 1009 = 1 \/ prime 1009) by (right; exact prime_1009).
  assert (Hn : 18162 = product [2; 3; 3] * 1009) by reflexivity.
  assert (Hn2 : 2 <= 18162) by lia.
  assert (Hraw : Forall (fun p => In p RawBrent.smallBasis) [2; 3; 3])
    by (repeat (apply Forall_cons; [simpl; auto 20|]); apply Forall_nil).
  assert (Hmat : Forall (fun p => In p MatrixBrent.smallBasis) [2; 3; 3])
    by (repeat (apply Forall_cons; [simpl; auto 20|]); apply Forall_nil).
  split; [exact Hq|]. split; [exact Hn|]. split; [exact Hn2|].
  split; [exact Hraw|]. split; [exact Hmat|]. split.
  - exact (proj1 (X15_one_prime_beyond_the_basis sample_A1 8 [2; 3; 3] 1009
                    18162 Hq Hn Hn2) Hraw).
  - exact (proj2 (X15_one_prime_beyond_the_basis sample_A1 8 [2; 3; 3] 1009
                    18162 Hq Hn Hn2) Hmat).
Defined.

(** X16. For a product of two primes [p <= q] [factorizeAsync] returns
    the array of the two primes or the array that holds the product alone,
    nothing else; and it returns the product alone only when neither
    prime is in [smallBasis]. *)
Theorem X16_semiprime_result
    (A1 : list (list Z)) (hardwareConcurrency p q : Z) :
  prime p -> prime q -> p <= q ->
  (forall rounds, exists out,
     returns (fun fuel => RawBrent.factorizeAsync A1 hardwareConcurrency
                            fuel (p * q) rounds) out /\
     (out = [p; q] \/
      out = [p * q] /\
      ~ In p RawBrent.smallBasis /\ ~ In q RawBrent.smallBasis)) /\
  (forall rounds, exists out,
     returns (fun fuel => MatrixBrent.factorizeAsync A1 hardwareConcurrency
                            fuel (p * q) rounds) out /\
     (out = [p; q] \/
      out = [p * q] /\
      ~ In p MatrixBrent.smallBasis /\ ~ In q MatrixBrent.smallBasis)).
Proof.
  intros Hp Hq Hpq. split; intros rounds.
  - apply semiprime_result; try assumption.
    + exact RawBrent_smallBasis_ge2.
    + apply RawBrent_answer_sound.
    + exact RawBrent_smallBasis_primes.
  - apply semiprime_result; try assumption.
    + exact MatrixBrent_smallBasis_ge2.
    + apply MatrixBrent_answer_sound.
    + exact MatrixBrent_smallBasis_primes.
Qed.

Lemma X16_semiprime_result_witness :
  prime 41 /\ prime 43 /\ 41 <= 43 /\
  (exists out,
     returns (fun fuel => RawBrent.factorizeAsync sample_A1 8 fuel (41 * 43)
                            [[RawBrent.mkArrival 0 100]]) out /\
     (out = [41; 43] \/
      out = [41 * 43] /\
      ~ In 41 RawBrent.smallBasis /\ ~ In 43 RawBrent.smallBasis)) /\
  (exists out,
     returns (fun fuel => MatrixBrent.factorizeAsync sample_A1 8 fuel (41 * 43)
                            [[]]) out /\
     (out = [41; 43] \/
      out = [41 * 43] /\
      ~ In 41 MatrixBrent.smallBasis /\ ~ In 43 MatrixBrent.smallBasis)).
Proof.
  assert (Hp : prime 41)
    by (apply prime_by_gcd; [lia | vm_compute; reflexivity]).
  assert (Hq : prime 43)
    by (apply prime_by_gcd; [lia | vm_compute; reflexivity]).
  assert (Hpq : 41 <= 43) by lia.
  split; [exact Hp|]. split; [exact Hq|]. split; [exact Hpq|]. split.
  - exact (proj1 (X16_semiprime_result sample_A1 8 41 43 Hp Hq Hpq)
             [[RawBrent.mkArrival 0 100]]).
  - exact (proj2 (X16_semiprime_result sample_A1 8 41 43 Hp Hq Hpq) [[]]).
Defined.
